(** * Fixed-point arithmetic engine (FixedPoint.c) and its test harness
      (Main.c): shallow embedding

    The integer core is modelled over [Z] with every C conversion written
    out as an explicit wrap-around, at the widths that Global_Types.h
    documents ([sint32] is 32 bits wide, [sint64] 64).  [float] is IEEE-754
    binary32, taken from the Standard Library's executable specification
    [SpecFloat] at [prec = 24], [emax = 128]: every float operation is
    rounded once, to nearest with ties to even.  Undefined behaviour of the
    C program (a float-to-integer conversion whose value does not fit, a
    division by zero, a read through a null or uninitialised object) is the
    outcome [None] of the [option] monad.

    Definitions come first: the embedding of Global_Types.h,
    FixedPoint_cfg.h, FixedPoint.c and Main.c, then the vocabulary of the
    statements.  The properties follow, the integer core before the
    converters, the test harness last. *)

From Stdlib Require Import ZArith Lia Bool List SpecFloat.
From Stdlib Require String.
Import ListNotations.
Import String.StringSyntax.
Delimit Scope string_scope with string.
Local Open Scope Z_scope.

(** ** Global_Types.h *)

Definition wrap_unsigned (bits z : Z) : Z := z mod 2 ^ bits.

Definition wrap_signed (bits z : Z) : Z :=
  (z + 2 ^ (bits - 1)) mod 2 ^ bits - 2 ^ (bits - 1).

Definition fits_signed (bits z : Z) : bool :=
  (- 2 ^ (bits - 1) <=? z) && (z <? 2 ^ (bits - 1)).

Definition to_sint8  : Z -> Z := wrap_signed 8.
Definition to_sint16 : Z -> Z := wrap_signed 16.
Definition to_sint32 : Z -> Z := wrap_signed 32.
Definition to_sint64 : Z -> Z := wrap_signed 64.
Definition to_uint32 : Z -> Z := wrap_unsigned 32.
Definition to_uint64 : Z -> Z := wrap_unsigned 64.

Definition Std_ReturnType := Z.
Definition t_Fixed16 := Z.
Definition t_Fixed8 := Z.

Definition E_OK : Std_ReturnType := 0.
Definition E_NOT_OK : Std_ReturnType := 1.

(** ** FixedPoint_cfg.h *)

Definition SHIFT_16 : Z := 8.
Definition SCALE_16 : Z := Z.shiftl 1 SHIFT_16.
Definition SHIFT_8 : Z := 4.
Definition SCALE_8 : Z := Z.shiftl 1 SHIFT_8.

Definition FIX16_MAX : t_Fixed16 := to_sint16 32767.
Definition FIX16_MIN : t_Fixed16 := to_sint16 (-32768).
Definition FIX8_MAX : t_Fixed8 := to_sint8 127.
Definition FIX8_MIN : t_Fixed8 := to_sint8 (-128).

(** ** Objects reached through a pointer

    [NULL] is the null pointer; [Ref c] points to an object whose content
    is [c], with [None] for a declared but not yet assigned local. *)

Inductive ptr (A : Type) : Type :=
| NULL : ptr A
| Ref (contents : option A) : ptr A.
Arguments NULL {A}.
Arguments Ref {A} contents.

Definition deref {A : Type} (p : ptr A) : option A :=
  match p with
  | NULL => None
  | Ref c => c
  end.

Definition bind {A B : Type} (c : option A) (k : A -> option B) : option B :=
  match c with
  | Some a => k a
  | None => None
  end.

Notation "x <- c ;; k" := (bind c (fun x => k))
  (at level 61, c at next level, right associativity).
Notation "' pat <- c ;; k" := (bind c (fun x => match x with pat => k end))
  (at level 61, pat pattern, c at next level, right associativity).

(** ** Saturation to the container, shared shape of every range check *)

Definition saturate (lo hi tmp : Z) : Z * Std_ReturnType :=
  if tmp >? hi then (hi, E_NOT_OK)
  else if tmp <? lo then (lo, E_NOT_OK)
  else (tmp, E_OK).

(** ** Core operations, 16 bit *)

Definition FixedPoint_Add16_Core (a b : t_Fixed16) (r : ptr t_Fixed16)
  : Std_ReturnType * ptr t_Fixed16 :=
  match r with
  | NULL => (E_NOT_OK, NULL)
  | Ref _ =>
      let tmp := to_sint32 (to_sint32 a + to_sint32 b) in
      let '(tmp, ret) := saturate (to_sint32 FIX16_MIN) (to_sint32 FIX16_MAX) tmp in
      (ret, Ref (Some (to_sint16 tmp)))
  end.

Definition FixedPoint_Sub16_Core (a b : t_Fixed16) (r : ptr t_Fixed16)
  : Std_ReturnType * ptr t_Fixed16 :=
  match r with
  | NULL => (E_NOT_OK, NULL)
  | Ref _ =>
      let tmp := to_sint32 (to_sint32 a - to_sint32 b) in
      let '(tmp, ret) := saturate (to_sint32 FIX16_MIN) (to_sint32 FIX16_MAX) tmp in
      (ret, Ref (Some (to_sint16 tmp)))
  end.

Definition FixedPoint_Mult16_Core (a b : t_Fixed16) (r : ptr t_Fixed16)
  : Std_ReturnType * ptr t_Fixed16 :=
  match r with
  | NULL => (E_NOT_OK, NULL)
  | Ref _ =>
      let tmp := to_sint64 (to_sint64 a * to_sint64 b) in
      let tmp :=
        if 0 <? SHIFT_16 then
          let half := to_sint64 (Z.shiftl (to_sint64 1) (SHIFT_16 - 1)) in
          let neg := tmp <? 0 in
          let mag := if neg then to_sint64 (- tmp) else tmp in
          let mag := Z.shiftr (to_sint64 (mag + half)) SHIFT_16 in
          if neg then to_sint64 (- mag) else mag
        else tmp in
      let '(tmp, ret) := saturate (to_sint64 FIX16_MIN) (to_sint64 FIX16_MAX) tmp in
      (ret, Ref (Some (to_sint16 tmp)))
  end.

Definition FixedPoint_Div16_Core (a b : t_Fixed16) (r : ptr t_Fixed16)
  : option (Std_ReturnType * ptr t_Fixed16) :=
  match r with
  | NULL => Some (E_NOT_OK, NULL)
  | Ref _ =>
      let neg := Z.lxor (to_sint32 a) (to_sint32 b) <? 0 in
      let num_mag := to_uint64 (if a <? 0 then to_sint64 (- to_sint64 a) else to_sint64 a) in
      let den_mag := to_uint64 (if b <? 0 then to_sint64 (- to_sint64 b) else to_sint64 b) in
      let num_mag := to_uint64 (Z.shiftl num_mag SHIFT_16) in
      let num_mag := to_uint64 (num_mag + Z.shiftr den_mag 1) in
      if den_mag =? 0 then None
      else
        let tmp := to_sint64 (num_mag / den_mag) in
        let tmp := if neg then to_sint64 (- tmp) else tmp in
        let '(tmp, ret) := saturate (to_sint64 FIX16_MIN) (to_sint64 FIX16_MAX) tmp in
        Some (ret, Ref (Some (to_sint16 tmp)))
  end.

(** ** Core operations, 8 bit *)

Definition FixedPoint_Add8_Core (a b : t_Fixed8) (r : ptr t_Fixed8)
  : Std_ReturnType * ptr t_Fixed8 :=
  match r with
  | NULL => (E_NOT_OK, NULL)
  | Ref _ =>
      let tmp := to_sint16 (to_sint16 a + to_sint16 b) in
      let '(tmp, ret) := saturate (to_sint16 FIX8_MIN) (to_sint16 FIX8_MAX) tmp in
      (ret, Ref (Some (to_sint8 tmp)))
  end.

Definition FixedPoint_Sub8_Core (a b : t_Fixed8) (r : ptr t_Fixed8)
  : Std_ReturnType * ptr t_Fixed8 :=
  match r with
  | NULL => (E_NOT_OK, NULL)
  | Ref _ =>
      let tmp := to_sint16 (to_sint16 a - to_sint16 b) in
      let '(tmp, ret) := saturate (to_sint16 FIX8_MIN) (to_sint16 FIX8_MAX) tmp in
      (ret, Ref (Some (to_sint8 tmp)))
  end.

Definition FixedPoint_Mult8_Core (a b : t_Fixed8) (r : ptr t_Fixed8)
  : Std_ReturnType * ptr t_Fixed8 :=
  match r with
  | NULL => (E_NOT_OK, NULL)
  | Ref _ =>
      let tmp := to_sint32 (to_sint32 a * to_sint32 b) in
      let tmp :=
        if 0 <? SHIFT_8 then
          let half := to_sint32 (Z.shiftl (to_sint32 1) (SHIFT_8 - 1)) in
          let neg := tmp <? 0 in
          let mag := if neg then to_sint32 (- tmp) else tmp in
          let mag := Z.shiftr (to_sint32 (mag + half)) SHIFT_8 in
          if neg then to_sint32 (- mag) else mag
        else tmp in
      let '(tmp, ret) := saturate (to_sint32 FIX8_MIN) (to_sint32 FIX8_MAX) tmp in
      (ret, Ref (Some (to_sint8 tmp)))
  end.

Definition FixedPoint_Div8_Core (a b : t_Fixed8) (r : ptr t_Fixed8)
  : option (Std_ReturnType * ptr t_Fixed8) :=
  match r with
  | NULL => Some (E_NOT_OK, NULL)
  | Ref _ =>
      let neg := Z.lxor (to_sint16 a) (to_sint16 b) <? 0 in
      let num_mag := to_uint32 (if a <? 0 then to_sint32 (- to_sint32 a) else to_sint32 a) in
      let den_mag := to_uint32 (if b <? 0 then to_sint32 (- to_sint32 b) else to_sint32 b) in
      let num_mag := to_uint32 (Z.shiftl num_mag SHIFT_8) in
      let num_mag := to_uint32 (num_mag + Z.shiftr den_mag 1) in
      if den_mag =? 0 then None
      else
        let tmp := to_sint32 (num_mag / den_mag) in
        let tmp := if neg then to_sint32 (- tmp) else tmp in
        let '(tmp, ret) := saturate (to_sint32 FIX8_MIN) (to_sint32 FIX8_MAX) tmp in
        Some (ret, Ref (Some (to_sint8 tmp)))
  end.

(** ** The C type [float]: IEEE-754 binary32 *)

Definition float := spec_float.

Definition f32_mul : float -> float -> float := SFmul 24 128.
Definition f32_add : float -> float -> float := SFadd 24 128.
Definition f32_sub : float -> float -> float := SFsub 24 128.
Definition f32_div : float -> float -> float := SFdiv 24 128.

(** [x >= y] on floats; false as soon as one side is a NaN. *)
Definition f32_ge (x y : float) : bool := SFleb y x.

(** The binary32 number nearest to [m * 2^e]: float literals, and the
    conversion [(float)z] of an integer [z] at [e = 0]. *)
Definition f32 (m e : Z) : float := binary_normalize 24 128 m e false.

Definition float_of_int (z : Z) : float := f32 z 0.

(** Integral part of a float, fraction discarded; none for infinities and NaN. *)
Definition trunc_float (x : float) : option Z :=
  match x with
  | S754_zero _ => Some 0
  | S754_finite s m e =>
      Some (cond_Zopp s
              (match e with
               | Z0 => Zpos m
               | Zpos _ => Zpos m * 2 ^ e
               | Zneg _ => Zpos m / 2 ^ (- e)
               end))
  | S754_infinity _ => None
  | S754_nan => None
  end.

(** [(sintN)x] for a float [x]: defined only when the integral part fits. *)
Definition float_to_sint (bits : Z) (x : float) : option Z :=
  z <- trunc_float x ;;
  if fits_signed bits z then Some z else None.

(** ** Converters *)

Definition FixedPoint_FloatToFix16 (val : float) (outVal : ptr t_Fixed16)
  : option (Std_ReturnType * ptr t_Fixed16) :=
  match outVal with
  | NULL => Some (E_NOT_OK, NULL)
  | Ref _ =>
      let scaled_f := f32_mul val (float_of_int SCALE_16) in
      scaled_i <-
        (if f32_ge scaled_f (S754_zero false)
         then float_to_sint 32 (f32_add scaled_f (f32 1 (-1)))
         else float_to_sint 32 (f32_sub scaled_f (f32 1 (-1)))) ;;
      let '(scaled_i, ret) :=
        saturate (to_sint32 FIX16_MIN) (to_sint32 FIX16_MAX) scaled_i in
      Some (ret, Ref (Some (to_sint16 scaled_i)))
  end.

Definition FixedPoint_Fix16ToFloat (val : t_Fixed16) : float :=
  f32_div (float_of_int val) (float_of_int SCALE_16).

Definition FixedPoint_FloatToFix8 (val : float) (outVal : ptr t_Fixed8)
  : option (Std_ReturnType * ptr t_Fixed8) :=
  match outVal with
  | NULL => Some (E_NOT_OK, NULL)
  | Ref _ =>
      let scaled_f := f32_mul val (float_of_int SCALE_8) in
      scaled_i <-
        (if f32_ge scaled_f (S754_zero false)
         then float_to_sint 16 (f32_add scaled_f (f32 1 (-1)))
         else float_to_sint 16 (f32_sub scaled_f (f32 1 (-1)))) ;;
      let '(scaled_i, ret) :=
        saturate (to_sint16 FIX8_MIN) (to_sint16 FIX8_MAX) scaled_i in
      Some (ret, Ref (Some (to_sint8 scaled_i)))
  end.

Definition FixedPoint_Fix8ToFloat (val : t_Fixed8) : float :=
  f32_div (float_of_int val) (float_of_int SCALE_8).

(** ** Public operations *)

Definition all_ok (conv1 conv2 core : Std_ReturnType) : Std_ReturnType :=
  if (conv1 =? E_OK) && (conv2 =? E_OK) && (core =? E_OK) then E_OK else E_NOT_OK.

Definition FixedPoint_Add16 (val1 val2 : float) (result : ptr float)
  : option (Std_ReturnType * ptr float) :=
  match result with
  | NULL => Some (E_NOT_OK, NULL)
  | Ref _ =>
      '(conv1, pa) <- FixedPoint_FloatToFix16 val1 (Ref None) ;;
      '(conv2, pb) <- FixedPoint_FloatToFix16 val2 (Ref None) ;;
      a <- deref pa ;;
      b <- deref pb ;;
      let '(core, pr) := FixedPoint_Add16_Core a b (Ref (Some 0)) in
      let ret := all_ok conv1 conv2 core in
      rFixed <- deref pr ;;
      Some (ret, Ref (Some (FixedPoint_Fix16ToFloat rFixed)))
  end.

Definition FixedPoint_Sub16 (val1 val2 : float) (result : ptr float)
  : option (Std_ReturnType * ptr float) :=
  match result with
  | NULL => Some (E_NOT_OK, NULL)
  | Ref _ =>
      '(conv1, pa) <- FixedPoint_FloatToFix16 val1 (Ref None) ;;
      '(conv2, pb) <- FixedPoint_FloatToFix16 val2 (Ref None) ;;
      a <- deref pa ;;
      b <- deref pb ;;
      let '(core, pr) := FixedPoint_Sub16_Core a b (Ref (Some 0)) in
      let ret := all_ok conv1 conv2 core in
      rFixed <- deref pr ;;
      Some (ret, Ref (Some (FixedPoint_Fix16ToFloat rFixed)))
  end.

Definition FixedPoint_Mult16 (val1 val2 : float) (result : ptr float)
  : option (Std_ReturnType * ptr float) :=
  match result with
  | NULL => Some (E_NOT_OK, NULL)
  | Ref _ =>
      '(conv1, pa) <- FixedPoint_FloatToFix16 val1 (Ref None) ;;
      '(conv2, pb) <- FixedPoint_FloatToFix16 val2 (Ref None) ;;
      a <- deref pa ;;
      b <- deref pb ;;
      let '(core, pr) := FixedPoint_Mult16_Core a b (Ref (Some 0)) in
      let ret := all_ok conv1 conv2 core in
      rFixed <- deref pr ;;
      Some (ret, Ref (Some (FixedPoint_Fix16ToFloat rFixed)))
  end.

Definition FixedPoint_Div16 (val1 val2 : float) (result : ptr float)
  : option (Std_ReturnType * ptr float) :=
  match result with
  | NULL => Some (E_NOT_OK, NULL)
  | Ref _ =>
      '(conv2, pb) <- FixedPoint_FloatToFix16 val2 (Ref None) ;;
      b <- deref pb ;;
      if negb (b =? 0) then
        '(conv1, pa) <- FixedPoint_FloatToFix16 val1 (Ref None) ;;
        a <- deref pa ;;
        '(core, pr) <- FixedPoint_Div16_Core a b (Ref (Some 0)) ;;
        let ret := all_ok conv1 conv2 core in
        rFixed <- deref pr ;;
        Some (ret, Ref (Some (FixedPoint_Fix16ToFloat rFixed)))
      else
        Some (E_NOT_OK, result)
  end.

Definition FixedPoint_Add8 (val1 val2 : float) (result : ptr float)
  : option (Std_ReturnType * ptr float) :=
  match result with
  | NULL => Some (E_NOT_OK, NULL)
  | Ref _ =>
      '(conv1, pa) <- FixedPoint_FloatToFix8 val1 (Ref None) ;;
      '(conv2, pb) <- FixedPoint_FloatToFix8 val2 (Ref None) ;;
      a <- deref pa ;;
      b <- deref pb ;;
      let '(core, pr) := FixedPoint_Add8_Core a b (Ref (Some 0)) in
      let ret := all_ok conv1 conv2 core in
      rFixed <- deref pr ;;
      Some (ret, Ref (Some (FixedPoint_Fix8ToFloat rFixed)))
  end.

Definition FixedPoint_Sub8 (val1 val2 : float) (result : ptr float)
  : option (Std_ReturnType * ptr float) :=
  match result with
  | NULL => Some (E_NOT_OK, NULL)
  | Ref _ =>
      '(conv1, pa) <- FixedPoint_FloatToFix8 val1 (Ref None) ;;
      '(conv2, pb) <- FixedPoint_FloatToFix8 val2 (Ref None) ;;
      a <- deref pa ;;
      b <- deref pb ;;
      let '(core, pr) := FixedPoint_Sub8_Core a b (Ref (Some 0)) in
      let ret := all_ok conv1 conv2 core in
      rFixed <- deref pr ;;
      Some (ret, Ref (Some (FixedPoint_Fix8ToFloat rFixed)))
  end.

Definition FixedPoint_Mult8 (val1 val2 : float) (result : ptr float)
  : option (Std_ReturnType * ptr float) :=
  match result with
  | NULL => Some (E_NOT_OK, NULL)
  | Ref _ =>
      '(conv1, pa) <- FixedPoint_FloatToFix8 val1 (Ref None) ;;
      '(conv2, pb) <- FixedPoint_FloatToFix8 val2 (Ref None) ;;
      a <- deref pa ;;
      b <- deref pb ;;
      let '(core, pr) := FixedPoint_Mult8_Core a b (Ref (Some 0)) in
      let ret := all_ok conv1 conv2 core in
      rFixed <- deref pr ;;
      Some (ret, Ref (Some (FixedPoint_Fix8ToFloat rFixed)))
  end.

Definition FixedPoint_Div8 (val1 val2 : float) (result : ptr float)
  : option (Std_ReturnType * ptr float) :=
  match result with
  | NULL => Some (E_NOT_OK, NULL)
  | Ref _ =>
      '(conv2, pb) <- FixedPoint_FloatToFix8 val2 (Ref None) ;;
      b <- deref pb ;;
      if negb (b =? 0) then
        '(conv1, pa) <- FixedPoint_FloatToFix8 val1 (Ref None) ;;
        a <- deref pa ;;
        '(core, pr) <- FixedPoint_Div8_Core a b (Ref (Some 0)) ;;
        let ret := all_ok conv1 conv2 core in
        rFixed <- deref pr ;;
        Some (ret, Ref (Some (FixedPoint_Fix8ToFloat rFixed)))
      else
        Some (E_NOT_OK, result)
  end.

(** ** The two pipelines, indexed by container width *)

Inductive width : Type := W8 | W16.

Definition fractionalBits (w : width) : Z :=
  match w with W8 => SHIFT_8 | W16 => SHIFT_16 end.

Definition scale (w : width) : Z :=
  match w with W8 => SCALE_8 | W16 => SCALE_16 end.

Definition MIN (w : width) : Z :=
  match w with W8 => FIX8_MIN | W16 => FIX16_MIN end.

Definition MAX (w : width) : Z :=
  match w with W8 => FIX8_MAX | W16 => FIX16_MAX end.

Definition in_container (w : width) (raw : Z) : Prop := MIN w <= raw <= MAX w.

Definition FloatToFix (w : width) :=
  match w with W8 => FixedPoint_FloatToFix8 | W16 => FixedPoint_FloatToFix16 end.

Definition FixToFloat (w : width) :=
  match w with W8 => FixedPoint_Fix8ToFloat | W16 => FixedPoint_Fix16ToFloat end.

Definition Add_Core (w : width) :=
  match w with W8 => FixedPoint_Add8_Core | W16 => FixedPoint_Add16_Core end.

Definition Sub_Core (w : width) :=
  match w with W8 => FixedPoint_Sub8_Core | W16 => FixedPoint_Sub16_Core end.

Definition Mult_Core (w : width) :=
  match w with W8 => FixedPoint_Mult8_Core | W16 => FixedPoint_Mult16_Core end.

Definition Div_Core (w : width) :=
  match w with W8 => FixedPoint_Div8_Core | W16 => FixedPoint_Div16_Core end.

Definition Add (w : width) :=
  match w with W8 => FixedPoint_Add8 | W16 => FixedPoint_Add16 end.

Definition Sub (w : width) :=
  match w with W8 => FixedPoint_Sub8 | W16 => FixedPoint_Sub16 end.

Definition Mult (w : width) :=
  match w with W8 => FixedPoint_Mult8 | W16 => FixedPoint_Mult16 end.

Definition Div (w : width) :=
  match w with W8 => FixedPoint_Div8 | W16 => FixedPoint_Div16 end.

(** ** Main.c: the test harness

    [RunSingleTest] and [RunAllTests] with the table of test vectors, as
    state transformers on the two counters; what they print is left out.
    The application's [main] runs [RunAllTests] and then waits for a key. *)

Module Harness.

(** A decimal float literal: [digits] with the decimal point [places]
    digits from the right, rounded once to binary32 ([100.5f] is
    [literal 1005 1]). *)
Definition literal (digits places : Z) : float :=
  f32_div (float_of_int digits) (float_of_int (10 ^ places)).

Definition f32_neg : float -> float := SFopp.
Definition f32_lt (x y : float) : bool := SFltb x y.
Definition f32_le (x y : float) : bool := SFleb x y.

Definition TEST_EPSILON_16 : float := f32_div (literal 11 1) (float_of_int SCALE_16).
Definition TEST_EPSILON_8 : float := f32_div (literal 11 1) (float_of_int SCALE_8).
Definition FIX16_REAL_MAX : float := f32_div (float_of_int FIX16_MAX) (float_of_int SCALE_16).
Definition FIX16_REAL_MIN : float := f32_div (float_of_int FIX16_MIN) (float_of_int SCALE_16).
Definition FIX8_REAL_MAX : float := f32_div (float_of_int FIX8_MAX) (float_of_int SCALE_8).
Definition FIX8_REAL_MIN : float := f32_div (float_of_int FIX8_MIN) (float_of_int SCALE_8).
Definition FIX16_RESOLUTION : float := f32_div (literal 10 1) (float_of_int SCALE_16).
Definition FIX16_BELOW_RES : float := f32_mul (literal 49 2) FIX16_RESOLUTION.
Definition FIX8_RESOLUTION : float := f32_div (literal 10 1) (float_of_int SCALE_8).
Definition FIX8_BELOW_RES : float := f32_mul (literal 49 2) FIX8_RESOLUTION.

Inductive Test_Operation_t : Type :=
| TEST_OP_ADD
| TEST_OP_SUB
| TEST_OP_MUL
| TEST_OP_DIV.

Inductive Test_Width_t : Type :=
| TEST_WIDTH_8
| TEST_WIDTH_16.

Record TestVector_t : Type := {
  a : float;
  b : float;
  expected : float;
  epsilon : float;
  description : String.string;
  op : Test_Operation_t;
  width : Test_Width_t;
  expectedStatus : Std_ReturnType
}.

(** The post-increment of an [unsigned int] counter, behind its null check. *)
Definition increment (counter : ptr Z) : option (ptr Z) :=
  match counter with
  | NULL => Some NULL
  | Ref c => n <- c ;; Some (Ref (Some (to_uint32 (n + 1))))
  end.

Definition RunSingleTest (test : ptr TestVector_t) (id : Z) (passCount failCount : ptr Z)
  : option (ptr Z * ptr Z) :=
  match test with
  | NULL => Some (passCount, failCount)
  | Ref _ =>
      t <- deref test ;;
      let result := Ref (Some (literal 0 1)) in
      '(status, result) <-
        match width t with
        | TEST_WIDTH_16 =>
            match op t with
            | TEST_OP_ADD => FixedPoint_Add16 (a t) (b t) result
            | TEST_OP_SUB => FixedPoint_Sub16 (a t) (b t) result
            | TEST_OP_MUL => FixedPoint_Mult16 (a t) (b t) result
            | TEST_OP_DIV => FixedPoint_Div16 (a t) (b t) result
            end
        | TEST_WIDTH_8 =>
            match op t with
            | TEST_OP_ADD => FixedPoint_Add8 (a t) (b t) result
            | TEST_OP_SUB => FixedPoint_Sub8 (a t) (b t) result
            | TEST_OP_MUL => FixedPoint_Mult8 (a t) (b t) result
            | TEST_OP_DIV => FixedPoint_Div8 (a t) (b t) result
            end
        end ;;
      let statusOk := if status =? expectedStatus t then 1 else 0 in
      valueOk <-
        (if status =? E_OK then
           r <- deref result ;;
           let diff := f32_sub r (expected t) in
           let diff := if f32_lt diff (literal 0 1) then f32_neg diff else diff in
           Some (if f32_le diff (epsilon t) then 1 else 0)
         else Some 1) ;;
      if negb (statusOk =? 0) && negb (valueOk =? 0) then
        passCount <- increment passCount ;;
        Some (passCount, failCount)
      else
        failCount <- increment failCount ;;
        Some (passCount, failCount)
  end.

Definition tests : list TestVector_t := [
  Build_TestVector_t (literal 1005 1) (literal 2022 2) (literal 12072 2) TEST_EPSILON_16
    "16-bit add: typical range" TEST_OP_ADD TEST_WIDTH_16 E_OK;
  Build_TestVector_t (literal 100 1) (literal 30 1) (literal 70 1) TEST_EPSILON_16
    "16-bit sub: typical range" TEST_OP_SUB TEST_WIDTH_16 E_OK;
  Build_TestVector_t (literal 20 1) (f32_neg (literal 155 2)) (f32_neg (literal 31 1)) TEST_EPSILON_16
    "16-bit mul: typical range" TEST_OP_MUL TEST_WIDTH_16 E_OK;
  Build_TestVector_t (literal 20 1) (literal 155 2) (literal 31 1) TEST_EPSILON_16
    "16-bit mul: typical range" TEST_OP_MUL TEST_WIDTH_16 E_OK;
  Build_TestVector_t (literal 1350 2) (literal 850 2) (literal 11475 2) TEST_EPSILON_16
    "16-bit mul: typical range" TEST_OP_MUL TEST_WIDTH_16 E_OK;
  Build_TestVector_t (literal 112 1) (f32_neg (literal 70 1)) (f32_neg (literal 16 1)) TEST_EPSILON_16
    "16-bit div: typical range" TEST_OP_DIV TEST_WIDTH_16 E_OK;
  Build_TestVector_t (literal 80 1) (literal 30 1) (literal 2666 3) TEST_EPSILON_16
    "16-bit div: typical range" TEST_OP_DIV TEST_WIDTH_16 E_OK;
  Build_TestVector_t (literal 199 2) (literal 5373 3) (literal 3704 4) TEST_EPSILON_16
    "16-bit div: typical range" TEST_OP_DIV TEST_WIDTH_16 E_OK;
  Build_TestVector_t (literal 200000 1) (literal 200000 1) FIX16_REAL_MAX TEST_EPSILON_16
    "16-bit add: positive saturation" TEST_OP_ADD TEST_WIDTH_16 E_NOT_OK;
  Build_TestVector_t (f32_neg (literal 200000 1)) (f32_neg (literal 200000 1)) FIX16_REAL_MIN TEST_EPSILON_16
    "16-bit add: negative saturation" TEST_OP_ADD TEST_WIDTH_16 E_NOT_OK;
  Build_TestVector_t (literal 200000 1) (literal 20 1) FIX16_REAL_MAX TEST_EPSILON_16
    "16-bit mul: positive saturation" TEST_OP_MUL TEST_WIDTH_16 E_NOT_OK;
  Build_TestVector_t (f32_neg (literal 200000 1)) (literal 20 1) FIX16_REAL_MIN TEST_EPSILON_16
    "16-bit mul: negative saturation" TEST_OP_MUL TEST_WIDTH_16 E_NOT_OK;
  Build_TestVector_t FIX16_REAL_MAX (literal 0 1) FIX16_REAL_MAX TEST_EPSILON_16
    "16-bit add: exact MAX boundary" TEST_OP_ADD TEST_WIDTH_16 E_OK;
  Build_TestVector_t FIX16_REAL_MIN (literal 0 1) FIX16_REAL_MIN TEST_EPSILON_16
    "16-bit add: exact MIN boundary" TEST_OP_ADD TEST_WIDTH_16 E_OK;
  Build_TestVector_t FIX16_REAL_MAX FIX16_RESOLUTION FIX16_REAL_MAX TEST_EPSILON_16
    "16-bit add: MAX + 1 LSB -> saturation" TEST_OP_ADD TEST_WIDTH_16 E_NOT_OK;
  Build_TestVector_t FIX16_REAL_MIN (f32_neg FIX16_RESOLUTION) FIX16_REAL_MIN TEST_EPSILON_16
    "16-bit add: MIN - 1 LSB ->  saturation" TEST_OP_ADD TEST_WIDTH_16 E_NOT_OK;
  Build_TestVector_t (f32_mul (literal 5 1) FIX16_RESOLUTION) (literal 0 1) FIX16_RESOLUTION TEST_EPSILON_16
    "16-bit add: +0.5 LSB rounds to +1 LSB" TEST_OP_ADD TEST_WIDTH_16 E_OK;
  Build_TestVector_t (f32_mul (f32_neg (literal 5 1)) FIX16_RESOLUTION) (literal 0 1)
    (f32_neg FIX16_RESOLUTION) TEST_EPSILON_16
    "16-bit add: -0.5 LSB rounds to -1 LSB" TEST_OP_ADD TEST_WIDTH_16 E_OK;
  Build_TestVector_t FIX16_BELOW_RES FIX16_BELOW_RES (literal 0 1) TEST_EPSILON_16
    "16-bit add: below resolution" TEST_OP_ADD TEST_WIDTH_16 E_OK;
  Build_TestVector_t (literal 100 1) (literal 0 1) (literal 0 1) TEST_EPSILON_16
    "16-bit div: division by zero" TEST_OP_DIV TEST_WIDTH_16 E_NOT_OK;
  Build_TestVector_t (literal 20 1) (literal 35 1) (literal 55 1) TEST_EPSILON_8
    "8-bit add: typical range" TEST_OP_ADD TEST_WIDTH_8 E_OK;
  Build_TestVector_t (literal 40 1) (literal 60 1) (f32_neg (literal 20 1)) TEST_EPSILON_8
    "8-bit sub: typical range" TEST_OP_SUB TEST_WIDTH_8 E_OK;
  Build_TestVector_t (literal 20 1) (f32_neg (literal 312 2)) (f32_neg (literal 624 2)) TEST_EPSILON_8
    "8-bit mul: typical range" TEST_OP_MUL TEST_WIDTH_8 E_OK;
  Build_TestVector_t (literal 20 1) (literal 312 2) (literal 624 2) TEST_EPSILON_8
    "8-bit mul: typical range" TEST_OP_MUL TEST_WIDTH_8 E_OK;
  Build_TestVector_t (literal 50 1) (literal 20 1) (literal 25 1) TEST_EPSILON_8
    "8-bit div: typical range" TEST_OP_DIV TEST_WIDTH_8 E_OK;
  Build_TestVector_t (literal 50 1) (f32_neg (literal 20 1)) (f32_neg (literal 25 1)) TEST_EPSILON_8
    "8-bit div: typical range" TEST_OP_DIV TEST_WIDTH_8 E_OK;
  Build_TestVector_t (literal 79 1) (literal 20 1) (literal 395 2) TEST_EPSILON_8
    "8-bit div: typical range" TEST_OP_DIV TEST_WIDTH_8 E_OK;
  Build_TestVector_t (literal 199 2) (literal 5373 3) (literal 3704 4) TEST_EPSILON_8
    "8-bit div: typical range" TEST_OP_DIV TEST_WIDTH_8 E_OK;
  Build_TestVector_t (literal 2500 1) (literal 3100 1) FIX8_REAL_MAX TEST_EPSILON_8
    "8-bit add: positive saturation" TEST_OP_ADD TEST_WIDTH_8 E_NOT_OK;
  Build_TestVector_t (f32_neg (literal 2500 1)) (f32_neg (literal 3100 1)) FIX8_REAL_MIN TEST_EPSILON_8
    "8-bit add: negative saturation" TEST_OP_ADD TEST_WIDTH_8 E_NOT_OK;
  Build_TestVector_t (literal 3000 1) (literal 20 1) FIX8_REAL_MAX TEST_EPSILON_8
    "8-bit mul: positive saturation " TEST_OP_MUL TEST_WIDTH_8 E_NOT_OK;
  Build_TestVector_t (f32_neg (literal 3000 1)) (literal 20 1) FIX8_REAL_MIN TEST_EPSILON_8
    "8-bit mul: negative saturation" TEST_OP_MUL TEST_WIDTH_8 E_NOT_OK;
  Build_TestVector_t FIX8_REAL_MAX (literal 0 1) FIX8_REAL_MAX TEST_EPSILON_8
    "8-bit add: exact MAX boundary" TEST_OP_ADD TEST_WIDTH_8 E_OK;
  Build_TestVector_t FIX8_REAL_MIN (literal 0 1) FIX8_REAL_MIN TEST_EPSILON_8
    "8-bit add: exact MIN boundary" TEST_OP_ADD TEST_WIDTH_8 E_OK;
  Build_TestVector_t FIX8_REAL_MAX FIX8_RESOLUTION FIX8_REAL_MAX TEST_EPSILON_8
    "8-bit add: MAX + 1 LSB ->  saturation" TEST_OP_ADD TEST_WIDTH_8 E_NOT_OK;
  Build_TestVector_t FIX8_REAL_MIN (f32_neg FIX8_RESOLUTION) FIX8_REAL_MIN TEST_EPSILON_8
    "8-bit add: MIN - 1 LSB ->  saturation" TEST_OP_ADD TEST_WIDTH_8 E_NOT_OK;
  Build_TestVector_t (f32_mul (literal 5 1) FIX8_RESOLUTION) (literal 0 1) FIX8_RESOLUTION TEST_EPSILON_8
    "8-bit add: +0.5 LSB rounds to +1 LSB" TEST_OP_ADD TEST_WIDTH_8 E_OK;
  Build_TestVector_t (f32_mul (f32_neg (literal 5 1)) FIX8_RESOLUTION) (literal 0 1)
    (f32_neg FIX8_RESOLUTION) TEST_EPSILON_8
    "8-bit add: -0.5 LSB rounds to -1 LSB" TEST_OP_ADD TEST_WIDTH_8 E_OK;
  Build_TestVector_t FIX8_BELOW_RES FIX8_BELOW_RES (literal 0 1) TEST_EPSILON_8
    "8-bit add: below resolution" TEST_OP_ADD TEST_WIDTH_8 E_OK;
  Build_TestVector_t (literal 50 1) (literal 0 1) (literal 0 1) TEST_EPSILON_8
    "8-bit div: division by zero" TEST_OP_DIV TEST_WIDTH_8 E_NOT_OK
]%string.

(** The loop of [RunAllTests] over the vectors from index [i] on. *)
Fixpoint run_from (ts : list TestVector_t) (i : Z) (passCount failCount : ptr Z)
  : option (ptr Z * ptr Z) :=
  match ts with
  | [] => Some (passCount, failCount)
  | t :: rest =>
      '(passCount, failCount) <-
        RunSingleTest (Ref (Some t)) (to_uint32 (i + 1)) passCount failCount ;;
      run_from rest (to_uint32 (i + 1)) passCount failCount
  end.

(** [RunAllTests]: the three numbers of its summary, total, passed and
    failed. *)
Definition RunAllTests : option (Z * Z * Z) :=
  let passCount := Ref (Some 0) in
  let failCount := Ref (Some 0) in
  let numTests := to_uint32 (Z.of_nat (length tests)) in
  '(passCount, failCount) <- run_from tests 0 passCount failCount ;;
  p <- deref passCount ;;
  f <- deref failCount ;;
  Some (numTests, p, f).

(** A test vector with another expected value and tolerance. *)
Definition with_expectation (t : TestVector_t) (expected' epsilon' : float) : TestVector_t :=
  {| a := a t; b := b t; expected := expected'; epsilon := epsilon';
     description := description t; op := op t; width := width t;
     expectedStatus := expectedStatus t |}.

End Harness.

(** ** What the specification says, in its own words *)

(** Clamp to a range. *)
Definition clamp (lo hi z : Z) : Z := Z.max lo (Z.min hi z).

(** Magnitude-domain rescaling of a product: absolute value, plus
    [1 << (f - 1)], shifted right by [f], sign restored. *)
Definition rescale_product (f p : Z) : Z :=
  Z.sgn p * Z.shiftr (Z.abs p + Z.shiftl 1 (f - 1)) f.

(** Magnitude-domain quotient: [|a| << f], plus half of [|b|], divided by
    [|b|], negative exactly when the operands have opposite signs. *)
Definition scaled_quotient (f a b : Z) : Z :=
  let q := (Z.shiftl (Z.abs a) f + Z.abs b / 2) / Z.abs b in
  if Bool.eqb (a <? 0) (b <? 0) then q else - q.

(** [q] is the rational [n / d] rounded to the nearest integer, a tie going
    to the neighbour of larger magnitude. *)
Definition nearest_ties_away (n d q : Z) : Prop :=
  0 <= q * (n * d) /\
  2 * Z.abs n - Z.abs d < 2 * Z.abs d * Z.abs q <= 2 * Z.abs n + Z.abs d.

(** ** Projections and vocabulary of the statements *)

(** Width of the integer that receives the rounded scaled value
    ([sint32 scaled_i] for 16 bit, [sint16 scaled_i] for 8 bit). *)
Definition scaled_bits (w : width) : Z :=
  match w with W8 => 16 | W16 => 32 end.

(** [scaled_i] as it stands just before the saturation check. *)
Definition rounded_scaled (w : width) (val : float) : option Z :=
  let scaled_f := f32_mul val (float_of_int (scale w)) in
  if f32_ge scaled_f (S754_zero false)
  then float_to_sint (scaled_bits w) (f32_add scaled_f (f32 1 (-1)))
  else float_to_sint (scaled_bits w) (f32_sub scaled_f (f32 1 (-1))).

Inductive operator : Type := OpAdd | OpSub | OpMult.

Definition Wrapper (w : width) (op : operator) :=
  match op with OpAdd => Add w | OpSub => Sub w | OpMult => Mult w end.

(** The core operation's result before its clamp. *)
Definition core_exact (w : width) (op : operator) (a b : Z) : Z :=
  match op with
  | OpAdd => a + b
  | OpSub => a - b
  | OpMult => rescale_product (fractionalBits w) (a * b)
  end.

Definition clamped (w : width) (z : Z) : bool :=
  negb (clamp (MIN w) (MAX w) z =? z).

Definition roundtrip_ok (w : width) (v : Z) : bool :=
  match FloatToFix w (FixToFloat w v) (Ref None) with
  | Some (st, Ref (Some v')) => (st =? E_OK) && (v' =? v)
  | _ => false
  end.

(** [f] holds on the [n] integers from [lo] upwards. *)
Fixpoint all_from (n : nat) (lo : Z) (f : Z -> bool) : bool :=
  match n with
  | O => true
  | S n' => f lo && all_from n' (lo + 1) f
  end.

(** The integer nearest to [m * 2^e], a tie going away from zero. *)
Definition round_half_away (m e : Z) : Z :=
  if 0 <=? e then m * 2 ^ e
  else Z.sgn m * ((Z.abs m + 2 ^ (- e - 1)) / 2 ^ (- e)).

(** What the specification asks of the converter's rounding step, on the
    exact value of the scaled input. *)
Definition nearest_scaled (w : width) (val : float) : option Z :=
  match val with
  | S754_zero _ => Some 0
  | S754_finite s m e =>
      Some (round_half_away (cond_Zopp s (Zpos m)) (e + fractionalBits w))
  | S754_infinity _ => None
  | S754_nan => None
  end.

(** The largest binary32 number below one half, divided by the scale. *)
Definition below_half_lsb (w : width) : float :=
  S754_finite false 16777215 (-25 - fractionalBits w).

(** [MAX_REAL] plus half a resolution step, and [MIN_REAL] minus half a
    resolution step: from there on the rounded scaled value leaves the
    container. *)
Definition saturates_from (w : width) : float :=
  f32 (2 * MAX w + 1) (-1 - fractionalBits w).

Definition saturates_down_from (w : width) : float :=
  f32 (2 * MIN w - 1) (-1 - fractionalBits w).

(** The open interval of inputs whose rounded scaled value fits the integer
    that receives it ([sint32] for 16 bit, [sint16] for 8 bit): outside it
    the float-to-integer conversion is undefined. *)
Definition defined_below (w : width) : float :=
  match w with
  | W16 => f32 1 23
  | W8 => f32 65535 (-5)
  end.

Definition defined_above (w : width) : float :=
  match w with
  | W16 => f32 (-8388609) 0
  | W8 => f32 (-65537) (-5)
  end.

(** ** Vocabulary of the further properties *)

(** [z] lies in the container range, as a test. *)
Definition in_range (w : width) (z : Z) : bool := (MIN w <=? z) && (z <=? MAX w).

(** The converter's rounding step on the scaled value: one half added to
    or subtracted from it, then the conversion to the integer type. *)
Definition round_step (bits : Z) (scaled_f : float) : option Z :=
  if f32_ge scaled_f (S754_zero false)
  then float_to_sint bits (f32_add scaled_f (f32 1 (-1)))
  else float_to_sint bits (f32_sub scaled_f (f32 1 (-1))).

Definition not_a_number_or_infinite (x : float) : bool :=
  match x with
  | S754_infinity _ => true
  | S754_nan => true
  | _ => false
  end.

(** The inputs on which the converter's float-to-integer conversion is
    defined: the binary32 numbers strictly between [defined_above] and
    [defined_below]. *)
Definition in_domain (w : width) (x : float) : Prop :=
  valid_binary 24 128 x = true /\
  SFltb (defined_above w) x = true /\ SFltb x (defined_below w) = true.

(** [z] is the exact value of [x * 2^fractionalBits] rounded to nearest,
    ties away from zero: the raw value [z] stands for a number within half
    a resolution step of [x]. *)
Definition within_half_step (w : width) (x : float) (z : Z) : Prop :=
  match x with
  | S754_zero _ => z = 0
  | S754_finite s m e =>
      e + fractionalBits w < 0 /\
      nearest_ties_away (cond_Zopp s (Z.pos m)) (2 ^ (- (e + fractionalBits w))) z
  | S754_infinity _ => False
  | S754_nan => False
  end.

(** [x] is exactly [n / 2^k]. *)
Definition is_dyadic (x : float) (n k : Z) : bool :=
  match x with
  | S754_zero _ => n =? 0
  | S754_finite s m e =>
      if 0 <=? e + k then cond_Zopp s (Z.pos m) * 2 ^ (e + k) =? n
      else cond_Zopp s (Z.pos m) =? n * 2 ^ (- (e + k))
  | S754_infinity _ => false
  | S754_nan => false
  end.

Definition exact_image (w : width) (v : Z) : bool :=
  valid_binary 24 128 (FixToFloat w v) && is_dyadic (FixToFloat w v) v (fractionalBits w).

(** Magnitude of the rounded scaled value of a finite input [m * 2^e]
    whose scaled magnitude is below [2^23]. *)
Definition rounded_magnitude (w : width) (m : positive) (e : Z) : Z :=
  if (Z.pos m =? 16777215) && (e =? -25 - fractionalBits w) then 1
  else (Z.pos m + 2 ^ (- (e + fractionalBits w) - 1)) / 2 ^ (- (e + fractionalBits w)).

(** ** Binary32 rounding: the arithmetic behind [SpecFloat]'s shifts *)

(** The record after [k] one-bit shifts of the exact mantissa [M]. *)
Definition shifted (M : Z) (k : nat) : shr_record :=
  match k with
  | O => {| shr_m := M; shr_r := false; shr_s := false |}
  | S k' =>
      {| shr_m := M / 2 ^ Z.of_nat k;
         shr_r := Z.odd (M / 2 ^ Z.of_nat k');
         shr_s := negb (M mod 2 ^ Z.of_nat k' =? 0) |}
  end.

(** Round-to-nearest-even of [M / 2^n], as [shr] and [round_nearest_even]
    compute it. *)
Definition rne (M n : Z) : Z :=
  round_nearest_even (M / 2 ^ n) (loc_of_shr_record (shifted M (Z.to_nat n))).

(** Integral part of the dyadic number [m * 2^e], for [0 <= m]. *)
Definition trunc_dyadic (m e : Z) : Z :=
  if 0 <=? e then m * 2 ^ e else m / 2 ^ (- e).

(** * Properties *)

(** [lia] is to reason about division and remainder by constants. *)
Ltac Zify.zify_post_hook ::= Z.div_mod_to_equations.

(** ** Integer conversions that do not change the value *)

Lemma wrap_signed_id (bits z : Z) :
  0 < bits -> - 2 ^ (bits - 1) <= z < 2 ^ (bits - 1) -> wrap_signed bits z = z.
Proof.
  intros Hb Hz. unfold wrap_signed.
  replace (2 ^ bits) with (2 * 2 ^ (bits - 1)).
  - rewrite Z.mod_small; lia.
  - rewrite <- Z.pow_succ_r by lia. f_equal. lia.
Qed.

Lemma to_sint8_id z : -128 <= z <= 127 -> to_sint8 z = z.
Proof. intros H. apply wrap_signed_id; simpl; lia. Qed.

Lemma to_sint16_id z : -32768 <= z <= 32767 -> to_sint16 z = z.
Proof. intros H. apply wrap_signed_id; simpl; lia. Qed.

Lemma to_sint32_id z : -2147483648 <= z <= 2147483647 -> to_sint32 z = z.
Proof. intros H. apply wrap_signed_id; simpl; lia. Qed.

Lemma to_sint64_id z :
  -9223372036854775808 <= z <= 9223372036854775807 -> to_sint64 z = z.
Proof. intros H. apply wrap_signed_id; simpl; lia. Qed.

Lemma to_uint32_id z : 0 <= z <= 4294967295 -> to_uint32 z = z.
Proof. intros H. unfold to_uint32, wrap_unsigned. apply Z.mod_small. simpl. lia. Qed.

Lemma to_uint64_id z : 0 <= z <= 18446744073709551615 -> to_uint64 z = z.
Proof. intros H. unfold to_uint64, wrap_unsigned. apply Z.mod_small. simpl. lia. Qed.

Ltac wrap_id :=
  repeat match goal with
    | |- context [to_sint64 ?z] => rewrite (to_sint64_id z) by lia
    | |- context [to_sint32 ?z] => rewrite (to_sint32_id z) by lia
    | |- context [to_sint16 ?z] => rewrite (to_sint16_id z) by lia
    | |- context [to_sint8 ?z] => rewrite (to_sint8_id z) by lia
    | |- context [to_uint64 ?z] => rewrite (to_uint64_id z) by lia
    | |- context [to_uint32 ?z] => rewrite (to_uint32_id z) by lia
    end.

Lemma FIX16_MAX_val : FIX16_MAX = 32767.
Proof. reflexivity. Qed.
Lemma FIX16_MIN_val : FIX16_MIN = -32768.
Proof. reflexivity. Qed.
Lemma FIX8_MAX_val : FIX8_MAX = 127.
Proof. reflexivity. Qed.
Lemma FIX8_MIN_val : FIX8_MIN = -128.
Proof. reflexivity. Qed.

(** ** Saturation *)

Lemma clamp_range lo hi z : lo <= hi -> lo <= clamp lo hi z <= hi.
Proof. unfold clamp. lia. Qed.

(** ** Rounding in the magnitude domain *)

Lemma rescale_product_nearest f p :
  0 < f -> nearest_ties_away p (2 ^ f) (rescale_product f p).
Proof.
  intros Hf. unfold nearest_ties_away, rescale_product.
  rewrite Z.shiftr_div_pow2, Z.shiftl_1_l by lia.
  assert (H2 : 2 ^ f = 2 * 2 ^ (f - 1)).
  { rewrite <- Z.pow_succ_r by lia. f_equal. lia. }
  assert (Hh : 0 < 2 ^ (f - 1)) by (apply Z.pow_pos_nonneg; lia).
  set (h := 2 ^ (f - 1)) in *. rewrite H2. clearbody h.
  pose proof (Z.div_mod (Z.abs p + h) (2 * h) ltac:(lia)) as Hdm.
  pose proof (Z.mod_pos_bound (Z.abs p + h) (2 * h) ltac:(lia)) as Hmb.
  set (q := (Z.abs p + h) / (2 * h)) in *.
  assert (Hq : 0 <= q) by (apply Z.div_pos; lia).
  replace (Z.abs (2 * h)) with (2 * h) by lia.
  destruct (Z.lt_trichotomy p 0) as [Hp|[Hp|Hp]].
  - rewrite (Z.sgn_neg p Hp). replace (Z.abs (-1 * q)) with q by lia.
    split; nia.
  - subst p. simpl Z.sgn. simpl Z.abs in *. rewrite Z.mul_0_l. simpl Z.abs.
    split; nia.
  - rewrite (Z.sgn_pos p Hp). replace (Z.abs (1 * q)) with q by lia.
    split; nia.
Qed.

Lemma saturate_status lo hi tmp :
  lo <= hi ->
  saturate lo hi tmp =
  (clamp lo hi tmp, if clamp lo hi tmp =? tmp then E_OK else E_NOT_OK).
Proof.
  intros Hle. unfold saturate, clamp.
  destruct (Z.gtb_spec tmp hi), (Z.ltb_spec tmp lo), (Z.eqb_spec (Z.max lo (Z.min hi tmp)) tmp);
    f_equal; lia.
Qed.

Lemma rescale_product_unfold f p :
  0 < f ->
  rescale_product f p =
  if p <? 0 then - ((- p + 2 ^ (f - 1)) / 2 ^ f) else (p + 2 ^ (f - 1)) / 2 ^ f.
Proof.
  intros Hf. unfold rescale_product.
  rewrite Z.shiftr_div_pow2, Z.shiftl_1_l by lia.
  destruct (Z.ltb_spec p 0) as [Hp|Hp].
  - rewrite (Z.sgn_neg p Hp), (Z.abs_neq p) by lia. lia.
  - destruct (Z.eq_dec p 0) as [->|Hnz].
    + simpl. rewrite Z.div_small; [reflexivity|].
      split; [apply Z.pow_nonneg; lia|apply Z.pow_lt_mono_r; lia].
    + rewrite (Z.sgn_pos p), (Z.abs_eq p) by lia. lia.
Qed.

Lemma Mult_Core_rescales (w : width) (a b : Z) (old : option Z) :
  in_container w a -> in_container w b ->
  let q := rescale_product (fractionalBits w) (a * b) in
  let stored := clamp (MIN w) (MAX w) q in
  Mult_Core w a b (Ref old) =
    (if stored =? q then E_OK else E_NOT_OK, Ref (Some stored)).
Proof.
  intros Ha Hb q stored.
  subst stored q. unfold in_container in *.
  destruct w; cbv [MIN MAX fractionalBits Mult_Core] in *;
    rewrite ?FIX16_MAX_val, ?FIX16_MIN_val, ?FIX8_MAX_val, ?FIX8_MIN_val in *.
  - (* 8 bit, product held in sint32 *)
    unfold FixedPoint_Mult8_Core.
    rewrite FIX8_MAX_val, FIX8_MIN_val.
    rewrite rescale_product_unfold by reflexivity.
    change SHIFT_8 with 4. change (0 <? 4) with true. cbv iota.
    change (Z.shiftl (to_sint32 1) (4 - 1)) with 8.
    change (2 ^ (4 - 1)) with 8.
    rewrite Z.shiftr_div_pow2 by lia. change (2 ^ 4) with 16.
    assert (Hp : -16256 <= a * b <= 16384) by nia.
    rewrite (to_sint32_id a), (to_sint32_id b) by lia.
    set (p := a * b) in *. clearbody p. wrap_id.
    destruct (Z.ltb_spec p 0) as [Hn|Hn]; wrap_id;
      rewrite saturate_status by lia;
      set (q := clamp _ _ _); assert (Hq : -128 <= q <= 127) by (apply clamp_range; lia);
      wrap_id; reflexivity.
  - (* 16 bit, product held in sint64 *)
    unfold FixedPoint_Mult16_Core.
    rewrite FIX16_MAX_val, FIX16_MIN_val.
    rewrite rescale_product_unfold by reflexivity.
    change SHIFT_16 with 8. change (0 <? 8) with true. cbv iota.
    change (Z.shiftl (to_sint64 1) (8 - 1)) with 128.
    change (2 ^ (8 - 1)) with 128.
    rewrite Z.shiftr_div_pow2 by lia. change (2 ^ 8) with 256.
    assert (Hp : -1073709056 <= a * b <= 1073741824) by nia.
    rewrite (to_sint64_id a), (to_sint64_id b) by lia.
    set (p := a * b) in *. clearbody p. wrap_id.
    destruct (Z.ltb_spec p 0) as [Hn|Hn]; wrap_id;
      rewrite saturate_status by lia;
      set (q := clamp _ _ _); assert (Hq : -32768 <= q <= 32767) by (apply clamp_range; lia);
      wrap_id; reflexivity.
Qed.

(** C4.  For raw operands of the container's range and a non-null result
    pointer, the core multiply stores the product [a * b] rescaled in the
    magnitude domain (absolute value, plus [1 << (fractionalBits - 1)],
    shifted right by [fractionalBits], sign restored) and clamped to
    [MIN, MAX]; the rescaled value is the product divided by
    [2 ^ fractionalBits] rounded to nearest with ties away from zero; the
    status is [E_NOT_OK] exactly when clamping changed the value. *)
Theorem mult_core_rounds_then_clamps (w : width) (a b : Z) (old : option Z) :
  in_container w a -> in_container w b ->
  let q := rescale_product (fractionalBits w) (a * b) in
  let stored := clamp (MIN w) (MAX w) q in
  Mult_Core w a b (Ref old) =
    (if stored =? q then E_OK else E_NOT_OK, Ref (Some stored))
  /\ nearest_ties_away (a * b) (2 ^ fractionalBits w) q.
Proof.
  intros Ha Hb q stored. split.
  - apply Mult_Core_rescales; assumption.
  - apply rescale_product_nearest. destruct w; reflexivity.
Qed.

Lemma mult_core_rounds_then_clamps_witness :
  in_container W16 (-384) /\ in_container W16 257 /\
  Mult_Core W16 (-384) 257 (Ref None) = (E_OK, Ref (Some (-386))).
Proof.
  pose proof (mult_core_rounds_then_clamps W16 (-384) 257 None) as H.
  assert (Ha : in_container W16 (-384)) by (unfold in_container; simpl; rewrite FIX16_MIN_val, FIX16_MAX_val; lia).
  assert (Hb : in_container W16 257) by (unfold in_container; simpl; rewrite FIX16_MIN_val, FIX16_MAX_val; lia).
  split; [exact Ha|split; [exact Hb|]].
  exact (proj1 (H Ha Hb)).
Defined.

(** ** Core divide *)

Lemma lxor_sign a b : (Z.lxor a b <? 0) = negb (Bool.eqb (a <? 0) (b <? 0)).
Proof.
  pose proof (Z.lxor_nonneg a b) as H.
  destruct (Z.ltb_spec (Z.lxor a b) 0), (Z.ltb_spec a 0), (Z.ltb_spec b 0);
    simpl; try reflexivity; exfalso; lia.
Qed.

Lemma abs_by_test a : (if a <? 0 then - a else a) = Z.abs a.
Proof. destruct (Z.ltb_spec a 0); lia. Qed.

Lemma quotient_bounds n d : 0 <= n -> 0 < d -> 0 <= n / d <= n.
Proof.
  intros Hn Hd. split.
  - apply Z.div_pos; lia.
  - apply Z.div_le_upper_bound; nia.
Qed.

Lemma scaled_quotient_nearest f a b :
  0 <= f -> b <> 0 -> nearest_ties_away (a * 2 ^ f) b (scaled_quotient f a b).
Proof.
  intros Hf Hb. unfold nearest_ties_away, scaled_quotient.
  rewrite Z.shiftl_mul_pow2 by lia.
  assert (Hs : 0 < 2 ^ f) by (apply Z.pow_pos_nonneg; lia).
  set (s := 2 ^ f) in *. clearbody s.
  assert (HD : 0 < Z.abs b) by lia.
  rewrite (Z.abs_mul a s), (Z.abs_eq s) by lia.
  set (N := Z.abs a * s).
  assert (HN : 0 <= N) by (subst N; nia).
  pose proof (Z.div_mod (N + Z.abs b / 2) (Z.abs b) ltac:(lia)) as Hdm.
  pose proof (Z.mod_pos_bound (N + Z.abs b / 2) (Z.abs b) HD) as Hmb.
  pose proof (Z.div_mod (Z.abs b) 2 ltac:(lia)) as Hh.
  pose proof (Z.mod_pos_bound (Z.abs b) 2 ltac:(lia)) as Hhb.
  assert (Hq : 0 <= (N + Z.abs b / 2) / Z.abs b).
  { apply Z.div_pos; [|lia]. assert (0 <= Z.abs b / 2) by (apply Z.div_pos; lia). lia. }
  set (h := Z.abs b / 2) in *. set (r := (N + h) mod Z.abs b) in *.
  set (q := (N + h) / Z.abs b) in *.
  set (r2 := Z.abs b mod 2) in *.
  assert (Habs : Z.abs (if Bool.eqb (a <? 0) (b <? 0) then q else - q) = q).
  { destruct (Bool.eqb _ _); lia. }
  rewrite Habs. split; [|nia].
  destruct (Z.ltb_spec a 0), (Z.ltb_spec b 0); simpl; nia.
Qed.

Lemma Div_Core_quotient (w : width) (a b : Z) (old : option Z) :
  in_container w a -> in_container w b -> b <> 0 ->
  let f := fractionalBits w in
  let q := scaled_quotient f a b in
  let stored := clamp (MIN w) (MAX w) q in
  Div_Core w a b (Ref old) =
    Some (if stored =? q then E_OK else E_NOT_OK, Ref (Some stored)).
Proof.
  intros Ha Hb Hnz f q stored.
  subst stored q f. unfold in_container, scaled_quotient in *.
  destruct w; cbv [MIN MAX fractionalBits Div_Core] in *;
    rewrite ?FIX16_MAX_val, ?FIX16_MIN_val, ?FIX8_MAX_val, ?FIX8_MIN_val in *.
  - (* 8 bit, magnitudes held in uint32 *)
    unfold FixedPoint_Div8_Core.
    rewrite FIX8_MAX_val, FIX8_MIN_val, lxor_sign.
    rewrite !Z.shiftl_mul_pow2, Z.shiftr_div_pow2 by discriminate.
    change (2 ^ SHIFT_8) with 16. change (2 ^ 1) with 2.
    rewrite (to_sint16_id a), (to_sint16_id b), (to_sint32_id a), (to_sint32_id b) by lia.
    rewrite (to_sint32_id (- a)), (to_sint32_id (- b)) by lia.
    rewrite !abs_by_test.
    rewrite (to_uint32_id (Z.abs a)), (to_uint32_id (Z.abs b)) by lia.
    rewrite (to_uint32_id (Z.abs a * 16)) by lia.
    rewrite (to_uint32_id (Z.abs a * 16 + Z.abs b / 2)) by lia.
    destruct (Z.eqb_spec (Z.abs b) 0) as [Hz|_]; [lia|].
    pose proof (quotient_bounds (Z.abs a * 16 + Z.abs b / 2) (Z.abs b) ltac:(lia) ltac:(lia)) as HQ.
    set (Q := (Z.abs a * 16 + Z.abs b / 2) / Z.abs b) in *. clearbody Q.
    rewrite (to_sint32_id Q) by lia.
    destruct (Bool.eqb (a <? 0) (b <? 0)); simpl negb; cbv iota; wrap_id;
      rewrite saturate_status by lia;
      set (q := clamp _ _ _); assert (Hq : -128 <= q <= 127) by (apply clamp_range; lia);
      wrap_id; reflexivity.
  - (* 16 bit, magnitudes held in uint64 *)
    unfold FixedPoint_Div16_Core.
    rewrite FIX16_MAX_val, FIX16_MIN_val, lxor_sign.
    rewrite !Z.shiftl_mul_pow2, Z.shiftr_div_pow2 by discriminate.
    change (2 ^ SHIFT_16) with 256. change (2 ^ 1) with 2.
    rewrite (to_sint32_id a), (to_sint32_id b), (to_sint64_id a), (to_sint64_id b) by lia.
    rewrite (to_sint64_id (- a)), (to_sint64_id (- b)) by lia.
    rewrite !abs_by_test.
    rewrite (to_uint64_id (Z.abs a)), (to_uint64_id (Z.abs b)) by lia.
    rewrite (to_uint64_id (Z.abs a * 256)) by lia.
    rewrite (to_uint64_id (Z.abs a * 256 + Z.abs b / 2)) by lia.
    destruct (Z.eqb_spec (Z.abs b) 0) as [Hz|_]; [lia|].
    pose proof (quotient_bounds (Z.abs a * 256 + Z.abs b / 2) (Z.abs b) ltac:(lia) ltac:(lia)) as HQ.
    set (Q := (Z.abs a * 256 + Z.abs b / 2) / Z.abs b) in *. clearbody Q.
    rewrite (to_sint64_id Q) by lia.
    destruct (Bool.eqb (a <? 0) (b <? 0)); simpl negb; cbv iota; wrap_id;
      rewrite saturate_status by lia;
      set (q := clamp _ _ _); assert (Hq : -32768 <= q <= 32767) by (apply clamp_range; lia);
      wrap_id; reflexivity.
Qed.

Lemma Div_numerator_fits (w : width) (a b : Z) :
  in_container w a -> in_container w b ->
  0 <= Z.shiftl (Z.abs a) (fractionalBits w) + Z.abs b / 2 < 2 ^ 32.
Proof.
  intros Ha Hb. unfold in_container in *.
  destruct w; cbv [MIN MAX fractionalBits] in *;
    rewrite ?FIX16_MAX_val, ?FIX16_MIN_val, ?FIX8_MAX_val, ?FIX8_MIN_val in *;
    rewrite Z.shiftl_mul_pow2 by discriminate;
    [change (2 ^ SHIFT_8) with 16|change (2 ^ SHIFT_16) with 256];
    change (2 ^ 32) with 4294967296; lia.
Qed.

(** C5.  For raw operands of the container's range with [b <> 0] and a
    non-null result pointer, the core divide stores the magnitude-domain
    quotient ([|a| << fractionalBits], plus half of [|b|], divided by [|b|],
    negative exactly when the operands have opposite signs) clamped to
    [MIN, MAX], with status [E_NOT_OK] exactly when clamping changed the
    value; the shifted and biased magnitude stays below [2 ^ 32], so it
    overflows neither the 32-bit nor the 64-bit unsigned intermediate; the
    quotient is [a * 2 ^ fractionalBits / b] rounded to nearest, ties away
    from zero. *)
Theorem div_core_quotient_then_clamps (w : width) (a b : Z) (old : option Z) :
  in_container w a -> in_container w b -> b <> 0 ->
  let f := fractionalBits w in
  let q := scaled_quotient f a b in
  let stored := clamp (MIN w) (MAX w) q in
  Div_Core w a b (Ref old) =
    Some (if stored =? q then E_OK else E_NOT_OK, Ref (Some stored))
  /\ 0 <= Z.shiftl (Z.abs a) f + Z.abs b / 2 < 2 ^ 32
  /\ nearest_ties_away (a * 2 ^ f) b q.
Proof.
  intros Ha Hb Hnz f q stored.
  split; [|split].
  - apply Div_Core_quotient; assumption.
  - apply Div_numerator_fits; assumption.
  - apply scaled_quotient_nearest; [destruct w; discriminate|exact Hnz].
Qed.

Lemma div_core_quotient_then_clamps_witness :
  in_container W8 (-80) /\ in_container W8 32 /\ 32 <> 0 /\
  Div_Core W8 (-80) 32 (Ref None) = Some (E_OK, Ref (Some (-40))).
Proof.
  assert (Ha : in_container W8 (-80))
    by (unfold in_container; simpl; rewrite FIX8_MIN_val, FIX8_MAX_val; lia).
  assert (Hb : in_container W8 32)
    by (unfold in_container; simpl; rewrite FIX8_MIN_val, FIX8_MAX_val; lia).
  assert (Hnz : 32 <> 0) by discriminate.
  split; [exact Ha|split; [exact Hb|split; [exact Hnz|]]].
  exact (proj1 (div_core_quotient_then_clamps W8 (-80) 32 None Ha Hb Hnz)).
Defined.

(** ** Core add and subtract *)

Lemma add_core_sum_then_clamps (w : width) (a b : Z) (old : option Z) :
  in_container w a -> in_container w b ->
  let stored := clamp (MIN w) (MAX w) (a + b) in
  Add_Core w a b (Ref old) =
    (if stored =? a + b then E_OK else E_NOT_OK, Ref (Some stored)).
Proof.
  intros Ha Hb stored. subst stored. unfold in_container in *.
  destruct w; cbv [MIN MAX Add_Core] in *;
    rewrite ?FIX16_MAX_val, ?FIX16_MIN_val, ?FIX8_MAX_val, ?FIX8_MIN_val in *.
  - unfold FixedPoint_Add8_Core. rewrite FIX8_MAX_val, FIX8_MIN_val. wrap_id.
    rewrite saturate_status by lia.
    set (q := clamp _ _ _); assert (Hq : -128 <= q <= 127) by (apply clamp_range; lia).
    wrap_id. reflexivity.
  - unfold FixedPoint_Add16_Core. rewrite FIX16_MAX_val, FIX16_MIN_val. wrap_id.
    rewrite saturate_status by lia.
    set (q := clamp _ _ _); assert (Hq : -32768 <= q <= 32767) by (apply clamp_range; lia).
    wrap_id. reflexivity.
Qed.

Lemma sub_core_difference_then_clamps (w : width) (a b : Z) (old : option Z) :
  in_container w a -> in_container w b ->
  let stored := clamp (MIN w) (MAX w) (a - b) in
  Sub_Core w a b (Ref old) =
    (if stored =? a - b then E_OK else E_NOT_OK, Ref (Some stored)).
Proof.
  intros Ha Hb stored. subst stored. unfold in_container in *.
  destruct w; cbv [MIN MAX Sub_Core] in *;
    rewrite ?FIX16_MAX_val, ?FIX16_MIN_val, ?FIX8_MAX_val, ?FIX8_MIN_val in *.
  - unfold FixedPoint_Sub8_Core. rewrite FIX8_MAX_val, FIX8_MIN_val. wrap_id.
    rewrite saturate_status by lia.
    set (q := clamp _ _ _); assert (Hq : -128 <= q <= 127) by (apply clamp_range; lia).
    wrap_id. reflexivity.
  - unfold FixedPoint_Sub16_Core. rewrite FIX16_MAX_val, FIX16_MIN_val. wrap_id.
    rewrite saturate_status by lia.
    set (q := clamp _ _ _); assert (Hq : -32768 <= q <= 32767) by (apply clamp_range; lia).
    wrap_id. reflexivity.
Qed.

(** ** The converter, split at its range check *)

Lemma MIN_le_MAX w : MIN w <= MAX w.
Proof. destruct w; discriminate. Qed.

Lemma in_container_clamp w z : in_container w (clamp (MIN w) (MAX w) z).
Proof. apply clamp_range, MIN_le_MAX. Qed.

Lemma to_container_id (w : width) z :
  in_container w z ->
  match w with W8 => to_sint8 z | W16 => to_sint16 z end = z.
Proof.
  unfold in_container. destruct w; cbv [MIN MAX];
    rewrite ?FIX16_MAX_val, ?FIX16_MIN_val, ?FIX8_MAX_val, ?FIX8_MIN_val;
    intros H; wrap_id; reflexivity.
Qed.

Lemma FloatToFix_rounded (w : width) (val : float) (old : option Z) :
  FloatToFix w val (Ref old) =
  scaled_i <- rounded_scaled w val ;;
  let stored := clamp (MIN w) (MAX w) scaled_i in
  Some (if stored =? scaled_i then E_OK else E_NOT_OK, Ref (Some stored)).
Proof.
  pose proof (in_container_clamp w) as Hc.
  pose proof (to_container_id w) as Hid.
  destruct w; cbv [FloatToFix];
    [unfold FixedPoint_FloatToFix8|unfold FixedPoint_FloatToFix16];
    unfold rounded_scaled; cbv [scale scaled_bits];
    match goal with |- bind ?c _ = bind ?c _ => destruct c as [z|]; [|reflexivity] end;
    cbv [bind]; cbv [MIN MAX] in *.
  - change (to_sint16 FIX8_MIN) with FIX8_MIN. change (to_sint16 FIX8_MAX) with FIX8_MAX.
    rewrite saturate_status by discriminate. rewrite Hid by apply Hc. reflexivity.
  - change (to_sint32 FIX16_MIN) with FIX16_MIN. change (to_sint32 FIX16_MAX) with FIX16_MAX.
    rewrite saturate_status by discriminate. rewrite Hid by apply Hc. reflexivity.
Qed.

Lemma FloatToFix_null (w : width) (val : float) :
  FloatToFix w val NULL = Some (E_NOT_OK, NULL).
Proof. destruct w; reflexivity. Qed.

(** ** The public operations, unfolded *)

Lemma Wrapper_unfold (w : width) (op : operator) (val1 val2 : float) (old : option float) :
  Wrapper w op val1 val2 (Ref old) =
  '(conv1, pa) <- FloatToFix w val1 (Ref None) ;;
  '(conv2, pb) <- FloatToFix w val2 (Ref None) ;;
  a <- deref pa ;;
  b <- deref pb ;;
  let '(core, pr) :=
    match op with
    | OpAdd => Add_Core w a b (Ref (Some 0))
    | OpSub => Sub_Core w a b (Ref (Some 0))
    | OpMult => Mult_Core w a b (Ref (Some 0))
    end in
  rFixed <- deref pr ;;
  Some (all_ok conv1 conv2 core, Ref (Some (FixToFloat w rFixed))).
Proof. destruct w, op; reflexivity. Qed.

Lemma core_exact_then_clamps (w : width) (op : operator) (a b : Z) (old : option Z) :
  in_container w a -> in_container w b ->
  match op with
  | OpAdd => Add_Core w a b (Ref old)
  | OpSub => Sub_Core w a b (Ref old)
  | OpMult => Mult_Core w a b (Ref old)
  end =
  (if clamped w (core_exact w op a b) then E_NOT_OK else E_OK,
   Ref (Some (clamp (MIN w) (MAX w) (core_exact w op a b)))).
Proof.
  intros Ha Hb. unfold clamped.
  destruct op; cbv [core_exact].
  - rewrite add_core_sum_then_clamps by assumption. cbv zeta.
    destruct (_ =? _); reflexivity.
  - rewrite sub_core_difference_then_clamps by assumption. cbv zeta.
    destruct (_ =? _); reflexivity.
  - rewrite (Mult_Core_rescales w a b old Ha Hb). cbv zeta.
    destruct (_ =? _); reflexivity.
Qed.

Lemma Div_unfold (w : width) (val1 val2 : float) (old : option float) :
  Div w val1 val2 (Ref old) =
  '(conv2, pb) <- FloatToFix w val2 (Ref None) ;;
  b <- deref pb ;;
  if negb (b =? 0) then
    '(conv1, pa) <- FloatToFix w val1 (Ref None) ;;
    a <- deref pa ;;
    '(core, pr) <- Div_Core w a b (Ref (Some 0)) ;;
    rFixed <- deref pr ;;
    Some (all_ok conv1 conv2 core, Ref (Some (FixToFloat w rFixed)))
  else
    Some (E_NOT_OK, Ref old).
Proof. destruct w; reflexivity. Qed.

(** ** C1: every stored raw value is in the container range *)

Lemma saturate_stored lo hi tmp v ret :
  lo <= hi -> saturate lo hi tmp = (v, ret) -> lo <= v <= hi.
Proof.
  intros Hle. rewrite saturate_status by exact Hle.
  intros H. injection H as <- _. apply clamp_range, Hle.
Qed.

Ltac stored_in_range :=
  match goal with
  | H : (let '(tmp, ret) := saturate ?lo ?hi ?x in _) = _ |- _ =>
      let v := fresh "v" in let ret := fresh "ret" in
      let Hs := fresh "Hs" in
      destruct (saturate lo hi x) as [v ret] eqn:Hs;
      apply saturate_stored in Hs; [|discriminate];
      change lo with (-32768) in Hs || change lo with (-128) in Hs;
      change hi with 32767 in Hs || change hi with 127 in Hs;
      inversion H; subst;
      match goal with Hd : deref _ = Some _ |- _ => simpl in Hd; injection Hd as <- end;
      unfold in_container; cbv [MIN MAX];
      rewrite ?FIX16_MAX_val, ?FIX16_MIN_val, ?FIX8_MAX_val, ?FIX8_MIN_val;
      wrap_id; lia
  end.

Lemma converter_core_store_in_container (w : width) (val : float) (a b : Z)
    (p p' : ptr Z) (st : Std_ReturnType) (raw : Z) :
  FloatToFix w val p = Some (st, p') \/
  Add_Core w a b p = (st, p') \/
  Sub_Core w a b p = (st, p') \/
  Mult_Core w a b p = (st, p') \/
  Div_Core w a b p = Some (st, p') ->
  deref p' = Some raw ->
  in_container w raw.
Proof.
  intros H Hd.
  destruct p as [|old].
  - (* nothing is stored through a null pointer *)
    rewrite FloatToFix_null in H.
    assert (p' = NULL) as ->; [|discriminate].
    destruct w; simpl in H; destruct H as [H|[H|[H|[H|H]]]]; inversion H; reflexivity.
  - destruct H as [H|[H|[H|[H|H]]]].
    + rewrite FloatToFix_rounded in H.
      destruct (rounded_scaled w val) as [z|]; [|discriminate].
      simpl in H. injection H as _ <-. simpl in Hd. injection Hd as <-.
      apply in_container_clamp.
    + destruct w; cbv [Add_Core FixedPoint_Add8_Core FixedPoint_Add16_Core] in H;
        stored_in_range.
    + destruct w; cbv [Sub_Core FixedPoint_Sub8_Core FixedPoint_Sub16_Core] in H;
        stored_in_range.
    + destruct w; cbv [Mult_Core FixedPoint_Mult8_Core FixedPoint_Mult16_Core] in H;
        stored_in_range.
    + destruct w; cbv [Div_Core FixedPoint_Div8_Core FixedPoint_Div16_Core] in H;
        match type of H with (if ?c then _ else _) = _ => destruct c; [discriminate|] end;
        stored_in_range.
Qed.

(** What a public operation leaves in its output slot: the slot as it was
    (a division by zero), or the float image of a raw value of the
    container. *)
Lemma wrapper_writes_container_value (w : width) (val1 val2 : float)
    (old : option float) (st : Std_ReturnType) (r' : ptr float) :
  Add w val1 val2 (Ref old) = Some (st, r') \/
  Sub w val1 val2 (Ref old) = Some (st, r') \/
  Mult w val1 val2 (Ref old) = Some (st, r') \/
  Div w val1 val2 (Ref old) = Some (st, r') ->
  r' = Ref old \/
  exists raw, in_container w raw /\ r' = Ref (Some (FixToFloat w raw)).
Proof.
  intros H.
  assert (Hop : forall op, Wrapper w op val1 val2 (Ref old) = Some (st, r') ->
                exists raw, in_container w raw /\ r' = Ref (Some (FixToFloat w raw))).
  { intros op Hw. rewrite Wrapper_unfold, !FloatToFix_rounded in Hw.
    destruct (rounded_scaled w val1) as [z1|]; [|discriminate].
    destruct (rounded_scaled w val2) as [z2|]; [|discriminate].
    cbv [bind deref] in Hw. cbv zeta in Hw.
    rewrite core_exact_then_clamps in Hw by apply in_container_clamp.
    injection Hw as _ <-. eexists. split; [apply in_container_clamp|reflexivity]. }
  destruct H as [H|[H|[H|H]]];
    [right; exact (Hop OpAdd H)|right; exact (Hop OpSub H)|right; exact (Hop OpMult H)|].
  rewrite Div_unfold, FloatToFix_rounded in H.
  destruct (rounded_scaled w val2) as [z2|]; [|discriminate].
  cbv [bind deref] in H. cbv zeta in H.
  destruct (Z.eqb_spec (clamp (MIN w) (MAX w) z2) 0) as [Hz|Hnz]; simpl negb in H; cbv iota in H.
  - injection H as _ <-. left; reflexivity.
  - rewrite FloatToFix_rounded in H.
    destruct (rounded_scaled w val1) as [z1|]; [|discriminate].
    cbv [bind] in H. cbv zeta in H.
    rewrite Div_Core_quotient in H by (apply in_container_clamp || exact Hnz).
    cbv zeta in H. injection H as _ <-.
    right. eexists. split; [apply in_container_clamp|reflexivity].
Qed.

(** C1.  Whatever a float-to-fixed converter or a core operation stores
    through its output pointer lies in the container range, [-32768, 32767]
    for the 16-bit width and [-128, 127] for the 8-bit width: this holds for
    every float input of a converter and for every pair of operands of a
    core operation, hence for every such call made by one of the eight
    public operations; and what a public operation leaves in a non-null
    output slot is the float image of a raw value of that range (or the
    slot's previous content, after a division by zero). *)
Theorem stored_raw_in_container (w : width) (val : float) (a b : Z)
    (p p' : ptr Z) (st : Std_ReturnType) (raw : Z) :
  FloatToFix w val p = Some (st, p') \/
  Add_Core w a b p = (st, p') \/
  Sub_Core w a b p = (st, p') \/
  Mult_Core w a b p = (st, p') \/
  Div_Core w a b p = Some (st, p') ->
  deref p' = Some raw ->
  in_container w raw /\
  forall (val1 val2 : float) (old : option float) (st' : Std_ReturnType) (r' : ptr float),
    Add w val1 val2 (Ref old) = Some (st', r') \/
    Sub w val1 val2 (Ref old) = Some (st', r') \/
    Mult w val1 val2 (Ref old) = Some (st', r') \/
    Div w val1 val2 (Ref old) = Some (st', r') ->
    r' = Ref old \/
    exists raw', in_container w raw' /\ r' = Ref (Some (FixToFloat w raw')).
Proof.
  intros H Hd. split.
  - exact (converter_core_store_in_container w val a b p p' st raw H Hd).
  - intros val1 val2 old st' r'. apply wrapper_writes_container_value.
Qed.

Lemma stored_raw_in_container_witness :
  FloatToFix W16 (f32 1 0) (Ref None) = Some (E_OK, Ref (Some 256)) /\
  in_container W16 256.
Proof.
  assert (H : FloatToFix W16 (f32 1 0) (Ref None) = Some (E_OK, Ref (Some 256)))
    by (vm_compute; reflexivity).
  split; [exact H|].
  exact (proj1 (stored_raw_in_container W16 (f32 1 0) 0 0 (Ref None) (Ref (Some 256))
                  E_OK 256 (or_introl H) eq_refl)).
Defined.

(** ** C6: status aggregation in the Add, Sub and Mult wrappers *)

(** C6.  A public Add, Sub or Mult wrapper called with a non-null output
    slot converts both operands, runs the core operation and writes the
    converted-back result to the slot; its status is [E_NOT_OK] exactly when
    the first conversion, the second conversion or the core operation
    clamped, and [E_OK] otherwise.  (The call is undefined exactly when one
    of the two float-to-integer conversions is.) *)
Theorem wrapper_status_iff_clamped (w : width) (op : operator)
    (val1 val2 : float) (old : option float) :
  Wrapper w op val1 val2 (Ref old) =
  z1 <- rounded_scaled w val1 ;;
  z2 <- rounded_scaled w val2 ;;
  let a := clamp (MIN w) (MAX w) z1 in
  let b := clamp (MIN w) (MAX w) z2 in
  let r := core_exact w op a b in
  Some (if clamped w z1 || clamped w z2 || clamped w r then E_NOT_OK else E_OK,
        Ref (Some (FixToFloat w (clamp (MIN w) (MAX w) r)))).
Proof.
  rewrite Wrapper_unfold, !FloatToFix_rounded.
  destruct (rounded_scaled w val1) as [z1|]; [|reflexivity].
  destruct (rounded_scaled w val2) as [z2|]; [|reflexivity].
  cbv [bind deref]. cbv zeta.
  rewrite core_exact_then_clamps by apply in_container_clamp.
  unfold clamped, all_ok.
  repeat match goal with |- context [clamp ?lo ?hi ?x =? ?y] =>
    destruct (Z.eqb (clamp lo hi x) y) end; reflexivity.
Qed.

(** ** C7: a divisor that converts to raw zero *)

Lemma Div_zero_divisor (w : width) (val1 val2 : float) (old : option float)
    (conv2 : Std_ReturnType) (b : Z) :
  FloatToFix w val2 (Ref None) = Some (conv2, Ref (Some b)) -> b = 0 ->
  Div w val1 val2 (Ref old) = Some (E_NOT_OK, Ref old).
Proof.
  intros H ->. rewrite Div_unfold, H. reflexivity.
Qed.

(** C7.  When the divisor's converted fixed-point representation is raw
    zero, whether the divisor is a zero or a nonzero float that rounds to
    zero, a public Div wrapper called with a non-null output slot returns
    [E_NOT_OK] and leaves the slot as it was; the dividend is not converted
    and the core division is not run, so the outcome is the same for every
    dividend. *)
Theorem div_by_zero_leaves_slot (w : width) (val1 val2 : float)
    (old : option float) (conv2 : Std_ReturnType) :
  FloatToFix w val2 (Ref None) = Some (conv2, Ref (Some 0)) ->
  Div w val1 val2 (Ref old) = Some (E_NOT_OK, Ref old).
Proof.
  intros H. exact (Div_zero_divisor w val1 val2 old conv2 0 H eq_refl).
Qed.

Lemma div_by_zero_leaves_slot_witness :
  FloatToFix W16 (f32 1 (-12)) (Ref None) = Some (E_OK, Ref (Some 0)) /\
  Div W16 (f32 5 0) (f32 1 (-12)) (Ref (Some (f32 77 0))) =
    Some (E_NOT_OK, Ref (Some (f32 77 0))).
Proof.
  assert (H : FloatToFix W16 (f32 1 (-12)) (Ref None) = Some (E_OK, Ref (Some 0)))
    by (vm_compute; reflexivity).
  split; [exact H|].
  exact (div_by_zero_leaves_slot W16 (f32 5 0) (f32 1 (-12)) (Some (f32 77 0)) E_OK H).
Defined.

(** ** C10: operand order in Add and Mult *)

Lemma all_ok_comm conv1 conv2 core : all_ok conv1 conv2 core = all_ok conv2 conv1 core.
Proof. unfold all_ok. rewrite (andb_comm (conv1 =? E_OK)). reflexivity. Qed.

Lemma Add_Core_comm w a b p : Add_Core w a b p = Add_Core w b a p.
Proof.
  destruct w, p; cbv [Add_Core FixedPoint_Add8_Core FixedPoint_Add16_Core];
    rewrite 1?(Z.add_comm (to_sint16 a)), 1?(Z.add_comm (to_sint32 a)); reflexivity.
Qed.

Lemma Mult_Core_comm w a b p : Mult_Core w a b p = Mult_Core w b a p.
Proof.
  destruct w, p; cbv [Mult_Core FixedPoint_Mult8_Core FixedPoint_Mult16_Core];
    rewrite 1?(Z.mul_comm (to_sint32 a)), 1?(Z.mul_comm (to_sint64 a)); reflexivity.
Qed.

(** C10.  Swapping the two float operands of a public Add or Mult wrapper
    changes neither the returned status nor the value written to the output
    slot, for both widths and every output pointer. *)
Theorem add_mult_commute (w : width) (x y : float) (r : ptr float) :
  Add w x y r = Add w y x r /\ Mult w x y r = Mult w y x r.
Proof.
  destruct r as [|old].
  - destruct w; split; reflexivity.
  - change (Add w) with (Wrapper w OpAdd). change (Mult w) with (Wrapper w OpMult).
    rewrite !Wrapper_unfold.
    destruct (FloatToFix w x (Ref None)) as [[c1 pa]|],
             (FloatToFix w y (Ref None)) as [[c2 pb]|]; cbv [bind]; try (split; reflexivity).
    destruct (deref pa) as [a|], (deref pb) as [b|]; try (split; reflexivity).
    rewrite (Add_Core_comm w a b), (Mult_Core_comm w a b).
    split;
      [destruct (Add_Core w b a (Ref (Some 0))) as [core pr]
      |destruct (Mult_Core w b a (Ref (Some 0))) as [core pr]];
      rewrite (all_ok_comm c1 c2 core); reflexivity.
Qed.

(** ** C9: fixed to float and back *)

Lemma all_from_spec (f : Z -> bool) (n : nat) (lo v : Z) :
  all_from n lo f = true -> lo <= v < lo + Z.of_nat n -> f v = true.
Proof.
  revert lo. induction n as [|n IH]; intros lo Hall Hv.
  - simpl in Hv. lia.
  - simpl in Hall. apply andb_prop in Hall. destruct Hall as [Hlo Hrest].
    destruct (Z.eq_dec v lo) as [->|Hne]; [exact Hlo|].
    apply (IH (lo + 1) Hrest). lia.
Qed.

Lemma roundtrip_checked (w : width) :
  all_from (Z.to_nat (MAX w - MIN w + 1)) (MIN w) (roundtrip_ok w) = true.
Proof. destruct w; vm_compute; reflexivity. Qed.

Lemma FloatToFix_any_cell (w : width) (val : float) (old : option Z) :
  FloatToFix w val (Ref old) = FloatToFix w val (Ref None).
Proof. destruct w; reflexivity. Qed.

(** C9.  For every raw value [v] of the container range, converting [v] to
    float and back stores exactly [v] and returns [E_OK]: nothing is lost
    and no saturation is reported, for both widths. *)
Theorem fix_float_fix_roundtrip (w : width) (v : Z) (old : option Z) :
  in_container w v ->
  FloatToFix w (FixToFloat w v) (Ref old) = Some (E_OK, Ref (Some v)).
Proof.
  intros Hv. rewrite FloatToFix_any_cell.
  assert (Hall : roundtrip_ok w v = true).
  { apply (all_from_spec _ _ _ _ (roundtrip_checked w)).
    destruct Hv as [Hlo Hhi]. rewrite Z2Nat.id; [lia|destruct w; discriminate]. }
  unfold roundtrip_ok in Hall.
  destruct (FloatToFix w (FixToFloat w v) (Ref None)) as [[st [|[v'|]]]|];
    try discriminate.
  apply andb_prop in Hall. destruct Hall as [Hst Hv'].
  apply Z.eqb_eq in Hst, Hv'. subst. reflexivity.
Qed.

Lemma fix_float_fix_roundtrip_witness :
  in_container W16 (-32768) /\
  FloatToFix W16 (FixToFloat W16 (-32768)) (Ref None) = Some (E_OK, Ref (Some (-32768))).
Proof.
  assert (H : in_container W16 (-32768)) by (split; discriminate).
  split; [exact H|].
  exact (fix_float_fix_roundtrip W16 (-32768) None H).
Defined.

(** ** C8: the status of a division by zero *)

Lemma all_ok_two_valued conv1 conv2 core :
  all_ok conv1 conv2 core = E_OK \/ all_ok conv1 conv2 core = E_NOT_OK.
Proof. unfold all_ok. destruct (_ && _); [left|right]; reflexivity. Qed.

(** C8, as the code has it.  A public Div wrapper returns one of the two
    values of [Std_ReturnType], [E_OK] or [E_NOT_OK], and nothing else; a
    division by zero is reported with [E_NOT_OK], the value that also
    reports a saturation, and is told apart only by the output slot, which
    it leaves as it was. *)
Theorem div_status_two_valued (w : width) (val1 val2 : float) (r r' : ptr float)
    (st : Std_ReturnType) :
  Div w val1 val2 r = Some (st, r') ->
  (st = E_OK \/ st = E_NOT_OK) /\
  (forall conv2, FloatToFix w val2 (Ref None) = Some (conv2, Ref (Some 0)) ->
     st = E_NOT_OK /\ r' = r).
Proof.
  intros H. destruct r as [|old].
  - assert (Hn : Div w val1 val2 NULL = Some (E_NOT_OK, NULL)) by (destruct w; reflexivity).
    rewrite Hn in H. injection H as <- <-. split; [right; reflexivity|].
    intros; split; reflexivity.
  - split.
    + rewrite Div_unfold in H.
      destruct (FloatToFix w val2 (Ref None)) as [[c2 pb]|]; [|discriminate].
      cbv [bind] in H. destruct (deref pb) as [b|]; [|discriminate].
      destruct (negb (b =? 0)).
      * destruct (FloatToFix w val1 (Ref None)) as [[c1 pa]|]; [|discriminate].
        destruct (deref pa) as [a|]; [|discriminate].
        destruct (Div_Core w a b (Ref (Some 0))) as [[core pr]|]; [|discriminate].
        destruct (deref pr) as [rFixed|]; [|discriminate].
        injection H as <- _. apply all_ok_two_valued.
      * injection H as <- _. right; reflexivity.
    + intros conv2 Hz.
      rewrite (Div_zero_divisor w val1 val2 old conv2 0 Hz eq_refl) in H.
      injection H as <- <-. split; reflexivity.
Qed.

Lemma div_status_two_valued_witness :
  Div W8 (f32 5 0) (f32 0 0) (Ref (Some (f32 77 0))) =
    Some (E_NOT_OK, Ref (Some (f32 77 0))) /\
  (E_NOT_OK = E_OK \/ E_NOT_OK = E_NOT_OK).
Proof.
  assert (H : Div W8 (f32 5 0) (f32 0 0) (Ref (Some (f32 77 0))) =
              Some (E_NOT_OK, Ref (Some (f32 77 0)))) by (vm_compute; reflexivity).
  split; [exact H|].
  exact (proj1 (div_status_two_valued W8 (f32 5 0) (f32 0 0) _ _ E_NOT_OK H)).
Defined.

(** C8, as stated, fails: the 8-bit division of 5.0 by 0.0 (a division by
    zero, slot untouched) and of 7.0 by 0.5 (a saturation, slot overwritten
    with the largest representable value) return the same status. *)
Lemma div_by_zero_status_is_saturation_status :
  let sentinel := f32 77 0 in
  Div W8 (f32 5 0) (f32 0 0) (Ref (Some sentinel)) =
    Some (E_NOT_OK, Ref (Some sentinel)) /\
  Div W8 (f32 7 0) (f32 1 (-1)) (Ref (Some sentinel)) =
    Some (E_NOT_OK, Ref (Some (FixToFloat W8 (MAX W8)))) /\
  ~ (forall st_zero st_sat r1 r2,
       Div W8 (f32 5 0) (f32 0 0) (Ref (Some sentinel)) = Some (st_zero, r1) ->
       Div W8 (f32 7 0) (f32 1 (-1)) (Ref (Some sentinel)) = Some (st_sat, r2) ->
       st_zero <> st_sat).
Proof.
  cbv zeta.
  assert (H1 : Div W8 (f32 5 0) (f32 0 0) (Ref (Some (f32 77 0))) =
               Some (E_NOT_OK, Ref (Some (f32 77 0)))) by (vm_compute; reflexivity).
  assert (H2 : Div W8 (f32 7 0) (f32 1 (-1)) (Ref (Some (f32 77 0))) =
               Some (E_NOT_OK, Ref (Some (FixToFloat W8 (MAX W8))))) by (vm_compute; reflexivity).
  split; [exact H1|split; [exact H2|]].
  intros Hdistinct. exact (Hdistinct _ _ _ _ H1 H2 eq_refl).
Qed.

(** ** C2: rounding in the converter *)

(** C2, the tie cases: [+0.5] times the resolution converts to raw [+1]
    and [-0.5] times the resolution to raw [-1], both with [E_OK]. *)
Lemma half_lsb_rounds_away (w : width) :
  FloatToFix w (f32 1 (-1 - fractionalBits w)) (Ref None) = Some (E_OK, Ref (Some 1)) /\
  FloatToFix w (f32 (-1) (-1 - fractionalBits w)) (Ref None) = Some (E_OK, Ref (Some (-1))).
Proof. destruct w; split; vm_compute; reflexivity. Qed.

(** C2 at its failing input.  The binary32 number just below half a
    resolution step has a scaled value of [0.5 - 2^-25], whose nearest
    integer is 0; the converter adds [0.5f] in binary32, which rounds the
    sum up to [1.0f], and stores raw 1. *)
Theorem just_below_half_lsb_rounds_up (w : width) :
  valid_binary 24 128 (below_half_lsb w) = true /\
  f32_mul (below_half_lsb w) (float_of_int (scale w)) = S754_finite false 16777215 (-25) /\
  nearest_scaled w (below_half_lsb w) = Some 0 /\
  rounded_scaled w (below_half_lsb w) = Some 1 /\
  FloatToFix w (below_half_lsb w) (Ref None) = Some (E_OK, Ref (Some 1)).
Proof. destruct w; repeat split; vm_compute; reflexivity. Qed.

(** ** Binary32 rounding, from [SpecFloat]'s definitions *)

Lemma digits2_pos_size (p : positive) : digits2_pos p = Pos.size p.
Proof. induction p as [p IH|p IH|]; simpl; rewrite ?IH; reflexivity. Qed.

Lemma Zdigits2_unique (M d : Z) :
  2 ^ (d - 1) <= M < 2 ^ d -> 0 < M -> Zdigits2 M = d.
Proof.
  intros HM Hpos. destruct M as [|p|p]; try lia.
  simpl. rewrite digits2_pos_size.
  pose proof (Pos.size_gt p) as Hgt. pose proof (Pos.size_le p) as Hle.
  apply Pos2Z.pos_lt_pos in Hgt. apply Pos2Z.pos_le_pos in Hle.
  rewrite Pos2Z.inj_pow in Hgt, Hle. change (Z.pos p~0) with (2 * Z.pos p) in Hle.
  set (k := Z.pos (Pos.size p)) in *.
  assert (Hk : 0 < k) by (subst k; lia).
  destruct (Z.lt_trichotomy k d) as [Hlt|[Heq|Hlt]]; [|exact Heq|].
  - assert (2 ^ k <= 2 ^ (d - 1)) by (apply Z.pow_le_mono_r; lia). lia.
  - assert (0 <= d).
    { destruct (Z.le_gt_cases 0 d); [assumption|].
      rewrite (Z.pow_neg_r 2 d) in HM by lia. lia. }
    assert (2 ^ d <= 2 ^ (k - 1)) by (apply Z.pow_le_mono_r; lia).
    assert (2 ^ k = 2 * 2 ^ (k - 1)).
    { rewrite <- Z.pow_succ_r by lia. f_equal. lia. }
    lia.
Qed.

Lemma iter_pos_nat {A : Type} (f : A -> A) (p : positive) (x : A) :
  iter_pos f p x = Nat.iter (Pos.to_nat p) f x.
Proof.
  revert x. induction p as [p IH|p IH|]; intros x; simpl iter_pos.
  - rewrite !IH, Pos2Nat.inj_xI.
    replace (S (2 * Pos.to_nat p)) with (Pos.to_nat p + (Pos.to_nat p + 1))%nat by lia.
    rewrite !Nat.iter_add. reflexivity.
  - rewrite !IH, Pos2Nat.inj_xO.
    replace (2 * Pos.to_nat p)%nat with (Pos.to_nat p + Pos.to_nat p)%nat by lia.
    rewrite Nat.iter_add. reflexivity.
  - reflexivity.
Qed.

Lemma odd_mod2 (x : Z) : Z.odd x = (x mod 2 =? 1).
Proof.
  pose proof (Z.div_mod x 2 ltac:(lia)) as Hx.
  pose proof (Z.mod_pos_bound x 2 ltac:(lia)) as Hb.
  rewrite Hx at 1. rewrite Z.add_comm, Z.odd_add_mul_2.
  assert (Hc : x mod 2 = 0 \/ x mod 2 = 1) by lia.
  destruct Hc as [->| ->]; reflexivity.
Qed.

Lemma shr_1_nonneg (m : Z) (r s : bool) :
  0 <= m ->
  shr_1 {| shr_m := m; shr_r := r; shr_s := s |} =
  {| shr_m := m / 2; shr_r := Z.odd m; shr_s := r || s |}.
Proof.
  intros Hm. destruct m as [|p|p]; [reflexivity| |lia].
  destruct p as [p|p|]; simpl shr_1; f_equal.
  - rewrite Pos2Z.inj_xI. lia.
  - rewrite Pos2Z.inj_xO. lia.
Qed.

Lemma shifted_step (M : Z) (k : nat) :
  0 <= M -> shr_1 (shifted M k) = shifted M (S k).
Proof.
  intros HM. destruct k as [|k].
  - unfold shifted at 1. rewrite shr_1_nonneg by lia. unfold shifted.
    change (Z.of_nat 1) with 1. change (Z.of_nat 0) with 0.
    rewrite Z.pow_1_r, Z.pow_0_r, Z.div_1_r, Z.mod_1_r. reflexivity.
  - unfold shifted at 1.
    assert (Hp : 0 < 2 ^ Z.of_nat k) by (apply Z.pow_pos_nonneg; lia).
    assert (Hp1 : 2 ^ Z.of_nat (S k) = 2 ^ Z.of_nat k * 2).
    { rewrite Nat2Z.inj_succ, Z.pow_succ_r by lia. lia. }
    assert (Hp2 : 2 ^ Z.of_nat (S (S k)) = 2 ^ Z.of_nat (S k) * 2).
    { rewrite (Nat2Z.inj_succ (S k)), Z.pow_succ_r by lia. lia. }
    rewrite shr_1_nonneg by (apply Z.div_pos; lia).
    unfold shifted. f_equal.
    + rewrite Hp2, Z.div_div by lia. reflexivity.
    + (* sticky: a low bit set among the first [k+1] *)
      rewrite Hp1.
      rewrite Z.rem_mul_r by lia.
      rewrite odd_mod2.
      set (a := M mod 2 ^ Z.of_nat k). set (b := (M / 2 ^ Z.of_nat k) mod 2).
      assert (0 <= a) by (apply Z.mod_pos_bound; lia).
      assert (0 <= b < 2) by (apply Z.mod_pos_bound; lia).
      fold a b.
      destruct (Z.eqb_spec a 0), (Z.eqb_spec (a + 2 ^ Z.of_nat k * b) 0), (Z.eqb_spec b 1);
        simpl; try reflexivity; nia.
Qed.

Lemma shr_exact (M e n : Z) :
  0 <= M -> 0 < n ->
  shr {| shr_m := M; shr_r := false; shr_s := false |} e n =
  (shifted M (Z.to_nat n), e + n).
Proof.
  intros HM Hn. destruct n as [|p|p]; try lia.
  unfold shr. f_equal. rewrite iter_pos_nat. rewrite Z2Nat.inj_pos.
  induction (Pos.to_nat p) as [|k IH].
  - reflexivity.
  - simpl Nat.iter. rewrite IH. apply shifted_step. exact HM.
Qed.

Lemma rne_spec (M n : Z) :
  0 <= M -> 0 < n ->
  rne M n =
  let q := M / 2 ^ n in
  let r := M mod 2 ^ n in
  if 2 * r <? 2 ^ n then q
  else if 2 * r =? 2 ^ n then (if Z.even q then q else q + 1)
  else q + 1.
Proof.
  intros HM Hn. unfold rne.
  destruct (Z.to_nat n) as [|k] eqn:Hk; [lia|].
  assert (Hn' : n = Z.of_nat k + 1) by lia.
  unfold shifted. rewrite Hn'.
  assert (Hp : 0 < 2 ^ Z.of_nat k) by (apply Z.pow_pos_nonneg; lia).
  rewrite Z.pow_add_r, Z.pow_1_r by lia.
  set (h := 2 ^ Z.of_nat k) in *. cbv zeta.
  rewrite (Z.rem_mul_r M h 2) by lia.
  rewrite odd_mod2.
  set (a := M mod h). set (b := (M / h) mod 2).
  assert (Ha : 0 <= a < h) by (apply Z.mod_pos_bound; lia).
  assert (Hb : 0 <= b < 2) by (apply Z.mod_pos_bound; lia).
  unfold loc_of_shr_record, round_nearest_even.
  destruct (Z.eqb_spec b 1) as [Hb1|Hb1], (Z.eqb_spec a 0) as [Ha0|Ha0]; simpl negb; cbv iota.
  - replace (2 * (a + h * b) <? h * 2) with false by (symmetry; apply Z.ltb_ge; nia).
    replace (2 * (a + h * b) =? h * 2) with true by (symmetry; apply Z.eqb_eq; nia).
    reflexivity.
  - replace (2 * (a + h * b) <? h * 2) with false by (symmetry; apply Z.ltb_ge; nia).
    replace (2 * (a + h * b) =? h * 2) with false by (symmetry; apply Z.eqb_neq; nia).
    reflexivity.
  - replace (2 * (a + h * b) <? h * 2) with true by (symmetry; apply Z.ltb_lt; nia).
    reflexivity.
  - replace (2 * (a + h * b) <? h * 2) with true by (symmetry; apply Z.ltb_lt; nia).
    reflexivity.
Qed.

Lemma rne_bounds (M n : Z) :
  0 <= M -> 0 < n -> M / 2 ^ n <= rne M n <= M / 2 ^ n + 1.
Proof.
  intros HM Hn. rewrite rne_spec by assumption. cbv zeta.
  destruct (_ <? _); [lia|]. destruct (_ =? _); [|lia]. destruct (Z.even _); lia.
Qed.

Lemma shr_fexp_shift (M E : Z) :
  0 <= M ->
  let n := fexp 24 128 (Zdigits2 M + E) - E in
  0 < n ->
  shr_fexp 24 128 M E loc_Exact = (shifted M (Z.to_nat n), E + n).
Proof.
  intros HM n Hn. unfold shr_fexp. simpl shr_record_of_loc.
  fold n. apply shr_exact; assumption.
Qed.

Lemma shr_fexp_keep (M E : Z) :
  fexp 24 128 (Zdigits2 M + E) - E <= 0 ->
  shr_fexp 24 128 M E loc_Exact =
  ({| shr_m := M; shr_r := false; shr_s := false |}, E).
Proof.
  intros Hn. unfold shr_fexp. simpl shr_record_of_loc.
  destruct (fexp 24 128 (Zdigits2 M + E) - E) as [|p|p]; try reflexivity. lia.
Qed.

Lemma fexp_val (k : Z) : fexp 24 128 k = Z.max (k - 24) (-149).
Proof. reflexivity. Qed.

Lemma trunc_float_finite (s : bool) (m : positive) (e : Z) :
  trunc_float (S754_finite s m e) = Some (cond_Zopp s (trunc_dyadic (Z.pos m) e)).
Proof.
  unfold trunc_float, trunc_dyadic. destruct e as [|p|p]; simpl Z.leb; cbv iota.
  - rewrite Z.pow_0_r, Z.mul_1_r. reflexivity.
  - reflexivity.
  - reflexivity.
Qed.

Lemma trunc_dyadic_double (m e : Z) :
  0 <= m -> trunc_dyadic (2 * m) e = trunc_dyadic m (e + 1).
Proof.
  intros Hm. unfold trunc_dyadic.
  destruct (Z.leb_spec 0 e), (Z.leb_spec 0 (e + 1)); try lia.
  - rewrite Z.pow_add_r by lia. lia.
  - assert (e = -1) as -> by lia. change (2 ^ (- -1)) with 2. change (2 ^ (-1 + 1)) with 1. lia.
  - replace (- e) with (1 + - (e + 1)) by lia.
    rewrite Z.pow_add_r by lia. change (2 ^ 1) with 2.
    rewrite Z.div_mul_cancel_l; try lia.
Qed.

(** Rounding an exact mantissa that is shifted right by [n] bits. *)
Lemma binary_round_aux_shift (sx : bool) (M E : Z) :
  0 < M ->
  let n := fexp 24 128 (Zdigits2 M + E) - E in
  0 < n ->
  2 ^ 23 <= rne M n <= 2 ^ 24 ->
  -149 <= E + n <= 103 ->
  binary_round_aux 24 128 sx M E loc_Exact =
  if rne M n <? 2 ^ 24
  then S754_finite sx (Z.to_pos (rne M n)) (E + n)
  else S754_finite sx (Z.to_pos (2 ^ 23)) (E + n + 1).
Proof.
  intros HM n Hn Hr HE. unfold binary_round_aux.
  rewrite shr_fexp_shift by (fold n; lia). fold n.
  clearbody n.
  assert (Hmain : shr_m (shifted M (Z.to_nat n)) = M / 2 ^ n).
  { destruct (Z.to_nat n) as [|k] eqn:Hk; [lia|]. unfold shifted, shr_m. f_equal. f_equal. lia. }
  rewrite Hmain. fold (rne M n). set (m2 := rne M n) in *. clearbody m2.
  destruct (Z.ltb_spec m2 (2 ^ 24)) as [Hlt|Hge].
  - assert (Hd : Zdigits2 m2 = 24) by (apply Zdigits2_unique; simpl; lia).
    rewrite shr_fexp_keep by (rewrite Hd, fexp_val; lia). simpl shr_m.
    destruct m2 as [|p|p]; try (simpl in Hr; lia). simpl Z.to_pos.
    replace (E + n <=? 128 - 24) with true by (symmetry; apply Z.leb_le; lia).
    reflexivity.
  - assert (Hm2 : m2 = 2 ^ 24) by lia. rewrite Hm2.
    assert (Hd : Zdigits2 (2 ^ 24) = 25) by reflexivity.
    rewrite shr_fexp_shift; rewrite ?Hd, ?fexp_val; try lia.
    replace (Z.max (25 + (E + n) - 24) (-149) - (E + n)) with 1 by lia.
    simpl shr_m.
    replace (E + n + 1 <=? 128 - 24) with true by (symmetry; apply Z.leb_le; lia).
    reflexivity.
Qed.

Lemma trunc_binary_round_aux_shift (sx : bool) (M E : Z) :
  0 < M ->
  let n := fexp 24 128 (Zdigits2 M + E) - E in
  0 < n ->
  2 ^ 23 <= rne M n <= 2 ^ 24 ->
  -149 <= E + n <= 103 ->
  trunc_float (binary_round_aux 24 128 sx M E loc_Exact) =
  Some (cond_Zopp sx (trunc_dyadic (rne M n) (E + n))).
Proof.
  intros HM n Hn Hr HE.
  rewrite binary_round_aux_shift by (fold n; assumption). fold n.
  destruct (Z.ltb_spec (rne M n) (2 ^ 24)) as [Hlt|Hge].
  - rewrite trunc_float_finite, Z2Pos.id by (simpl in Hr; lia). reflexivity.
  - rewrite trunc_float_finite. assert (Hm2 : rne M n = 2 ^ 24) by lia. rewrite Hm2.
    rewrite <- trunc_dyadic_double by discriminate. reflexivity.
Qed.

Lemma Zdigits2_bounds (p : positive) :
  2 ^ (Zdigits2 (Z.pos p) - 1) <= Z.pos p < 2 ^ Zdigits2 (Z.pos p).
Proof.
  unfold Zdigits2. rewrite digits2_pos_size.
  pose proof (Pos.size_gt p) as Hgt. pose proof (Pos.size_le p) as Hle.
  apply Pos2Z.pos_lt_pos in Hgt. apply Pos2Z.pos_le_pos in Hle.
  rewrite Pos2Z.inj_pow in Hgt, Hle. change (Z.pos p~0) with (2 * Z.pos p) in Hle.
  set (k := Z.pos (Pos.size p)) in *.
  assert (Hk : 0 < k) by (subst k; lia).
  assert (2 ^ k = 2 * 2 ^ (k - 1)).
  { rewrite <- Z.pow_succ_r by lia. f_equal. lia. }
  lia.
Qed.

(** A valid binary32 number above the subnormal range has a 24-bit mantissa. *)
Lemma valid_normal (s : bool) (m : positive) (e : Z) :
  valid_binary 24 128 (S754_finite s m e) = true -> -149 < e ->
  2 ^ 23 <= Z.pos m < 2 ^ 24 /\ e <= 104.
Proof.
  unfold valid_binary, bounded, canonical_mantissa. intros H He.
  apply andb_prop in H. destruct H as [Hc Hb].
  apply Z.eqb_eq in Hc. apply Z.leb_le in Hb. rewrite fexp_val in Hc.
  pose proof (Zdigits2_bounds m) as Hd. simpl Zdigits2 in Hd.
  assert (Hd24 : Z.pos (digits2_pos m) = 24) by lia.
  rewrite Hd24 in Hd. simpl in Hb. split; [exact Hd|lia].
Qed.

Lemma rne_exact (q n : Z) : 0 <= q -> 0 < n -> rne (q * 2 ^ n) n = q.
Proof.
  intros Hq Hn.
  assert (Hp : 0 < 2 ^ n) by (apply Z.pow_pos_nonneg; lia).
  rewrite rne_spec by nia. cbv zeta.
  rewrite Z.div_mul, Z.mod_mul by lia.
  replace (2 * 0 <? 2 ^ n) with true by (symmetry; apply Z.ltb_lt; lia).
  reflexivity.
Qed.

(** Scaling a normal number by [2^f] is exact. *)
Lemma mul_scale_normal (w : width) (s : bool) (m : positive) (e : Z) :
  2 ^ 23 <= Z.pos m < 2 ^ 24 ->
  -149 <= e + fractionalBits w <= 103 ->
  f32_mul (S754_finite s m e) (float_of_int (scale w)) =
  S754_finite s m (e + fractionalBits w).
Proof.
  intros Hm He.
  assert (Hsc : exists c, float_of_int (scale w) = S754_finite false 8388608 c /\
                          c + 23 = fractionalBits w).
  { destruct w; [exists (-19)|exists (-15)]; split; reflexivity. }
  destruct Hsc as [c [-> Hc]].
  unfold f32_mul, SFmul. rewrite xorb_false_r.
  rewrite Pos2Z.inj_mul. change (Z.pos 8388608) with (2 ^ 23).
  assert (Hd : Zdigits2 (Z.pos m * 2 ^ 23) = 47).
  { apply Zdigits2_unique; simpl in *; lia. }
  assert (Hn : fexp 24 128 (Zdigits2 (Z.pos m * 2 ^ 23) + (e + c)) - (e + c) = 23).
  { rewrite Hd, fexp_val. lia. }
  assert (Hr : rne (Z.pos m * 2 ^ 23) 23 = Z.pos m) by (apply rne_exact; lia).
  rewrite binary_round_aux_shift; rewrite ?Hn, ?Hr; try lia.
  replace (Z.pos m <? 2 ^ 24) with true by (symmetry; apply Z.ltb_lt; lia).
  simpl Z.to_pos. f_equal. lia.
Qed.

Lemma shl_align_fst (m : positive) (e ez : Z) :
  ez <= e -> Z.pos (fst (shl_align m e ez)) = Z.pos m * 2 ^ (e - ez).
Proof.
  intros Hle. unfold shl_align.
  destruct (ez - e) as [|d|d] eqn:Hd; try lia.
  - replace (e - ez) with 0 by lia. simpl fst. lia.
  - simpl fst. replace (e - ez) with (Z.pos d) by lia.
    clear. induction d as [|d IH] using Pos.peano_ind.
    + simpl. lia.
    + rewrite Pos.iter_succ, Pos2Z.inj_xO, IH, Pos2Z.inj_succ, Z.pow_succ_r by lia. lia.
Qed.

Lemma binary_round_no_align (sx : bool) (mx : positive) (ex : Z) :
  ex <= fexp 24 128 (Z.pos (digits2_pos mx) + ex) ->
  binary_round 24 128 sx mx ex = binary_round_aux 24 128 sx (Z.pos mx) ex loc_Exact.
Proof.
  intros Hle. unfold binary_round, shl_align.
  destruct (fexp 24 128 (Z.pos (digits2_pos mx) + ex) - ex) as [|d|d] eqn:Hd;
    try reflexivity. lia.
Qed.

(** The sum or difference that the converter truncates, for a normal scaled
    value [m * 2^e] of sign [s] with [-24 <= e]: the magnitude is
    [m * 2^e + 1/2], an integer multiple [M] of [2^-24]. *)
Lemma add_half_magnitude (s : bool) (m : positive) (e : Z) :
  -24 <= e ->
  let M := Z.pos m * 2 ^ (e + 24) + 2 ^ 23 in
  (if s then f32_sub (S754_finite true m e) (f32 1 (-1))
   else f32_add (S754_finite false m e) (f32 1 (-1))) =
  binary_round 24 128 s (Z.to_pos M) (-24).
Proof.
  intros He M.
  assert (HM : M = Z.pos (fst (shl_align m e (-24))) + Z.pos (fst (shl_align 8388608 (-24) (-24)))).
  { rewrite !shl_align_fst by lia. subst M. replace (e - -24) with (e + 24) by lia.
    simpl (2 ^ (-24 - -24)). lia. }
  change (f32 1 (-1)) with (S754_finite false 8388608 (-24)).
  destruct s; unfold f32_sub, f32_add, SFsub, SFadd;
    replace (Z.min e (-24)) with (-24) by lia;
    unfold cond_Zopp.
  - replace (- Z.pos (fst (shl_align m e (-24))) -
             Z.pos (fst (shl_align 8388608 (-24) (-24)))) with (- M) by lia.
    assert (0 < M) by (subst M; assert (0 < 2 ^ (e + 24)) by (apply Z.pow_pos_nonneg; lia); nia).
    destruct M; try lia. reflexivity.
  - rewrite <- HM.
    assert (0 < M) by (subst M; assert (0 < 2 ^ (e + 24)) by (apply Z.pow_pos_nonneg; lia); nia).
    destruct M; try lia. reflexivity.
Qed.

Lemma Zdigits2_lower (M d : Z) : 0 < M -> 2 ^ (d - 1) <= M -> d <= Zdigits2 M.
Proof.
  intros HM Hle. destruct M as [|p|p]; try lia.
  pose proof (Zdigits2_bounds p) as [_ Hub].
  set (D := Zdigits2 (Z.pos p)) in *.
  destruct (Z.le_gt_cases d D) as [|Hgt]; [assumption|].
  assert (0 <= D) by (subst D; simpl; lia).
  assert (2 ^ D <= 2 ^ (d - 1)) by (apply Z.pow_le_mono_r; lia). lia.
Qed.

Lemma Zdigits2_upper (M d : Z) : 0 < M -> M < 2 ^ d -> Zdigits2 M <= d.
Proof.
  intros HM Hlt. destruct M as [|p|p]; try lia.
  pose proof (Zdigits2_bounds p) as [Hlb _].
  set (D := Zdigits2 (Z.pos p)) in *.
  destruct (Z.le_gt_cases D d) as [|Hgt]; [assumption|].
  assert (0 <= d).
  { destruct (Z.le_gt_cases 0 d); [assumption|]. rewrite Z.pow_neg_r in Hlt by lia. lia. }
  assert (2 ^ d <= 2 ^ (D - 1)) by (apply Z.pow_le_mono_r; lia). lia.
Qed.

Lemma rne_normal (M : Z) :
  0 < M -> 24 < Zdigits2 M ->
  2 ^ 23 <= rne M (Zdigits2 M - 24) <= 2 ^ 24.
Proof.
  intros HM HD. destruct M as [|p|p]; try lia.
  pose proof (Zdigits2_bounds p) as [Hlb Hub].
  set (D := Zdigits2 (Z.pos p)) in *. set (M := Z.pos p) in *.
  assert (Hp : 0 < 2 ^ (D - 24)) by (apply Z.pow_pos_nonneg; lia).
  assert (H1 : 2 ^ (D - 1) = 2 ^ (D - 24) * 2 ^ 23).
  { rewrite <- Z.pow_add_r by lia. f_equal. lia. }
  assert (H2 : 2 ^ D = 2 ^ (D - 24) * 2 ^ 24).
  { rewrite <- Z.pow_add_r by lia. f_equal. lia. }
  pose proof (rne_bounds M (D - 24) ltac:(lia) ltac:(lia)) as Hr.
  assert (2 ^ 23 <= M / 2 ^ (D - 24)) by (apply Z.div_le_lower_bound; lia).
  assert (M / 2 ^ (D - 24) < 2 ^ 24) by (apply Z.div_lt_upper_bound; lia).
  lia.
Qed.

(** The rounded scaled value of a normal input whose scaled magnitude is at
    least [2^-1]: with [M / 2^24] the exact magnitude of the scaled value
    plus one half, the converter truncates [M / 2^24] rounded to 24
    significant bits. *)
Lemma rounded_scaled_normal (w : width) (s : bool) (m : positive) (e : Z) :
  valid_binary 24 128 (S754_finite s m e) = true -> -149 < e ->
  -24 <= e + fractionalBits w <= 50 ->
  let M := Z.pos m * 2 ^ (e + fractionalBits w + 24) + 2 ^ 23 in
  let n := Zdigits2 M - 24 in
  let z := cond_Zopp s (trunc_dyadic (rne M n) (n - 24)) in
  rounded_scaled w (S754_finite s m e) =
  if fits_signed (scaled_bits w) z then Some z else None.
Proof.
  intros Hv He Hf M n z.
  destruct (valid_normal s m e Hv He) as [Hm _].
  unfold rounded_scaled. rewrite mul_scale_normal by (assumption || lia).
  set (e' := e + fractionalBits w) in *.
  assert (Hge : f32_ge (S754_finite s m e') (S754_zero false) = negb s)
    by (destruct s; reflexivity).
  rewrite Hge.
  assert (Hsum : (if negb s
                  then float_to_sint (scaled_bits w) (f32_add (S754_finite s m e') (f32 1 (-1)))
                  else float_to_sint (scaled_bits w) (f32_sub (S754_finite s m e') (f32 1 (-1)))) =
                 float_to_sint (scaled_bits w)
                   (if s then f32_sub (S754_finite true m e') (f32 1 (-1))
                    else f32_add (S754_finite false m e') (f32 1 (-1))))
    by (destruct s; reflexivity).
  rewrite Hsum, add_half_magnitude by lia. fold M.
  assert (Hp : 0 < 2 ^ (e' + 24)) by (apply Z.pow_pos_nonneg; lia).
  assert (HM0 : 0 < M) by (subst M; nia).
  assert (HDlo : 25 <= Zdigits2 M).
  { apply Zdigits2_lower; [exact HM0|]. subst M.
    change (2 ^ (25 - 1)) with 16777216. change (2 ^ 23) with 8388608 in *. nia. }
  assert (HDhi : Zdigits2 M <= 100).
  { apply Zdigits2_upper; [exact HM0|]. subst M.
    assert (2 ^ (e' + 24) <= 2 ^ 74) by (apply Z.pow_le_mono_r; lia).
    assert (2 ^ 100 = 2 ^ 24 * 2 ^ 74 + 2 ^ 24 * 2 ^ 74 * 3) by reflexivity.
    assert (2 ^ 23 < 2 ^ 24 * 2 ^ 74) by reflexivity.
    set (P := 2 ^ (e' + 24)) in *. set (Q := 2 ^ 74) in *. nia. }
  assert (HMp : Z.pos (Z.to_pos M) = M) by (apply Z2Pos.id; exact HM0).
  rewrite binary_round_no_align.
  2: { change (Z.pos (digits2_pos (Z.to_pos M))) with (Zdigits2 (Z.pos (Z.to_pos M))).
       rewrite HMp, fexp_val. lia. }
  rewrite HMp. unfold float_to_sint.
  assert (Hn : fexp 24 128 (Zdigits2 M + -24) - -24 = n).
  { rewrite fexp_val. subst n. lia. }
  pose proof (rne_normal M HM0 ltac:(lia)) as Hr. fold n in Hr.
  rewrite trunc_binary_round_aux_shift; rewrite ?Hn; try lia.
  replace (-24 + n) with (n - 24) by lia. reflexivity.
Qed.

(** ** Comparisons of finite binary32 numbers *)

Lemma SFleb_pos_finite (m1 : positive) (e1 : Z) (s : bool) (m : positive) (e : Z) :
  SFleb (S754_finite false m1 e1) (S754_finite s m e) = true ->
  s = false /\ (e1 < e \/ (e1 = e /\ Z.pos m1 <= Z.pos m)).
Proof.
  unfold SFleb, SFcompare. destruct s; [discriminate|].
  intros H. split; [reflexivity|].
  destruct (Z.compare_spec e1 e) as [Heq|Hlt|Hgt]; [right|left; lia|discriminate].
  split; [exact Heq|].
  change (Pos.compare_cont Eq m1 m) with (Pos.compare m1 m) in H.
  destruct (Pos.compare_spec m1 m); try discriminate; lia.
Qed.

Lemma SFltb_finite_pos (m2 : positive) (e2 : Z) (m : positive) (e : Z) :
  SFltb (S754_finite false m e) (S754_finite false m2 e2) = true ->
  e < e2 \/ (e = e2 /\ Z.pos m < Z.pos m2).
Proof.
  unfold SFltb, SFcompare. intros H.
  destruct (Z.compare_spec e e2) as [Heq|Hlt|Hgt]; [right|left; lia|discriminate].
  split; [exact Heq|].
  change (Pos.compare_cont Eq m m2) with (Pos.compare m m2) in H.
  destruct (Pos.compare_spec m m2); try discriminate; lia.
Qed.

Lemma SFleb_finite_neg (m1 : positive) (e1 : Z) (s : bool) (m : positive) (e : Z) :
  SFleb (S754_finite s m e) (S754_finite true m1 e1) = true ->
  s = true /\ (e1 < e \/ (e1 = e /\ Z.pos m1 <= Z.pos m)).
Proof.
  unfold SFleb, SFcompare. destruct s; [|discriminate].
  intros H. split; [reflexivity|].
  destruct (Z.compare_spec e e1) as [Heq|Hlt|Hgt]; [right|discriminate|left; lia].
  split; [symmetry; exact Heq|].
  change (Pos.compare_cont Eq m m1) with (Pos.compare m m1) in H.
  destruct (Pos.compare_spec m m1); simpl in H; try discriminate; lia.
Qed.

Lemma SFltb_neg_finite (m2 : positive) (e2 : Z) (m : positive) (e : Z) :
  SFltb (S754_finite true m2 e2) (S754_finite true m e) = true ->
  e < e2 \/ (e = e2 /\ Z.pos m < Z.pos m2).
Proof.
  unfold SFltb, SFcompare. intros H.
  destruct (Z.compare_spec e2 e) as [Heq|Hlt|Hgt]; [right|discriminate|left; lia].
  split; [symmetry; exact Heq|].
  change (Pos.compare_cont Eq m2 m) with (Pos.compare m2 m) in H.
  destruct (Pos.compare_spec m2 m); simpl in H; try discriminate; lia.
Qed.

(** Case analysis on an integer known to lie between two literals, from
    the lower one upwards. *)
Ltac split_from e lo :=
  let rec go l :=
    first
      [ assert (e = l) by lia
      | let Heq := fresh "Heq" in
        let Hne := fresh "Hne" in
        destruct (Z.eq_dec e l) as [Heq|Hne];
        [ | let l' := eval compute in (l + 1) in go l' ] ]
  in go lo.

Ltac concretize_pow :=
  repeat match goal with
    | |- context [2 ^ ?k] =>
        let v := eval compute in (2 ^ k) in
        lazymatch v with
        | Z.pos _ => change (2 ^ k) with v
        end
    | H : context [2 ^ ?k] |- _ =>
        let v := eval compute in (2 ^ k) in
        lazymatch v with
        | Z.pos _ => change (2 ^ k) with v in H
        end
    end.

(** A goal about the truncated sum [trunc_dyadic (rne M _) _] with
    [M = m * 2^k + 2^23], for a literal [k]: the digits of [M] are [k + 24]
    or, after a carry, [k + 25]; each case is linear arithmetic. *)
Ltac truncated_sum m k :=
  let M := fresh "M" in
  let HD := fresh "HD" in
  let HM0 := fresh "HM0" in
  let Hb := fresh "Hb" in
  set (M := Z.pos m * 2 ^ k + 2 ^ 23) in *;
  assert (HM0 : 0 < M) by (subst M; concretize_pow; lia);
  let k24 := eval compute in (k + 24) in
  let k25 := eval compute in (k + 25) in
  assert (HD : Zdigits2 M = k24 \/ Zdigits2 M = k25)
    by (destruct (Z.lt_ge_cases M (2 ^ k24));
        [left|right]; apply Zdigits2_unique; subst M; concretize_pow; lia);
  pose proof (Zdigits2_bounds (Z.to_pos M)) as Hb;
  rewrite (Z2Pos.id M HM0) in Hb;
  destruct HD as [HD|HD]; rewrite HD in *;
  [ let n := eval compute in (k24 - 24) in
    let e := eval compute in (k24 - 24 - 24) in
    change (k24 - 24) with n; change (n - 24) with e
  | let n := eval compute in (k25 - 24) in
    let e := eval compute in (k25 - 24 - 24) in
    change (k25 - 24) with n; change (n - 24) with e ];
  first
    [ (rewrite rne_spec by lia); cbv zeta; unfold trunc_dyadic;
      subst M; concretize_pow;
      repeat match goal with
        | |- context [if ?c then _ else _] => destruct c eqn:?
        end; lia
    | exfalso; subst M; concretize_pow; lia ].

(** ** C3: saturation in the converter *)

Lemma FloatToFix_saturates_high (w : width) (x : float) (old : option Z) (z : Z) :
  rounded_scaled w x = Some z -> MAX w < z ->
  FloatToFix w x (Ref old) = Some (E_NOT_OK, Ref (Some (MAX w))).
Proof.
  intros Hr Hz. rewrite FloatToFix_rounded, Hr. cbv [bind]. cbv zeta.
  pose proof (MIN_le_MAX w).
  assert (Hc : clamp (MIN w) (MAX w) z = MAX w) by (unfold clamp; lia).
  rewrite Hc. replace (MAX w =? z) with false by (symmetry; apply Z.eqb_neq; lia).
  reflexivity.
Qed.

Lemma FloatToFix_saturates_low (w : width) (x : float) (old : option Z) (z : Z) :
  rounded_scaled w x = Some z -> z < MIN w ->
  FloatToFix w x (Ref old) = Some (E_NOT_OK, Ref (Some (MIN w))).
Proof.
  intros Hr Hz. rewrite FloatToFix_rounded, Hr. cbv [bind]. cbv zeta.
  pose proof (MIN_le_MAX w).
  assert (Hc : clamp (MIN w) (MAX w) z = MIN w) by (unfold clamp; lia).
  rewrite Hc. replace (MIN w =? z) with false by (symmetry; apply Z.eqb_neq; lia).
  reflexivity.
Qed.

Lemma rounded_scaled_bounded (w : width) (s : bool) (m : positive) (e lo hi : Z) :
  valid_binary 24 128 (S754_finite s m e) = true -> -149 < e ->
  -24 <= e + fractionalBits w <= 50 ->
  let M := Z.pos m * 2 ^ (e + fractionalBits w + 24) + 2 ^ 23 in
  lo <= trunc_dyadic (rne M (Zdigits2 M - 24)) (Zdigits2 M - 24 - 24) <= hi ->
  fits_signed (scaled_bits w) (cond_Zopp s lo) = true ->
  fits_signed (scaled_bits w) (cond_Zopp s hi) = true ->
  exists t, lo <= t <= hi /\ rounded_scaled w (S754_finite s m e) = Some (cond_Zopp s t).
Proof.
  intros Hv He Hf M Ht Hlo Hhi.
  rewrite rounded_scaled_normal by assumption. cbv zeta. fold M.
  set (t := trunc_dyadic _ _) in *. exists t. split; [exact Ht|].
  replace (fits_signed (scaled_bits w) (cond_Zopp s t)) with true; [reflexivity|].
  symmetry. unfold fits_signed in *.
  apply andb_prop in Hlo, Hhi. destruct Hlo as [Hl1 Hl2], Hhi as [Hh1 Hh2].
  apply Z.leb_le in Hl1, Hh1. apply Z.ltb_lt in Hl2, Hh2.
  apply andb_true_intro. split; [apply Z.leb_le|apply Z.ltb_lt];
    destruct s; simpl cond_Zopp in *; lia.
Qed.

Ltac one_exponent w m e0 lo hi :=
  let k := eval compute in (e0 + fractionalBits w + 24) in
  match goal with
  | Hv : valid_binary 24 128 (S754_finite ?s m e0) = true |- _ =>
      let Hex := fresh "Hex" in
      assert (Hex : exists t, (lo <= t <= hi) /\
                      rounded_scaled w (S754_finite s m e0) = Some (cond_Zopp s t));
      [ apply rounded_scaled_bounded;
        [ exact Hv | lia | split; discriminate
        | cbv zeta; change (e0 + fractionalBits w + 24) with k;
          truncated_sum m k
        | reflexivity | reflexivity ]
      | ]
  end.

Lemma rounds_above_MAX_16 (x : float) :
  valid_binary 24 128 x = true ->
  SFleb (saturates_from W16) x = true -> SFltb x (defined_below W16) = true ->
  exists z, rounded_scaled W16 x = Some z /\ MAX W16 < z.
Proof.
  intros Hv Hlo Hhi.
  change (saturates_from W16) with (S754_finite false 16776960 (-17)) in Hlo.
  change (defined_below W16) with (S754_finite false 8388608 0) in Hhi.
  destruct x as [sx|sx| |s m e]; try discriminate.
  - destruct sx; discriminate.
  - apply SFleb_pos_finite in Hlo. destruct Hlo as [-> Hlo].
    apply SFltb_finite_pos in Hhi.
    destruct (valid_normal false m e Hv ltac:(lia)) as [Hm _].
    change (2 ^ 23) with 8388608 in Hm. change (2 ^ 24) with 16777216 in Hm.
    split_from e (-17); subst e;
      match goal with
      | Hv : valid_binary 24 128 (S754_finite false m ?e0) = true |- _ =>
          one_exponent W16 m e0 32768 2147483647
      end;
      destruct Hex as [t [Ht Hr]]; exists t; (split; [exact Hr|change (MAX W16) with 32767; lia]).
Qed.

Lemma rounds_below_MIN_16 (x : float) :
  valid_binary 24 128 x = true ->
  SFleb x (saturates_down_from W16) = true -> SFltb (defined_above W16) x = true ->
  exists z, rounded_scaled W16 x = Some z /\ z < MIN W16.
Proof.
  intros Hv Hlo Hhi.
  change (saturates_down_from W16) with (S754_finite true 8388736 (-16)) in Hlo.
  change (defined_above W16) with (S754_finite true 8388609 0) in Hhi.
  destruct x as [sx|sx| |s m e]; try discriminate.
  - destruct sx; discriminate.
  - apply SFleb_finite_neg in Hlo. destruct Hlo as [-> Hlo].
    apply SFltb_neg_finite in Hhi.
    destruct (valid_normal true m e Hv ltac:(lia)) as [Hm _].
    change (2 ^ 23) with 8388608 in Hm. change (2 ^ 24) with 16777216 in Hm.
    split_from e (-16); subst e;
      match goal with
      | Hv : valid_binary 24 128 (S754_finite true m ?e0) = true |- _ =>
          one_exponent W16 m e0 32769 2147483648
      end;
      destruct Hex as [t [Ht Hr]]; exists (- t);
      (split; [exact Hr|change (MIN W16) with (-32768); lia]).
Qed.

Lemma rounds_above_MAX_8 (x : float) :
  valid_binary 24 128 x = true ->
  SFleb (saturates_from W8) x = true -> SFltb x (defined_below W8) = true ->
  exists z, rounded_scaled W8 x = Some z /\ MAX W8 < z.
Proof.
  intros Hv Hlo Hhi.
  change (saturates_from W8) with (S754_finite false 16711680 (-21)) in Hlo.
  change (defined_below W8) with (S754_finite false 16776960 (-13)) in Hhi.
  destruct x as [sx|sx| |s m e]; try discriminate.
  - destruct sx; discriminate.
  - apply SFleb_pos_finite in Hlo. destruct Hlo as [-> Hlo].
    apply SFltb_finite_pos in Hhi.
    destruct (valid_normal false m e Hv ltac:(lia)) as [Hm _].
    change (2 ^ 23) with 8388608 in Hm. change (2 ^ 24) with 16777216 in Hm.
    split_from e (-21); subst e;
      match goal with
      | Hv : valid_binary 24 128 (S754_finite false m ?e0) = true |- _ =>
          one_exponent W8 m e0 128 32767
      end;
      destruct Hex as [t [Ht Hr]]; exists t; (split; [exact Hr|change (MAX W8) with 127; lia]).
Qed.

Lemma rounds_below_MIN_8 (x : float) :
  valid_binary 24 128 x = true ->
  SFleb x (saturates_down_from W8) = true -> SFltb (defined_above W8) x = true ->
  exists z, rounded_scaled W8 x = Some z /\ z < MIN W8.
Proof.
  intros Hv Hlo Hhi.
  change (saturates_down_from W8) with (S754_finite true 8421376 (-20)) in Hlo.
  change (defined_above W8) with (S754_finite true 8388736 (-12)) in Hhi.
  destruct x as [sx|sx| |s m e]; try discriminate.
  - destruct sx; discriminate.
  - apply SFleb_finite_neg in Hlo. destruct Hlo as [-> Hlo].
    apply SFltb_neg_finite in Hhi.
    destruct (valid_normal true m e Hv ltac:(lia)) as [Hm _].
    change (2 ^ 23) with 8388608 in Hm. change (2 ^ 24) with 16777216 in Hm.
    split_from e (-20); subst e;
      match goal with
      | Hv : valid_binary 24 128 (S754_finite true m ?e0) = true |- _ =>
          one_exponent W8 m e0 129 32768
      end;
      destruct Hex as [t [Ht Hr]]; exists (- t);
      (split; [exact Hr|change (MIN W8) with (-128); lia]).
Qed.

Lemma SFltb_pos_finite (m1 : positive) (e1 : Z) (s : bool) (m : positive) (e : Z) :
  SFltb (S754_finite false m1 e1) (S754_finite s m e) = true ->
  s = false /\ (e1 < e \/ (e1 = e /\ Z.pos m1 < Z.pos m)).
Proof.
  unfold SFltb, SFcompare. destruct s; [discriminate|].
  intros H. split; [reflexivity|].
  destruct (Z.compare_spec e1 e) as [Heq|Hlt|Hgt]; [right|left; lia|discriminate].
  split; [exact Heq|].
  change (Pos.compare_cont Eq m1 m) with (Pos.compare m1 m) in H.
  destruct (Pos.compare_spec m1 m); try discriminate; lia.
Qed.

Lemma SFltb_finite_neg (m1 : positive) (e1 : Z) (s : bool) (m : positive) (e : Z) :
  SFltb (S754_finite s m e) (S754_finite true m1 e1) = true ->
  s = true /\ (e1 < e \/ (e1 = e /\ Z.pos m1 < Z.pos m)).
Proof.
  unfold SFltb, SFcompare. destruct s; [|discriminate].
  intros H. split; [reflexivity|].
  destruct (Z.compare_spec e e1) as [Heq|Hlt|Hgt]; [right|discriminate|left; lia].
  split; [symmetry; exact Heq|].
  change (Pos.compare_cont Eq m m1) with (Pos.compare m m1) in H.
  destruct (Pos.compare_spec m m1); simpl in H; try discriminate; lia.
Qed.

Lemma FloatToFix_in_range (w : width) (x : float) (old : option Z) (z : Z) :
  rounded_scaled w x = Some z -> in_container w z ->
  FloatToFix w x (Ref old) = Some (E_OK, Ref (Some z)).
Proof.
  intros Hr Hz. rewrite FloatToFix_rounded, Hr. cbv [bind]. cbv zeta.
  assert (Hc : clamp (MIN w) (MAX w) z = z) by (unfold clamp, in_container in *; lia).
  rewrite Hc, Z.eqb_refl. reflexivity.
Qed.

(** Between [MAX_REAL] and [MAX_REAL] plus half a resolution step the
    scaled value rounds to [MAX] itself; likewise at the lower end. *)
Lemma rounds_to_MAX (w : width) (x : float) :
  valid_binary 24 128 x = true ->
  SFltb (FixToFloat w (MAX w)) x = true -> SFltb x (saturates_from w) = true ->
  rounded_scaled w x = Some (MAX w).
Proof.
  intros Hv Hlo Hhi. destruct w.
  - change (FixToFloat W8 (MAX W8)) with (S754_finite false 16646144 (-21)) in Hlo.
    change (saturates_from W8) with (S754_finite false 16711680 (-21)) in Hhi.
    destruct x as [sx|sx| |s m e]; try discriminate; [destruct sx; discriminate|].
    apply SFltb_pos_finite in Hlo. destruct Hlo as [-> Hlo].
    apply SFltb_finite_pos in Hhi.
    assert (e = -21) by lia. subst e.
    one_exponent W8 m (-21) 127 127.
    destruct Hex as [t [Ht Hr]]. rewrite Hr. simpl cond_Zopp. f_equal.
    change (MAX W8) with 127. lia.
  - change (FixToFloat W16 (MAX W16)) with (S754_finite false 16776704 (-17)) in Hlo.
    change (saturates_from W16) with (S754_finite false 16776960 (-17)) in Hhi.
    destruct x as [sx|sx| |s m e]; try discriminate; [destruct sx; discriminate|].
    apply SFltb_pos_finite in Hlo. destruct Hlo as [-> Hlo].
    apply SFltb_finite_pos in Hhi.
    assert (e = -17) by lia. subst e.
    one_exponent W16 m (-17) 32767 32767.
    destruct Hex as [t [Ht Hr]]. rewrite Hr. simpl cond_Zopp. f_equal.
    change (MAX W16) with 32767. lia.
Qed.

Lemma rounds_to_MIN (w : width) (x : float) :
  valid_binary 24 128 x = true ->
  SFltb x (FixToFloat w (MIN w)) = true -> SFltb (saturates_down_from w) x = true ->
  rounded_scaled w x = Some (MIN w).
Proof.
  intros Hv Hlo Hhi. destruct w.
  - change (FixToFloat W8 (MIN W8)) with (S754_finite true 8388608 (-20)) in Hlo.
    change (saturates_down_from W8) with (S754_finite true 8421376 (-20)) in Hhi.
    destruct x as [sx|sx| |s m e]; try discriminate; [destruct sx; discriminate|].
    apply SFltb_finite_neg in Hlo. destruct Hlo as [-> Hlo].
    apply SFltb_neg_finite in Hhi.
    assert (e = -20) by lia. subst e.
    one_exponent W8 m (-20) 128 128.
    destruct Hex as [t [Ht Hr]]. rewrite Hr. simpl cond_Zopp. f_equal.
    change (MIN W8) with (-128). lia.
  - change (FixToFloat W16 (MIN W16)) with (S754_finite true 8388608 (-16)) in Hlo.
    change (saturates_down_from W16) with (S754_finite true 8388736 (-16)) in Hhi.
    destruct x as [sx|sx| |s m e]; try discriminate; [destruct sx; discriminate|].
    apply SFltb_finite_neg in Hlo. destruct Hlo as [-> Hlo].
    apply SFltb_neg_finite in Hhi.
    assert (e = -16) by lia. subst e.
    one_exponent W16 m (-16) 32768 32768.
    destruct Hex as [t [Ht Hr]]. rewrite Hr. simpl cond_Zopp. f_equal.
    change (MIN W16) with (-32768). lia.
Qed.

(** C3, as the code has it.  The converter saturates on the rounded scaled
    value, so the threshold is half a resolution step beyond the real
    bounds: every binary32 input from [MAX_REAL] plus half a step upwards
    converts to raw [MAX] with [E_NOT_OK], and every input strictly between
    [MAX_REAL] and that threshold converts to raw [MAX] with [E_OK];
    symmetrically, every input from [MIN_REAL] minus half a step downwards
    converts to raw [MIN] with [E_NOT_OK], and every input strictly between
    that threshold and [MIN_REAL] to raw [MIN] with [E_OK].  The inputs
    range over the interval on which the rounded scaled value fits the
    integer it is converted to. *)
Theorem saturation_beyond_half_step (w : width) (x : float) (old : option Z) :
  valid_binary 24 128 x = true ->
  (SFleb (saturates_from w) x = true -> SFltb x (defined_below w) = true ->
   FloatToFix w x (Ref old) = Some (E_NOT_OK, Ref (Some (MAX w)))) /\
  (SFltb (FixToFloat w (MAX w)) x = true -> SFltb x (saturates_from w) = true ->
   FloatToFix w x (Ref old) = Some (E_OK, Ref (Some (MAX w)))) /\
  (SFleb x (saturates_down_from w) = true -> SFltb (defined_above w) x = true ->
   FloatToFix w x (Ref old) = Some (E_NOT_OK, Ref (Some (MIN w)))) /\
  (SFltb x (FixToFloat w (MIN w)) = true -> SFltb (saturates_down_from w) x = true ->
   FloatToFix w x (Ref old) = Some (E_OK, Ref (Some (MIN w)))).
Proof.
  intros Hv. pose proof (MIN_le_MAX w) as Hle.
  split; [|split; [|split]]; intros Hlo Hhi.
  - assert (Hex : exists z, rounded_scaled w x = Some z /\ MAX w < z)
      by (destruct w; [apply rounds_above_MAX_8|apply rounds_above_MAX_16]; assumption).
    destruct Hex as [z [Hr Hz]]. exact (FloatToFix_saturates_high w x old z Hr Hz).
  - apply FloatToFix_in_range; [apply rounds_to_MAX; assumption|].
    unfold in_container. lia.
  - assert (Hex : exists z, rounded_scaled w x = Some z /\ z < MIN w)
      by (destruct w; [apply rounds_below_MIN_8|apply rounds_below_MIN_16]; assumption).
    destruct Hex as [z [Hr Hz]]. exact (FloatToFix_saturates_low w x old z Hr Hz).
  - apply FloatToFix_in_range; [apply rounds_to_MIN; assumption|].
    unfold in_container. lia.
Qed.

Lemma saturation_beyond_half_step_witness :
  valid_binary 24 128 (f32 65535 (-9)) = true /\
  SFleb (saturates_from W16) (f32 65535 (-9)) = true /\
  SFltb (f32 65535 (-9)) (defined_below W16) = true /\
  FloatToFix W16 (f32 65535 (-9)) (Ref None) = Some (E_NOT_OK, Ref (Some (MAX W16))).
Proof.
  assert (Hv : valid_binary 24 128 (f32 65535 (-9)) = true) by reflexivity.
  assert (Hlo : SFleb (saturates_from W16) (f32 65535 (-9)) = true) by reflexivity.
  assert (Hhi : SFltb (f32 65535 (-9)) (defined_below W16) = true) by reflexivity.
  split; [exact Hv|split; [exact Hlo|split; [exact Hhi|]]].
  exact (proj1 (saturation_beyond_half_step W16 (f32 65535 (-9)) None Hv) Hlo Hhi).
Defined.

(** C3, as stated, fails just above [MAX_REAL]: the binary32 successor of
    [MAX_REAL] is a valid input strictly greater than [MAX_REAL] that
    converts to raw [MAX] with status [E_OK], not [E_NOT_OK]. *)
Lemma just_above_MAX_REAL_not_saturated :
  let x := S754_finite false 16776705 (-17) in
  valid_binary 24 128 x = true /\
  SFltb (FixToFloat W16 (MAX W16)) x = true /\
  FloatToFix W16 x (Ref None) = Some (E_OK, Ref (Some (MAX W16))) /\
  FloatToFix W16 x (Ref None) <> Some (E_NOT_OK, Ref (Some (MAX W16))).
Proof.
  cbv zeta. repeat split; try (vm_compute; reflexivity).
  vm_compute. discriminate.
Qed.

(** ** The converter's rounding away from its failing input *)

(** Rounding an exact mantissa whose rounded value needs no second shift. *)
Lemma binary_round_aux_shift_keep (sx : bool) (M E : Z) :
  0 < M ->
  let n := fexp 24 128 (Zdigits2 M + E) - E in
  0 < n ->
  0 < rne M n ->
  fexp 24 128 (Zdigits2 (rne M n) + (E + n)) - (E + n) <= 0 ->
  E + n <= 104 ->
  binary_round_aux 24 128 sx M E loc_Exact =
  S754_finite sx (Z.to_pos (rne M n)) (E + n).
Proof.
  intros HM n Hn Hr Hk HE. unfold binary_round_aux.
  rewrite shr_fexp_shift by (fold n; lia). fold n.
  clearbody n.
  assert (Hmain : shr_m (shifted M (Z.to_nat n)) = M / 2 ^ n).
  { destruct (Z.to_nat n) as [|k] eqn:Hk'; [lia|]. unfold shifted, shr_m. f_equal. f_equal. lia. }
  rewrite Hmain. fold (rne M n). set (m2 := rne M n) in *. clearbody m2.
  rewrite shr_fexp_keep by assumption. simpl shr_m.
  destruct m2 as [|p|p]; try lia. simpl Z.to_pos.
  replace (E + n <=? 128 - 24) with true by (symmetry; apply Z.leb_le; lia).
  reflexivity.
Qed.

Lemma Zdigits2_shift (m j : Z) : 0 < m -> 0 <= j -> Zdigits2 (m * 2 ^ j) = Zdigits2 m + j.
Proof.
  intros Hm Hj. destruct m as [|p|p]; try lia.
  pose proof (Zdigits2_bounds p) as [Hlo Hhi].
  set (d := Zdigits2 (Z.pos p)) in *.
  assert (Hd : 0 < d) by (subst d; simpl; lia).
  assert (Hp : 0 < 2 ^ j) by (apply Z.pow_pos_nonneg; lia).
  apply Zdigits2_unique; [|nia].
  replace (d + j - 1) with (d - 1 + j) by lia.
  rewrite !Z.pow_add_r by lia. nia.
Qed.

(** The mantissa of a valid binary32 number has at most 24 bits. *)
Lemma valid_mantissa_bound (s : bool) (m : positive) (e : Z) :
  valid_binary 24 128 (S754_finite s m e) = true -> Z.pos m < 2 ^ 24.
Proof.
  intros Hv. unfold valid_binary, bounded, canonical_mantissa in Hv.
  apply andb_prop in Hv. destruct Hv as [Hc _]. apply Z.eqb_eq in Hc.
  rewrite fexp_val in Hc.
  change (Z.pos (digits2_pos m)) with (Zdigits2 (Z.pos m)) in Hc.
  pose proof (Zdigits2_bounds m) as [_ Hub].
  assert (2 ^ Zdigits2 (Z.pos m) <= 2 ^ 24) by (apply Z.pow_le_mono_r; lia).
  lia.
Qed.

Lemma fractionalBits_range (w : width) : 4 <= fractionalBits w <= 8.
Proof. destruct w; cbv; split; discriminate. Qed.

(** Scaling any valid finite number by [2^f] yields a finite number of the
    same sign with a mantissa below [2^24] and an exponent at most [e + f]. *)
Lemma mul_scale_valid (w : width) (s : bool) (m : positive) (e : Z) :
  valid_binary 24 128 (S754_finite s m e) = true ->
  e + fractionalBits w <= 103 ->
  exists m' e', f32_mul (S754_finite s m e) (float_of_int (scale w)) = S754_finite s m' e' /\
                Z.pos m' < 2 ^ 24 /\ -149 <= e' <= e + fractionalBits w /\
                (-149 < e -> m' = m /\ e' = e + fractionalBits w).
Proof.
  intros Hv He. pose proof (fractionalBits_range w) as Hf.
  destruct (Z.lt_ge_cases (-149) e) as [Hn|Hsub].
  - destruct (valid_normal s m e Hv Hn) as [Hm _].
    exists m, (e + fractionalBits w). rewrite mul_scale_normal by (assumption || lia).
    repeat split; lia.
  - (* subnormal input *)
    pose proof Hv as Hv'. unfold valid_binary, bounded, canonical_mantissa in Hv'.
    apply andb_prop in Hv'. destruct Hv' as [Hc _]. apply Z.eqb_eq in Hc.
    rewrite fexp_val in Hc.
    change (Z.pos (digits2_pos m)) with (Zdigits2 (Z.pos m)) in Hc.
    pose proof (Zdigits2_bounds m) as Hdb.
    set (d := Zdigits2 (Z.pos m)) in *.
    assert (Hd : 0 < d) by (subst d; simpl; lia).
    assert (He149 : e = -149) by lia. subst e.
    assert (Hd24 : d <= 24) by lia.
    assert (Hsc : exists c, float_of_int (scale w) = S754_finite false 8388608 c /\
                            c + 23 = fractionalBits w).
    { destruct w; [exists (-19)|exists (-15)]; split; reflexivity. }
    destruct Hsc as [c [Hfl Hc']]. rewrite Hfl.
    unfold f32_mul, SFmul. rewrite xorb_false_r.
    rewrite Pos2Z.inj_mul. change (Z.pos 8388608) with (2 ^ 23).
    assert (HD : Zdigits2 (Z.pos m * 2 ^ 23) = d + 23) by (apply Zdigits2_shift; lia).
    set (n := Z.max (d - 1) (23 - fractionalBits w)).
    assert (Hn : fexp 24 128 (Zdigits2 (Z.pos m * 2 ^ 23) + (-149 + c)) - (-149 + c) = n).
    { rewrite HD, fexp_val. subst n. lia. }
    assert (Hn23 : 0 < n <= 23) by (subst n; lia).
    assert (Hsplit : Z.pos m * 2 ^ 23 = (Z.pos m * 2 ^ (23 - n)) * 2 ^ n).
    { rewrite <- Z.mul_assoc, <- Z.pow_add_r by lia. do 2 f_equal. lia. }
    assert (Hp : 0 < 2 ^ (23 - n)) by (apply Z.pow_pos_nonneg; lia).
    assert (Hr : rne (Z.pos m * 2 ^ 23) n = Z.pos m * 2 ^ (23 - n)).
    { rewrite Hsplit. apply rne_exact; nia. }
    assert (HD2 : Zdigits2 (Z.pos m * 2 ^ (23 - n)) = d + (23 - n))
      by (apply Zdigits2_shift; lia).
    exists (Z.to_pos (Z.pos m * 2 ^ (23 - n))), (-149 + c + n).
    rewrite binary_round_aux_shift_keep; rewrite ?Hn, ?Hr, ?HD2, ?fexp_val; try lia; try nia.
    split; [reflexivity|]. rewrite Z2Pos.id by nia.
    split; [|split; [subst n; lia|lia]].
    assert (Zdigits2 (Z.pos m * 2 ^ (23 - n)) <= 24) by (rewrite HD2; subst n; lia).
    destruct (Z.pos m * 2 ^ (23 - n)) as [|q|q] eqn:Hq; try nia.
    pose proof (Zdigits2_bounds q) as [_ Hub].
    assert (2 ^ Zdigits2 (Z.pos q) <= 2 ^ 24) by (apply Z.pow_le_mono_r; lia). lia.
Qed.

(** The sum or difference that the converter truncates, for a scaled value
    [m * 2^e] of magnitude below one half ([e <= -25]): it truncates to
    zero, unless the scaled value is the largest binary32 number below one
    half, for which the binary32 sum rounds up to one. *)
Lemma add_half_small (s : bool) (m : positive) (e : Z) :
  Z.pos m < 2 ^ 24 -> -149 <= e <= -25 ->
  trunc_float (if s then f32_sub (S754_finite true m e) (f32 1 (-1))
               else f32_add (S754_finite false m e) (f32 1 (-1))) =
  Some (cond_Zopp s (if (Z.pos m =? 2 ^ 24 - 1) && (e =? -25) then 1 else 0)).
Proof.
  intros Hm He.
  set (n := -24 - e).
  assert (Hndef : e = -24 - n) by (subst n; lia).
  assert (Hn : 1 <= n <= 125) by (subst n; lia).
  clearbody n.
  assert (HP : 2 <= 2 ^ n).
  { change 2 with (2 ^ 1) at 1. apply Z.pow_le_mono_r; lia. }
  set (M := Z.pos m + 2 ^ 23 * 2 ^ n).
  assert (HM : M = Z.pos (fst (shl_align m e e)) + Z.pos (fst (shl_align 8388608 (-24) e))).
  { rewrite !shl_align_fst by lia. subst M. rewrite Z.sub_diag, Z.pow_0_r.
    replace (-24 - e) with n by lia.
    change (Z.pos 8388608) with (2 ^ 23). lia. }
  assert (HM0 : 0 < M) by (subst M; lia).
  assert (Hsum : (if s then f32_sub (S754_finite true m e) (f32 1 (-1))
                  else f32_add (S754_finite false m e) (f32 1 (-1))) =
                 binary_round 24 128 s (Z.to_pos M) e).
  { change (f32 1 (-1)) with (S754_finite false 8388608 (-24)).
    destruct s; unfold f32_sub, f32_add, SFsub, SFadd;
      replace (Z.min e (-24)) with e by lia; unfold cond_Zopp.
    - replace (- Z.pos (fst (shl_align m e e)) - Z.pos (fst (shl_align 8388608 (-24) e)))
        with (- M) by lia.
      destruct M; try lia. reflexivity.
    - rewrite <- HM. destruct M; try lia. reflexivity. }
  rewrite Hsum. clear Hsum HM.
  assert (HMp : Z.pos (Z.to_pos M) = M) by (apply Z2Pos.id; exact HM0).
  assert (HD : Zdigits2 M = 24 + n).
  { apply Zdigits2_unique; [|exact HM0].
    replace (24 + n - 1) with (23 + n) by lia.
    rewrite !Z.pow_add_r by lia. subst M.
    change (2 ^ 24) with (2 * 2 ^ 23) in *. nia. }
  rewrite binary_round_no_align.
  2: { change (Z.pos (digits2_pos (Z.to_pos M))) with (Zdigits2 (Z.pos (Z.to_pos M))).
       rewrite HMp, HD, fexp_val. lia. }
  rewrite HMp.
  assert (Hn' : fexp 24 128 (Zdigits2 M + e) - e = n).
  { rewrite HD, fexp_val. lia. }
  pose proof (rne_normal M HM0 ltac:(lia)) as Hr.
  replace (Zdigits2 M - 24) with n in Hr by lia.
  rewrite trunc_binary_round_aux_shift; rewrite ?Hn'; try lia.
  replace (e + n) with (-24) by lia.
  do 2 f_equal. unfold trunc_dyadic. change (0 <=? -24) with false. cbv iota.
  change (2 ^ (- -24)) with (2 ^ 24).
  (* the rounded mantissa reaches [2^24] only in the special case *)
  clear Hr HD Hn' HMp.
  rewrite rne_spec by lia. cbv zeta. subst M.
  rewrite Z.div_add, Z_mod_plus_full by lia.
  pose proof (Z.div_mod (Z.pos m) (2 ^ n) ltac:(lia)) as Hdm.
  pose proof (Z.mod_pos_bound (Z.pos m) (2 ^ n) ltac:(lia)) as Hmb.
  assert (Hq0 : 0 <= Z.pos m / 2 ^ n) by (apply Z.div_pos; lia).
  set (q := Z.pos m / 2 ^ n) in *. set (r := Z.pos m mod 2 ^ n) in *.
  clearbody q r.
  change (2 ^ 24) with 16777216 in *. change (2 ^ 23) with 8388608 in *.
  destruct (Z.eqb_spec e (-25)) as [He25|He25].
  - (* one-bit shift *)
    assert (Hn1 : n = 1) by lia. rewrite Hn1 in *.
    change (2 ^ 1) with 2 in *. clear HP.
    destruct (Z.eqb_spec (Z.pos m) (16777216 - 1)) as [Hmax|Hmax]; simpl andb; cbv iota.
    + assert (q = 8388607) by lia. assert (r = 1) by lia. subst q r.
      reflexivity.
    + destruct (Z.ltb_spec (2 * r) 2); [apply Z.div_small; lia|].
      destruct (Z.eqb_spec (2 * r) 2); [|lia].
      destruct (Z.even (q + 8388608)) eqn:Hev; apply Z.div_small; lia.
  - rewrite andb_false_r.
    assert (Hn2 : 2 <= n) by lia.
    assert (HP4 : 4 <= 2 ^ n).
    { change 4 with (2 ^ 2). apply Z.pow_le_mono_r; lia. }
    assert (Hq : q < 4194304) by nia.
    destruct (_ <? _); [apply Z.div_small; lia|].
    destruct (_ =? _); [destruct (Z.even _)|]; apply Z.div_small; lia.
Qed.

(** For a normal scaled value [m * 2^e] with [1/2 <= m * 2^e < 2^23], the
    integral part of the binary32 sum with one half is the integral part
    of the exact sum. *)
Lemma truncated_sum_nearest (m : positive) (e : Z) :
  2 ^ 23 <= Z.pos m < 2 ^ 24 -> -24 <= e <= -1 ->
  let M := Z.pos m * 2 ^ (e + 24) + 2 ^ 23 in
  trunc_dyadic (rne M (Zdigits2 M - 24)) (Zdigits2 M - 24 - 24) =
  (Z.pos m + 2 ^ (- e - 1)) / 2 ^ (- e).
Proof.
  intros Hm He. cbv zeta.
  change (2 ^ 23) with 8388608 in Hm. change (2 ^ 24) with 16777216 in Hm.
  split_from e (-24); subst e;
    match goal with
    | |- context [2 ^ (?e0 + 24)] =>
        let k := eval compute in (e0 + 24) in
        let j := eval compute in (- e0) in
        let j1 := eval compute in (- e0 - 1) in
        change (e0 + 24) with k; change (- e0 - 1) with j1; change (- e0) with j;
        truncated_sum m k
    end.
Qed.

Lemma round_half_away_neg_exp (s : bool) (m : positive) (e : Z) :
  e < 0 ->
  round_half_away (cond_Zopp s (Z.pos m)) e =
  cond_Zopp s ((Z.pos m + 2 ^ (- e - 1)) / 2 ^ (- e)).
Proof.
  intros He. unfold round_half_away.
  replace (0 <=? e) with false by (symmetry; apply Z.leb_gt; lia).
  destruct s; simpl cond_Zopp.
  - change (Z.sgn (Z.neg m)) with (-1). change (Z.abs (Z.neg m)) with (Z.pos m).
    set (q := _ / _). clearbody q. lia.
  - change (Z.sgn (Z.pos m)) with 1. change (Z.abs (Z.pos m)) with (Z.pos m).
    set (q := _ / _). clearbody q. lia.
Qed.

Lemma round_half_away_small (m e : Z) :
  0 < m < 2 ^ 24 -> e <= -25 -> (m + 2 ^ (- e - 1)) / 2 ^ (- e) = 0.
Proof.
  intros Hm He. apply Z.div_small.
  assert (H24 : 2 ^ 24 <= 2 ^ (- e - 1)) by (apply Z.pow_le_mono_r; lia).
  assert (H2 : 2 ^ (- e) = 2 * 2 ^ (- e - 1)).
  { rewrite <- Z.pow_succ_r by lia. f_equal. lia. }
  lia.
Qed.

Lemma fits_zero (w : width) : fits_signed (scaled_bits w) 0 = true.
Proof. destruct w; reflexivity. Qed.

(** The rounding step on a finite input whose scaled magnitude is below
    [2^23], the two inputs [+/- below_half_lsb] apart. *)
Lemma rounded_scaled_nearest_finite (w : width) (s : bool) (m : positive) (e : Z) :
  valid_binary 24 128 (S754_finite s m e) = true ->
  e + fractionalBits w <= -1 ->
  S754_finite s m e <> below_half_lsb w -> S754_finite s m e <> SFopp (below_half_lsb w) ->
  let z := round_half_away (cond_Zopp s (Z.pos m)) (e + fractionalBits w) in
  rounded_scaled w (S754_finite s m e) =
  if fits_signed (scaled_bits w) z then Some z else None.
Proof.
  intros Hv Hfin Hne1 Hne2 z. subst z. pose proof (fractionalBits_range w) as Hf.
  rewrite round_half_away_neg_exp by lia.
  destruct (Z.le_gt_cases (-24) (e + fractionalBits w)) as [Hhi|Hlo].
  - (* scaled magnitude at least one half *)
    assert (He : -149 < e) by lia.
    destruct (valid_normal s m e Hv He) as [Hm _].
    rewrite rounded_scaled_normal by (assumption || lia). cbv zeta.
    rewrite (truncated_sum_nearest m (e + fractionalBits w) Hm) by lia.
    reflexivity.
  - (* scaled magnitude below one half *)
    destruct (mul_scale_valid w s m e Hv ltac:(lia)) as [m' [e' [Hmul [Hm' [He' Hnorm]]]]].
    assert (Hz : (Z.pos m + 2 ^ (- (e + fractionalBits w) - 1)) /
                 2 ^ (- (e + fractionalBits w)) = 0).
    { apply round_half_away_small; [|lia]. split; [lia|].
      exact (valid_mantissa_bound s m e Hv). }
    rewrite Hz. replace (cond_Zopp s 0) with 0 by (destruct s; reflexivity).
    rewrite fits_zero.
    unfold rounded_scaled. rewrite Hmul.
    assert (Hge : f32_ge (S754_finite s m' e') (S754_zero false) = negb s)
      by (destruct s; reflexivity).
    rewrite Hge.
    assert (Hsum : (if negb s
                    then float_to_sint (scaled_bits w) (f32_add (S754_finite s m' e') (f32 1 (-1)))
                    else float_to_sint (scaled_bits w) (f32_sub (S754_finite s m' e') (f32 1 (-1)))) =
                   float_to_sint (scaled_bits w)
                     (if s then f32_sub (S754_finite true m' e') (f32 1 (-1))
                      else f32_add (S754_finite false m' e') (f32 1 (-1))))
      by (destruct s; reflexivity).
    rewrite Hsum. unfold float_to_sint.
    rewrite add_half_small by lia.
    assert (Hspecial : (Z.pos m' =? 2 ^ 24 - 1) && (e' =? -25) = false).
    { apply andb_false_iff.
      destruct (Z.eqb_spec (Z.pos m') (2 ^ 24 - 1)) as [Hm1|]; [|left; reflexivity].
      destruct (Z.eqb_spec e' (-25)) as [He1|]; [|right; reflexivity].
      exfalso.
      assert (Hen : -149 < e) by lia.
      destruct (Hnorm Hen) as [-> ->].
      assert (Hmv : m = 16777215%positive) by (simpl in Hm1; lia).
      assert (Hev : e = -25 - fractionalBits w) by lia.
      subst m e. destruct s; [apply Hne2|apply Hne1]; reflexivity. }
    rewrite Hspecial. replace (cond_Zopp s 0) with 0 by (destruct s; reflexivity).
    cbv [bind]. rewrite fits_zero. reflexivity.
Qed.

(** X1.  The converter's rounding, on every input whose scaled magnitude
    is below [2^23]: apart from the two inputs [+/- below_half_lsb], the
    rounded scaled value is the exact scaled value rounded to nearest with
    ties away from zero, provided that integer fits the integer type it is
    converted to (always so for 16 bit). *)
Theorem converter_rounds_to_nearest (w : width) (x : float) :
  valid_binary 24 128 x = true ->
  match x with
  | S754_zero _ => True
  | S754_finite _ _ e => e + fractionalBits w <= -1
  | _ => False
  end ->
  x <> below_half_lsb w -> x <> SFopp (below_half_lsb w) ->
  exists z, nearest_scaled w x = Some z /\
            rounded_scaled w x = if fits_signed (scaled_bits w) z then Some z else None.
Proof.
  intros Hv Hfin Hne1 Hne2.
  destruct x as [sx|sx| |s m e]; try contradiction.
  - exists 0. split; [reflexivity|]. rewrite fits_zero. destruct w, sx; reflexivity.
  - exists (round_half_away (cond_Zopp s (Z.pos m)) (e + fractionalBits w)).
    split; [reflexivity|].
    exact (rounded_scaled_nearest_finite w s m e Hv Hfin Hne1 Hne2).
Qed.

Lemma converter_rounds_to_nearest_witness :
  let x := S754_finite false 13172736 (-17) in
  valid_binary 24 128 x = true /\ x <> below_half_lsb W16 /\ x <> SFopp (below_half_lsb W16) /\
  exists z, nearest_scaled W16 x = Some z /\
            rounded_scaled W16 x = if fits_signed (scaled_bits W16) z then Some z else None.
Proof.
  cbv zeta.
  assert (Hv : valid_binary 24 128 (S754_finite false 13172736 (-17)) = true) by reflexivity.
  assert (He : -17 + fractionalBits W16 <= -1) by (vm_compute; discriminate).
  assert (Hn1 : S754_finite false 13172736 (-17) <> below_half_lsb W16) by discriminate.
  assert (Hn2 : S754_finite false 13172736 (-17) <> SFopp (below_half_lsb W16)) by discriminate.
  split; [exact Hv|split; [exact Hn1|split; [exact Hn2|]]].
  exact (converter_rounds_to_nearest W16 (S754_finite false 13172736 (-17)) Hv He Hn1 Hn2).
Defined.

Lemma in_container_zero (w : width) : in_container w 0.
Proof. destruct w; split; discriminate. Qed.

Lemma small_input_rounds_to_zero (w : width) (x : float) :
  valid_binary 24 128 x = true ->
  SFltb (SFabs x) (f32 1 (-1 - fractionalBits w)) = true ->
  x <> below_half_lsb w -> x <> SFopp (below_half_lsb w) ->
  rounded_scaled w x = Some 0.
Proof.
  intros Hv Hlt Hne1 Hne2. pose proof (fractionalBits_range w) as Hf.
  assert (Hhalf : f32 1 (-1 - fractionalBits w) =
                  S754_finite false 8388608 (-24 - fractionalBits w))
    by (destruct w; reflexivity).
  rewrite Hhalf in Hlt.
  destruct x as [sx|sx| |s m e]; try discriminate.
  - destruct w, sx; reflexivity.
  - assert (He : e + fractionalBits w <= -25).
    { simpl SFabs in Hlt. apply SFltb_finite_pos in Hlt.
      destruct Hlt as [Hlt|[He Hm]]; [lia|].
      assert (Hen : -149 < e) by lia.
      destruct (valid_normal s m e Hv Hen) as [Hm' _]. simpl in Hm'. lia. }
    rewrite rounded_scaled_nearest_finite by (assumption || lia). cbv zeta.
    rewrite round_half_away_neg_exp by lia.
    rewrite round_half_away_small;
      [|split; [lia|exact (valid_mantissa_bound s m e Hv)]|lia].
    replace (cond_Zopp s 0) with 0 by (destruct s; reflexivity).
    rewrite fits_zero. reflexivity.
Qed.

(** X2.  Precision underflow: an input of magnitude below half a
    resolution step converts to raw zero with [E_OK], the one exception
    being [+/- below_half_lsb]. *)
Theorem below_half_step_converts_to_zero (w : width) (x : float) (old : option Z) :
  valid_binary 24 128 x = true ->
  SFltb (SFabs x) (f32 1 (-1 - fractionalBits w)) = true ->
  x <> below_half_lsb w -> x <> SFopp (below_half_lsb w) ->
  FloatToFix w x (Ref old) = Some (E_OK, Ref (Some 0)).
Proof.
  intros Hv Hlt Hne1 Hne2.
  apply FloatToFix_in_range; [|apply in_container_zero].
  apply small_input_rounds_to_zero; assumption.
Qed.

Lemma below_half_step_converts_to_zero_witness :
  let x := f32 (-49) (-15) in
  valid_binary 24 128 x = true /\
  SFltb (SFabs x) (f32 1 (-1 - fractionalBits W16)) = true /\
  FloatToFix W16 x (Ref None) = Some (E_OK, Ref (Some 0)).
Proof.
  cbv zeta.
  assert (Hv : valid_binary 24 128 (f32 (-49) (-15)) = true) by reflexivity.
  assert (Hlt : SFltb (SFabs (f32 (-49) (-15))) (f32 1 (-1 - fractionalBits W16)) = true)
    by reflexivity.
  assert (Hn1 : f32 (-49) (-15) <> below_half_lsb W16) by (vm_compute; discriminate).
  assert (Hn2 : f32 (-49) (-15) <> SFopp (below_half_lsb W16)) by (vm_compute; discriminate).
  split; [exact Hv|split; [exact Hlt|]].
  exact (below_half_step_converts_to_zero W16 (f32 (-49) (-15)) None Hv Hlt Hn1 Hn2).
Defined.

(** X3.  A divisor of magnitude below half a resolution step is a division
    by zero for the public Div wrappers, although it is not zero:
    [E_NOT_OK] is returned and the output slot is left as it was
    ([+/- below_half_lsb] excepted). *)
Theorem tiny_divisor_is_division_by_zero (w : width) (val1 val2 : float)
    (old : option float) :
  valid_binary 24 128 val2 = true ->
  SFltb (SFabs val2) (f32 1 (-1 - fractionalBits w)) = true ->
  val2 <> below_half_lsb w -> val2 <> SFopp (below_half_lsb w) ->
  Div w val1 val2 (Ref old) = Some (E_NOT_OK, Ref old).
Proof.
  intros Hv Hlt Hne1 Hne2.
  rewrite Div_unfold, FloatToFix_rounded.
  rewrite (small_input_rounds_to_zero w val2 Hv Hlt Hne1 Hne2).
  destruct w; reflexivity.
Qed.

Lemma tiny_divisor_is_division_by_zero_witness :
  let tiny := f32 1 (-6) in
  valid_binary 24 128 tiny = true /\
  SFltb (SFabs tiny) (f32 1 (-1 - fractionalBits W8)) = true /\
  Div W8 (f32 3 0) tiny (Ref (Some (f32 77 0))) = Some (E_NOT_OK, Ref (Some (f32 77 0))).
Proof.
  cbv zeta.
  assert (Hv : valid_binary 24 128 (f32 1 (-6)) = true) by reflexivity.
  assert (Hlt : SFltb (SFabs (f32 1 (-6))) (f32 1 (-1 - fractionalBits W8)) = true)
    by reflexivity.
  assert (Hn1 : f32 1 (-6) <> below_half_lsb W8) by (vm_compute; discriminate).
  assert (Hn2 : f32 1 (-6) <> SFopp (below_half_lsb W8)) by (vm_compute; discriminate).
  split; [exact Hv|split; [exact Hlt|]].
  exact (tiny_divisor_is_division_by_zero W8 (f32 3 0) (f32 1 (-6)) (Some (f32 77 0))
           Hv Hlt Hn1 Hn2).
Defined.

(** ** In-range inputs convert to the nearest raw value *)

Lemma half_away_magnitude (m k B : Z) :
  0 < m -> 1 <= k -> m + 2 ^ (k - 1) < (B + 1) * 2 ^ k ->
  0 <= (m + 2 ^ (k - 1)) / 2 ^ k <= B.
Proof.
  intros Hm Hk Hb.
  assert (Hp : 0 < 2 ^ k) by (apply Z.pow_pos_nonneg; lia).
  assert (Hh : 0 <= 2 ^ (k - 1)) by (apply Z.pow_nonneg; lia).
  split; [apply Z.div_pos; lia|].
  assert ((m + 2 ^ (k - 1)) / 2 ^ k < B + 1); [|lia].
  apply Z.div_lt_upper_bound; lia.
Qed.

Lemma pow2_split (k : Z) : 1 <= k -> 2 ^ k = 2 * 2 ^ (k - 1).
Proof. intros Hk. rewrite <- Z.pow_succ_r by lia. f_equal. lia. Qed.

Lemma pow2_ge (j k : Z) : 0 <= j <= k -> 2 ^ j <= 2 ^ k.
Proof. intros H. apply Z.pow_le_mono_r; lia. Qed.

Lemma SFleb_finite_pos (m2 : positive) (e2 : Z) (m : positive) (e : Z) :
  SFleb (S754_finite false m e) (S754_finite false m2 e2) = true ->
  e < e2 \/ (e = e2 /\ Z.pos m <= Z.pos m2).
Proof.
  intros H. destruct (SFleb_pos_finite m e false m2 e2 H) as [_ [Hlt|[He Hm]]]; lia.
Qed.

Lemma SFleb_neg_finite (m1 : positive) (e1 : Z) (m : positive) (e : Z) :
  SFleb (S754_finite true m1 e1) (S754_finite true m e) = true ->
  e < e1 \/ (e = e1 /\ Z.pos m <= Z.pos m1).
Proof.
  intros H. destruct (SFleb_finite_neg m e true m1 e1 H) as [_ [Hlt|[He Hm]]]; lia.
Qed.

Lemma round_half_away_rescale (m e : Z) :
  e < 0 -> round_half_away m e = rescale_product (- e) m.
Proof.
  intros He. unfold round_half_away, rescale_product.
  replace (0 <=? e) with false by (symmetry; apply Z.leb_gt; lia).
  rewrite Z.shiftr_div_pow2, Z.shiftl_1_l by lia. reflexivity.
Qed.

(** Between [MIN_REAL] and [MAX_REAL] the scaled magnitude is below
    [2^23] and its nearest integer is in the container. *)
Lemma in_range_nearest (w : width) (s : bool) (m : positive) (e : Z) :
  valid_binary 24 128 (S754_finite s m e) = true ->
  SFleb (FixToFloat w (MIN w)) (S754_finite s m e) = true ->
  SFleb (S754_finite s m e) (FixToFloat w (MAX w)) = true ->
  e + fractionalBits w <= -1 /\
  in_container w (round_half_away (cond_Zopp s (Z.pos m)) (e + fractionalBits w)).
Proof.
  intros Hv Hlo Hhi.
  pose proof (valid_mantissa_bound s m e Hv) as Hm.
  change (2 ^ 24) with 16777216 in Hm.
  assert (Hmain : e + fractionalBits w <= -1 /\
            (e + fractionalBits w <= -1 ->
             let q := (Z.pos m + 2 ^ (- (e + fractionalBits w) - 1)) /
                      2 ^ (- (e + fractionalBits w)) in
             0 <= q /\ if s then q <= - MIN w else q <= MAX w)).
  { destruct w, s.
    - change (FixToFloat W8 (MIN W8)) with (S754_finite true 8388608 (-20)) in Hlo.
      apply SFleb_neg_finite in Hlo. change (fractionalBits W8) with 4.
      split; [lia|]. intros Hk. cbv zeta. set (k := - (e + 4)).
      assert (Hk1 : 1 <= k) by (subst k; lia).
      pose proof (pow2_split k Hk1) as H2.
      change (- MIN W8) with 128.
      apply half_away_magnitude; [lia|lia|].
      destruct Hlo as [He|[He Hm']].
      + assert (65536 <= 2 ^ (k - 1))
          by (change 65536 with (2 ^ 16); apply pow2_ge; subst k; lia).
        lia.
      + assert (Hk' : k = 16) by (subst k; lia). rewrite Hk'.
        change (2 ^ (16 - 1)) with 32768. change (2 ^ 16) with 65536. lia.
    - change (FixToFloat W8 (MAX W8)) with (S754_finite false 16646144 (-21)) in Hhi.
      apply SFleb_finite_pos in Hhi. change (fractionalBits W8) with 4.
      split; [lia|]. intros Hk. cbv zeta. set (k := - (e + 4)).
      assert (Hk1 : 1 <= k) by (subst k; lia).
      pose proof (pow2_split k Hk1) as H2.
      change (MAX W8) with 127.
      apply half_away_magnitude; [lia|lia|].
      destruct Hhi as [He|[He Hm']].
      + assert (131072 <= 2 ^ (k - 1))
          by (change 131072 with (2 ^ 17); apply pow2_ge; subst k; lia).
        lia.
      + assert (Hk' : k = 17) by (subst k; lia). rewrite Hk'.
        change (2 ^ (17 - 1)) with 65536. change (2 ^ 17) with 131072. lia.
    - change (FixToFloat W16 (MIN W16)) with (S754_finite true 8388608 (-16)) in Hlo.
      apply SFleb_neg_finite in Hlo. change (fractionalBits W16) with 8.
      split; [lia|]. intros Hk. cbv zeta. set (k := - (e + 8)).
      assert (Hk1 : 1 <= k) by (subst k; lia).
      pose proof (pow2_split k Hk1) as H2.
      change (- MIN W16) with 32768.
      apply half_away_magnitude; [lia|lia|].
      destruct Hlo as [He|[He Hm']].
      + assert (256 <= 2 ^ (k - 1))
          by (change 256 with (2 ^ 8); apply pow2_ge; subst k; lia).
        lia.
      + assert (Hk' : k = 8) by (subst k; lia). rewrite Hk'.
        change (2 ^ (8 - 1)) with 128. change (2 ^ 8) with 256. lia.
    - change (FixToFloat W16 (MAX W16)) with (S754_finite false 16776704 (-17)) in Hhi.
      apply SFleb_finite_pos in Hhi. change (fractionalBits W16) with 8.
      split; [lia|]. intros Hk. cbv zeta. set (k := - (e + 8)).
      assert (Hk1 : 1 <= k) by (subst k; lia).
      pose proof (pow2_split k Hk1) as H2.
      change (MAX W16) with 32767.
      apply half_away_magnitude; [lia|lia|].
      destruct Hhi as [He|[He Hm']].
      + assert (512 <= 2 ^ (k - 1))
          by (change 512 with (2 ^ 9); apply pow2_ge; subst k; lia).
        lia.
      + assert (Hk' : k = 9) by (subst k; lia). rewrite Hk'.
        change (2 ^ (9 - 1)) with 256. change (2 ^ 9) with 512. lia. }
  destruct Hmain as [Hk Hq]. split; [exact Hk|].
  specialize (Hq Hk). cbv zeta in Hq.
  rewrite round_half_away_neg_exp by lia.
  set (q := _ / _) in *. clearbody q.
  unfold in_container. destruct w, s; unfold cond_Zopp; cbv [MIN MAX] in *;
    rewrite ?FIX16_MAX_val, ?FIX16_MIN_val, ?FIX8_MAX_val, ?FIX8_MIN_val in *; lia.
Qed.

(** X4.  Every binary32 input between [MIN_REAL] and [MAX_REAL] (both
    included, [+/- below_half_lsb] excepted) converts with [E_OK], and the
    raw value stored is the input times [2^fractionalBits] rounded to
    nearest, ties away from zero: the quantisation error is at most half a
    resolution step. *)
Theorem in_range_converts_to_nearest (w : width) (x : float) (old : option Z) :
  valid_binary 24 128 x = true ->
  SFleb (FixToFloat w (MIN w)) x = true -> SFleb x (FixToFloat w (MAX w)) = true ->
  x <> below_half_lsb w -> x <> SFopp (below_half_lsb w) ->
  exists z, FloatToFix w x (Ref old) = Some (E_OK, Ref (Some z)) /\ within_half_step w x z.
Proof.
  intros Hv Hlo Hhi Hne1 Hne2.
  destruct x as [sx|sx| |s m e].
  - exists 0. split; [destruct w, sx; reflexivity|reflexivity].
  - destruct w, sx; discriminate.
  - destruct w; discriminate.
  - destruct (in_range_nearest w s m e Hv Hlo Hhi) as [Hk Hc].
    pose proof (rounded_scaled_nearest_finite w s m e Hv Hk Hne1 Hne2) as Hr.
    cbv zeta in Hr. set (z := round_half_away _ _) in *.
    exists z. split.
    + apply FloatToFix_in_range; [|exact Hc].
      rewrite Hr. replace (fits_signed (scaled_bits w) z) with true; [reflexivity|].
      symmetry. clearbody z. unfold in_container, fits_signed in *.
      destruct w; cbv [MIN MAX scaled_bits] in *;
        rewrite ?FIX16_MAX_val, ?FIX16_MIN_val, ?FIX8_MAX_val, ?FIX8_MIN_val in *;
        apply andb_true_intro; (split; [apply Z.leb_le|apply Z.ltb_lt]); simpl; lia.
    + unfold within_half_step. split; [lia|].
      subst z. rewrite round_half_away_rescale by lia.
      apply rescale_product_nearest. lia.
Qed.

Lemma in_range_converts_to_nearest_witness :
  let x := S754_finite false 11744051 (-21) in
  valid_binary 24 128 x = true /\
  SFleb (FixToFloat W8 (MIN W8)) x = true /\ SFleb x (FixToFloat W8 (MAX W8)) = true /\
  exists z, FloatToFix W8 x (Ref None) = Some (E_OK, Ref (Some z)) /\ within_half_step W8 x z.
Proof.
  cbv zeta.
  assert (Hv : valid_binary 24 128 (S754_finite false 11744051 (-21)) = true) by reflexivity.
  assert (Hlo : SFleb (FixToFloat W8 (MIN W8)) (S754_finite false 11744051 (-21)) = true)
    by reflexivity.
  assert (Hhi : SFleb (S754_finite false 11744051 (-21)) (FixToFloat W8 (MAX W8)) = true)
    by reflexivity.
  assert (Hn1 : S754_finite false 11744051 (-21) <> below_half_lsb W8) by discriminate.
  assert (Hn2 : S754_finite false 11744051 (-21) <> SFopp (below_half_lsb W8)) by discriminate.
  split; [exact Hv|split; [exact Hlo|split; [exact Hhi|]]].
  exact (in_range_converts_to_nearest W8 (S754_finite false 11744051 (-21)) None
           Hv Hlo Hhi Hn1 Hn2).
Defined.

(** ** Where the conversions are defined *)

Lemma below_half_lsb_dec (w : width) (s : bool) (m : positive) (e : Z) :
  {S754_finite s m e = below_half_lsb w \/ S754_finite s m e = SFopp (below_half_lsb w)} +
  {S754_finite s m e <> below_half_lsb w /\ S754_finite s m e <> SFopp (below_half_lsb w)}.
Proof.
  unfold below_half_lsb.
  change (SFopp (S754_finite false 16777215 (-25 - fractionalBits w)))
    with (S754_finite true 16777215 (-25 - fractionalBits w)).
  destruct (Pos.eq_dec m 16777215) as [->|Hm];
    [destruct (Z.eq_dec e (-25 - fractionalBits w)) as [->|He]|].
  - left. destruct s; [right|left]; reflexivity.
  - right. split; congruence.
  - right. split; congruence.
Qed.

Lemma rounded_scaled_defined (w : width) (x : float) :
  in_domain w x -> exists z, rounded_scaled w x = Some z.
Proof.
  intros [Hv [Hlo Hhi]]. pose proof (fractionalBits_range w) as Hf.
  destruct x as [sx|sx| |s m e].
  - exists 0. destruct w, sx; reflexivity.
  - destruct w, sx; discriminate.
  - destruct w; discriminate.
  - destruct (below_half_lsb_dec w s m e) as [[Heq|Heq]|[Hne1 Hne2]].
    + rewrite Heq. exists 1. destruct w; reflexivity.
    + rewrite Heq. exists (-1). destruct w; reflexivity.
    + pose proof (valid_mantissa_bound s m e Hv) as Hm.
      change (2 ^ 24) with 16777216 in Hm.
      destruct (Z.le_gt_cases (e + fractionalBits w) (-1)) as [Hsmall|Hbig].
      * pose proof (rounded_scaled_nearest_finite w s m e Hv Hsmall Hne1 Hne2) as Hr.
        cbv zeta in Hr. eexists. rewrite Hr.
        replace (fits_signed (scaled_bits w) _) with true; [reflexivity|].
        symmetry.
        rewrite round_half_away_neg_exp by lia.
        set (k := - (e + fractionalBits w)) in *.
        assert (Hk : 1 <= k) by (subst k; lia).
        pose proof (pow2_split k Hk) as H2.
        assert (Hh : 1 <= 2 ^ (k - 1)).
        { change 1 with (2 ^ 0) at 1. apply pow2_ge. lia. }
        unfold fits_signed. apply andb_true_intro.
        destruct w.
        -- (* 8 bit: the bounds of the domain keep the magnitude within sint16 *)
           change (scaled_bits W8) with 16. change (2 ^ (16 - 1)) with 32768.
           change (fractionalBits W8) with 4 in *.
           destruct s; unfold cond_Zopp.
           ++ change (defined_above W8) with (S754_finite true 8388736 (-12)) in Hlo.
              apply SFltb_neg_finite in Hlo.
              assert (HB : 0 <= (Z.pos m + 2 ^ (k - 1)) / 2 ^ k <= 32768).
              { apply half_away_magnitude; [lia|lia|].
                destruct Hlo as [He|[He Hm']].
                - assert (256 <= 2 ^ (k - 1)).
                  { change 256 with (2 ^ 8). apply pow2_ge. subst k. lia. }
                  lia.
                - assert (Hk8 : k = 8) by (subst k; lia). rewrite Hk8.
                  change (2 ^ (8 - 1)) with 128. change (2 ^ 8) with 256. lia. }
              split; [apply Z.leb_le|apply Z.ltb_lt]; lia.
           ++ change (defined_below W8) with (S754_finite false 16776960 (-13)) in Hhi.
              apply SFltb_finite_pos in Hhi.
              assert (HB : 0 <= (Z.pos m + 2 ^ (k - 1)) / 2 ^ k <= 32767).
              { apply half_away_magnitude; [lia|lia|].
                destruct Hhi as [He|[He Hm']].
                - assert (512 <= 2 ^ (k - 1)).
                  { change 512 with (2 ^ 9). apply pow2_ge. subst k. lia. }
                  lia.
                - assert (Hk9 : k = 9) by (subst k; lia). rewrite Hk9.
                  change (2 ^ (9 - 1)) with 256. change (2 ^ 9) with 512. lia. }
              split; [apply Z.leb_le|apply Z.ltb_lt]; lia.
        -- change (scaled_bits W16) with 32. change (2 ^ (32 - 1)) with 2147483648.
           assert (HB : 0 <= (Z.pos m + 2 ^ (k - 1)) / 2 ^ k <= 16777216).
           { apply half_away_magnitude; lia. }
           destruct s; unfold cond_Zopp;
             split; [apply Z.leb_le|apply Z.ltb_lt|apply Z.leb_le|apply Z.ltb_lt]; lia.
      * (* scaled magnitude of at least [2^23]: 16 bit only, and saturating *)
        destruct w.
        -- exfalso. change (fractionalBits W8) with 4 in *. destruct s.
           ++ change (defined_above W8) with (S754_finite true 8388736 (-12)) in Hlo.
              apply SFltb_neg_finite in Hlo. lia.
           ++ change (defined_below W8) with (S754_finite false 16776960 (-13)) in Hhi.
              apply SFltb_finite_pos in Hhi. lia.
        -- change (fractionalBits W16) with 8 in *. destruct s.
           ++ assert (Hle : SFleb (S754_finite true m e) (saturates_down_from W16) = true).
              { change (saturates_down_from W16) with (S754_finite true 8388736 (-16)).
                unfold SFleb, SFcompare.
                destruct (Z.compare_spec e (-16)); (reflexivity || lia). }
              destruct (rounds_below_MIN_16 _ Hv Hle Hlo) as [z [Hz _]].
              exists z. exact Hz.
           ++ assert (Hle : SFleb (saturates_from W16) (S754_finite false m e) = true).
              { change (saturates_from W16) with (S754_finite false 16776960 (-17)).
                unfold SFleb, SFcompare.
                destruct (Z.compare_spec (-17) e); (reflexivity || lia). }
              destruct (rounds_above_MAX_16 _ Hv Hle Hhi) as [z [Hz _]].
              exists z. exact Hz.
Qed.

(** ** The public division, unfolded to its closed form *)

(** X5.  A public Div wrapper called with a non-null output slot converts
    the divisor first; when it converts to raw zero the call returns
    [E_NOT_OK] with the slot untouched; otherwise the dividend is
    converted, the core divide runs on a non-zero divisor (so it never
    divides by zero), the converted-back quotient is written, and the
    status is [E_NOT_OK] exactly when one of the two conversions or the
    core clamped. *)
Theorem div_wrapper_status_iff_clamped (w : width) (val1 val2 : float) (old : option float) :
  Div w val1 val2 (Ref old) =
  z2 <- rounded_scaled w val2 ;;
  let b := clamp (MIN w) (MAX w) z2 in
  if b =? 0 then Some (E_NOT_OK, Ref old)
  else
    z1 <- rounded_scaled w val1 ;;
    let a := clamp (MIN w) (MAX w) z1 in
    let q := scaled_quotient (fractionalBits w) a b in
    Some (if clamped w z1 || clamped w z2 || clamped w q then E_NOT_OK else E_OK,
          Ref (Some (FixToFloat w (clamp (MIN w) (MAX w) q)))).
Proof.
  rewrite Div_unfold, FloatToFix_rounded.
  destruct (rounded_scaled w val2) as [z2|]; [|reflexivity].
  cbv [bind deref]. cbv zeta.
  destruct (Z.eqb_spec (clamp (MIN w) (MAX w) z2) 0) as [Hz|Hnz]; simpl negb; cbv iota;
    [reflexivity|].
  rewrite FloatToFix_rounded.
  destruct (rounded_scaled w val1) as [z1|]; [|reflexivity].
  cbv [bind]. cbv zeta.
  rewrite Div_Core_quotient by (apply in_container_clamp || exact Hnz).
  cbv zeta. unfold clamped, all_ok.
  repeat match goal with |- context [clamp ?lo ?hi ?x =? ?y] =>
    destruct (Z.eqb (clamp lo hi x) y) end; reflexivity.
Qed.

(** X6.  No undefined behaviour on the engine's input domain: for every
    binary32 operand strictly between -8388609 and 8388608 (16 bit), or
    strictly between -2048.03125 and 2047.96875 (8 bit), the converter
    returns a status and stores a raw value, and each public Add, Sub, Mult
    and Div called with a non-null slot returns a status. *)
Theorem operations_defined_on_domain (w : width) (x y : float)
    (old : option float) (oldraw : option Z) :
  in_domain w x -> in_domain w y ->
  (exists st raw, FloatToFix w x (Ref oldraw) = Some (st, Ref (Some raw))) /\
  (forall op, exists st r, Wrapper w op x y (Ref old) = Some (st, Ref (Some r))) /\
  (exists st r', Div w x y (Ref old) = Some (st, r')).
Proof.
  intros Hx Hy.
  destruct (rounded_scaled_defined w x Hx) as [z1 H1].
  destruct (rounded_scaled_defined w y Hy) as [z2 H2].
  split; [|split].
  - rewrite FloatToFix_rounded, H1. cbv [bind]. eexists. eexists. reflexivity.
  - intros op. rewrite Wrapper_unfold, !FloatToFix_rounded, H1, H2.
    cbv [bind deref]. cbv zeta.
    rewrite core_exact_then_clamps by apply in_container_clamp.
    eexists. eexists. reflexivity.
  - rewrite Div_unfold, FloatToFix_rounded, H2. cbv [bind deref]. cbv zeta.
    destruct (Z.eqb_spec (clamp (MIN w) (MAX w) z2) 0) as [Hz|Hnz]; simpl negb; cbv iota;
      [eexists; eexists; reflexivity|].
    rewrite FloatToFix_rounded, H1. cbv [bind]. cbv zeta.
    rewrite Div_Core_quotient by (apply in_container_clamp || exact Hnz).
    cbv zeta. eexists. eexists. reflexivity.
Qed.

Lemma operations_defined_on_domain_witness :
  in_domain W8 (f32 (-2048) 0) /\ in_domain W8 (f32 3 (-1)) /\
  exists st r', Div W8 (f32 (-2048) 0) (f32 3 (-1)) (Ref None) = Some (st, r').
Proof.
  assert (Hx : in_domain W8 (f32 (-2048) 0)) by (repeat split; reflexivity).
  assert (Hy : in_domain W8 (f32 3 (-1))) by (repeat split; reflexivity).
  split; [exact Hx|split; [exact Hy|]].
  exact (proj2 (proj2 (operations_defined_on_domain W8 (f32 (-2048) 0) (f32 3 (-1))
                         None None Hx Hy))).
Defined.

(** ** Operands that are not numbers *)

Lemma rounded_scaled_not_finite (w : width) (x : float) :
  not_a_number_or_infinite x = true -> rounded_scaled w x = None.
Proof.
  destruct x as [s|s| |s m e]; try discriminate; intros _;
    destruct w; try destruct s; reflexivity.
Qed.

(** X7.  The engine does not guard against NaN and infinities: converting
    one is a float-to-integer conversion of a value that does not fit, so
    the converter, and each public Add, Sub and Mult with such an operand
    on either side and a non-null slot, has undefined behaviour; so has Div
    with such a divisor, and with such a dividend unless the divisor
    converts to raw zero. *)
Theorem non_finite_operand_is_undefined (w : width) (op : operator) (x y : float)
    (old : option float) (oldraw : option Z) :
  not_a_number_or_infinite x = true ->
  FloatToFix w x (Ref oldraw) = None /\
  Wrapper w op x y (Ref old) = None /\
  Wrapper w op y x (Ref old) = None /\
  Div w y x (Ref old) = None /\
  (forall st b, FloatToFix w y (Ref None) = Some (st, Ref (Some b)) -> b <> 0 ->
     Div w x y (Ref old) = None).
Proof.
  intros Hx. pose proof (rounded_scaled_not_finite w x Hx) as Hr.
  split; [rewrite FloatToFix_rounded, Hr; reflexivity|].
  split; [rewrite Wrapper_unfold, FloatToFix_rounded, Hr; reflexivity|].
  split.
  { rewrite Wrapper_unfold, !FloatToFix_rounded, Hr.
    destruct (rounded_scaled w y); reflexivity. }
  split.
  - rewrite Div_unfold, FloatToFix_rounded, Hr. reflexivity.
  - intros st b Hy Hb. rewrite Div_unfold, Hy. cbv [bind deref].
    replace (negb (b =? 0)) with true by (symmetry; apply negb_true_iff, Z.eqb_neq; exact Hb).
    rewrite FloatToFix_rounded, Hr. reflexivity.
Qed.

Lemma non_finite_operand_is_undefined_witness :
  not_a_number_or_infinite (S754_infinity true) = true /\
  Wrapper W16 OpAdd (f32 1 0) (S754_infinity true) (Ref None) = None.
Proof.
  assert (H : not_a_number_or_infinite (S754_infinity true) = true) by reflexivity.
  split; [exact H|].
  exact (proj1 (proj2 (proj2 (non_finite_operand_is_undefined W16 OpAdd
                                (S754_infinity true) (f32 1 0) None None H)))).
Defined.

(** ** A null output pointer *)

(** X8.  With a null output pointer every public operation, either
    converter and every core operation returns [E_NOT_OK] and does nothing
    else: no operand is converted (so the call is defined whatever the
    operands are) and the core divide does not divide, even by zero. *)
Theorem null_output_is_refused (w : width) (val1 val2 : float) (a b : Z) :
  Add w val1 val2 NULL = Some (E_NOT_OK, NULL) /\
  Sub w val1 val2 NULL = Some (E_NOT_OK, NULL) /\
  Mult w val1 val2 NULL = Some (E_NOT_OK, NULL) /\
  Div w val1 val2 NULL = Some (E_NOT_OK, NULL) /\
  FloatToFix w val1 NULL = Some (E_NOT_OK, NULL) /\
  Add_Core w a b NULL = (E_NOT_OK, NULL) /\
  Sub_Core w a b NULL = (E_NOT_OK, NULL) /\
  Mult_Core w a b NULL = (E_NOT_OK, NULL) /\
  Div_Core w a b NULL = Some (E_NOT_OK, NULL).
Proof. destruct w; repeat split; reflexivity. Qed.

(** ** Core add and subtract: saturating arithmetic *)

Lemma clamped_in_range (w : width) (z : Z) : clamped w z = negb (in_range w z).
Proof.
  unfold clamped, in_range, clamp. pose proof (MIN_le_MAX w).
  destruct (Z.eqb_spec (Z.max (MIN w) (Z.min (MAX w) z)) z),
           (Z.leb_spec (MIN w) z), (Z.leb_spec z (MAX w)); simpl; try reflexivity; lia.
Qed.

(** X9.  For raw operands of the container's range and a non-null result
    pointer, the core add stores the exact sum [a + b] clamped to
    [MIN, MAX] and the core subtract the exact difference [a - b] clamped
    to [MIN, MAX]; the status is [E_OK] exactly when the sum or difference
    is in the range.  The wider intermediate never wraps. *)
Theorem add_sub_core_saturating (w : width) (a b : Z) (old : option Z) :
  in_container w a -> in_container w b ->
  Add_Core w a b (Ref old) =
    (if in_range w (a + b) then E_OK else E_NOT_OK,
     Ref (Some (clamp (MIN w) (MAX w) (a + b)))) /\
  Sub_Core w a b (Ref old) =
    (if in_range w (a - b) then E_OK else E_NOT_OK,
     Ref (Some (clamp (MIN w) (MAX w) (a - b)))).
Proof.
  intros Ha Hb. split.
  - rewrite (core_exact_then_clamps w OpAdd a b old Ha Hb), clamped_in_range.
    cbv [core_exact]. destruct (in_range w (a + b)); reflexivity.
  - rewrite (core_exact_then_clamps w OpSub a b old Ha Hb), clamped_in_range.
    cbv [core_exact]. destruct (in_range w (a - b)); reflexivity.
Qed.

Lemma add_sub_core_saturating_witness :
  in_container W8 100 /\ in_container W8 (-100) /\
  Add_Core W8 100 100 (Ref None) = (E_NOT_OK, Ref (Some 127)) /\
  Sub_Core W8 (-100) 100 (Ref None) = (E_NOT_OK, Ref (Some (-128))).
Proof.
  assert (Ha : in_container W8 100) by (split; discriminate).
  assert (Hb : in_container W8 (-100)) by (split; discriminate).
  split; [exact Ha|split; [exact Hb|]].
  split.
  - exact (proj1 (add_sub_core_saturating W8 100 100 None Ha Ha)).
  - exact (proj2 (add_sub_core_saturating W8 (-100) 100 None Hb Ha)).
Defined.

(** ** Fixed to float is exact *)

Lemma exact_image_checked (w : width) :
  all_from (Z.to_nat (MAX w - MIN w + 1)) (MIN w) (exact_image w) = true.
Proof. destruct w; vm_compute; reflexivity. Qed.

(** X10.  The fixed-to-float conversion loses nothing: for every raw value
    [v] of the container range the float returned is a valid binary32
    number whose value is exactly [v / 2^fractionalBits]. *)
Theorem fix_to_float_exact (w : width) (v : Z) :
  in_container w v ->
  valid_binary 24 128 (FixToFloat w v) = true /\
  is_dyadic (FixToFloat w v) v (fractionalBits w) = true.
Proof.
  intros [Hlo Hhi].
  assert (Hall : exact_image w v = true).
  { apply (all_from_spec _ _ _ _ (exact_image_checked w)).
    rewrite Z2Nat.id; [lia|destruct w; discriminate]. }
  apply andb_prop in Hall. exact Hall.
Qed.

Lemma fix_to_float_exact_witness :
  in_container W16 (-32767) /\
  valid_binary 24 128 (FixToFloat W16 (-32767)) = true /\
  is_dyadic (FixToFloat W16 (-32767)) (-32767) (fractionalBits W16) = true.
Proof.
  assert (H : in_container W16 (-32767)) by (split; discriminate).
  split; [exact H|].
  exact (fix_to_float_exact W16 (-32767) H).
Defined.

(** ** Operands that are images of raw values *)

Lemma FixToFloat_converts_back (w : width) (v : Z) :
  in_container w v ->
  FloatToFix w (FixToFloat w v) (Ref None) = Some (E_OK, Ref (Some v)).
Proof.
  intros Hv.
  assert (Hall : roundtrip_ok w v = true).
  { apply (all_from_spec _ _ _ _ (roundtrip_checked w)).
    destruct Hv as [Hlo Hhi]. rewrite Z2Nat.id; [lia|destruct w; discriminate]. }
  unfold roundtrip_ok in Hall.
  destruct (FloatToFix w (FixToFloat w v) (Ref None)) as [[st [|[v'|]]]|];
    try discriminate.
  apply andb_prop in Hall. destruct Hall as [Hst Hv'].
  apply Z.eqb_eq in Hst, Hv'. subst. reflexivity.
Qed.

Lemma Wrapper_on_raw (w : width) (op : operator) (a b : Z) (old : option float) :
  in_container w a -> in_container w b ->
  let r := core_exact w op a b in
  Wrapper w op (FixToFloat w a) (FixToFloat w b) (Ref old) =
  Some (if clamped w r then E_NOT_OK else E_OK,
        Ref (Some (FixToFloat w (clamp (MIN w) (MAX w) r)))).
Proof.
  intros Ha Hb r. subst r.
  rewrite Wrapper_unfold, !FixToFloat_converts_back by assumption.
  cbv [bind deref].
  rewrite core_exact_then_clamps by assumption.
  destruct (clamped w (core_exact w op a b)); reflexivity.
Qed.

Lemma Div_on_raw (w : width) (a b : Z) (old : option float) :
  in_container w a -> in_container w b -> b <> 0 ->
  let q := scaled_quotient (fractionalBits w) a b in
  Div w (FixToFloat w a) (FixToFloat w b) (Ref old) =
  Some (if clamped w q then E_NOT_OK else E_OK,
        Ref (Some (FixToFloat w (clamp (MIN w) (MAX w) q)))).
Proof.
  intros Ha Hb Hnz q. subst q.
  rewrite Div_unfold, !FixToFloat_converts_back by assumption.
  cbv [bind deref].
  replace (negb (b =? 0)) with true by (symmetry; apply negb_true_iff, Z.eqb_neq; exact Hnz).
  rewrite Div_Core_quotient by assumption. cbv zeta.
  unfold clamped. destruct (_ =? _); reflexivity.
Qed.

(** X11.  On operands that are the float images of raw values [a] and [b]
    the conversions lose nothing and report nothing: a public Add, Sub or
    Mult returns the image of the integer result ([a + b], [a - b], or
    [a * b] rescaled with rounding) clamped to the container, and a public
    Div with [b <> 0] the image of the clamped rounded quotient; the status
    is [E_NOT_OK] exactly when that integer result was clamped. *)
Theorem operations_on_representable_values (w : width) (op : operator) (a b : Z)
    (old : option float) :
  in_container w a -> in_container w b ->
  let r := core_exact w op a b in
  let q := scaled_quotient (fractionalBits w) a b in
  Wrapper w op (FixToFloat w a) (FixToFloat w b) (Ref old) =
    Some (if clamped w r then E_NOT_OK else E_OK,
          Ref (Some (FixToFloat w (clamp (MIN w) (MAX w) r)))) /\
  (b <> 0 ->
   Div w (FixToFloat w a) (FixToFloat w b) (Ref old) =
     Some (if clamped w q then E_NOT_OK else E_OK,
           Ref (Some (FixToFloat w (clamp (MIN w) (MAX w) q))))).
Proof.
  intros Ha Hb r q. split.
  - exact (Wrapper_on_raw w op a b old Ha Hb).
  - intros Hnz. exact (Div_on_raw w a b old Ha Hb Hnz).
Qed.

Lemma operations_on_representable_values_witness :
  in_container W8 24 /\ in_container W8 40 /\
  Wrapper W8 OpMult (FixToFloat W8 24) (FixToFloat W8 40) (Ref None) =
    Some (E_OK, Ref (Some (FixToFloat W8 60))).
Proof.
  assert (Ha : in_container W8 24) by (split; discriminate).
  assert (Hb : in_container W8 40) by (split; discriminate).
  split; [exact Ha|split; [exact Hb|]].
  exact (proj1 (operations_on_representable_values W8 OpMult 24 40 None Ha Hb)).
Defined.

Lemma clamp_id (w : width) (v : Z) : in_container w v -> clamp (MIN w) (MAX w) v = v.
Proof. unfold in_container, clamp. lia. Qed.

Lemma clamped_id (w : width) (v : Z) : in_container w v -> clamped w v = false.
Proof.
  intros H. unfold clamped. rewrite clamp_id by exact H. rewrite Z.eqb_refl. reflexivity.
Qed.

Lemma rescale_product_scaled (f v : Z) : 0 < f -> rescale_product f (v * 2 ^ f) = v.
Proof.
  intros Hf. unfold rescale_product.
  rewrite Z.shiftr_div_pow2, Z.shiftl_1_l by lia.
  assert (Hp : 0 < 2 ^ f) by (apply Z.pow_pos_nonneg; lia).
  assert (Hh : 0 <= 2 ^ (f - 1) < 2 ^ f).
  { split; [apply Z.pow_nonneg; lia|apply Z.pow_lt_mono_r; lia]. }
  rewrite Z.abs_mul, (Z.abs_eq (2 ^ f)) by lia.
  rewrite Z.div_add_l by lia. rewrite (Z.div_small (2 ^ (f - 1))) by lia.
  rewrite Z.sgn_mul, (Z.sgn_pos (2 ^ f)) by lia.
  destruct (Z.lt_trichotomy v 0) as [H|[H|H]].
  - rewrite (Z.sgn_neg v) by lia. lia.
  - subst v. reflexivity.
  - rewrite (Z.sgn_pos v) by lia. lia.
Qed.

Lemma scaled_quotient_by_one (f v : Z) : 0 < f -> scaled_quotient f v (2 ^ f) = v.
Proof.
  intros Hf. unfold scaled_quotient.
  rewrite Z.shiftl_mul_pow2 by lia.
  assert (Hp : 0 < 2 ^ f) by (apply Z.pow_pos_nonneg; lia).
  rewrite (Z.abs_eq (2 ^ f)) by lia.
  rewrite Z.div_add_l by lia.
  rewrite (Z.div_small (2 ^ f / 2)) by (split; [apply Z.div_pos; lia|apply Z.div_lt; lia]).
  replace (2 ^ f <? 0) with false by (symmetry; apply Z.ltb_ge; lia).
  destruct (Z.ltb_spec v 0); simpl; lia.
Qed.

Lemma scaled_quotient_self (f v : Z) : 0 <= f -> v <> 0 -> scaled_quotient f v v = 2 ^ f.
Proof.
  intros Hf Hv. unfold scaled_quotient.
  rewrite Z.shiftl_mul_pow2 by lia.
  rewrite Bool.eqb_reflx.
  rewrite Z.mul_comm, Z.div_add_l by lia.
  rewrite (Z.div_small (Z.abs v / 2)); [lia|].
  split; [apply Z.div_pos; lia|apply Z.div_lt; lia].
Qed.

Lemma FixToFloat_zero (w : width) : FixToFloat w 0 = S754_zero false.
Proof. destruct w; reflexivity. Qed.

Lemma FixToFloat_one (w : width) : FixToFloat w (scale w) = f32 1 0.
Proof. destruct w; reflexivity. Qed.

Lemma scale_pow (w : width) : scale w = 2 ^ fractionalBits w.
Proof. destruct w; reflexivity. Qed.

Lemma in_container_scale (w : width) : in_container w (scale w).
Proof. destruct w; split; discriminate. Qed.

(** X12.  Neutral elements: for every representable value [x] (the float
    image of a raw value of the container), adding or subtracting [0.0f]
    and multiplying or dividing by [1.0f] return [x] itself with [E_OK]. *)
Theorem neutral_elements (w : width) (v : Z) (old : option float) :
  in_container w v ->
  let x := FixToFloat w v in
  Add w x (S754_zero false) (Ref old) = Some (E_OK, Ref (Some x)) /\
  Sub w x (S754_zero false) (Ref old) = Some (E_OK, Ref (Some x)) /\
  Mult w x (f32 1 0) (Ref old) = Some (E_OK, Ref (Some x)) /\
  Div w x (f32 1 0) (Ref old) = Some (E_OK, Ref (Some x)).
Proof.
  intros Hv x. subst x.
  pose proof (in_container_zero w) as H0. pose proof (in_container_scale w) as H1.
  rewrite <- (FixToFloat_zero w), <- (FixToFloat_one w).
  change (Add w) with (Wrapper w OpAdd). change (Sub w) with (Wrapper w OpSub).
  change (Mult w) with (Wrapper w OpMult).
  rewrite !Wrapper_on_raw by assumption.
  rewrite Div_on_raw by (assumption || (destruct w; discriminate)).
  cbv zeta. cbv [core_exact].
  rewrite Z.add_0_r, Z.sub_0_r.
  rewrite (scale_pow w), rescale_product_scaled, scaled_quotient_by_one
    by (destruct w; reflexivity).
  rewrite !clamped_id, !clamp_id by assumption.
  repeat split; reflexivity.
Qed.

Lemma neutral_elements_witness :
  in_container W16 (-32768) /\
  Mult W16 (FixToFloat W16 (-32768)) (f32 1 0) (Ref None) =
    Some (E_OK, Ref (Some (FixToFloat W16 (-32768)))).
Proof.
  assert (H : in_container W16 (-32768)) by (split; discriminate).
  split; [exact H|].
  exact (proj1 (proj2 (proj2 (neutral_elements W16 (-32768) None H)))).
Defined.

(** X13.  For every representable value [x], [x - x] is [0.0f] with
    [E_OK], and for [x] other than zero [x / x] is [1.0f] with [E_OK]. *)
Theorem self_difference_and_quotient (w : width) (v : Z) (old : option float) :
  in_container w v ->
  let x := FixToFloat w v in
  Sub w x x (Ref old) = Some (E_OK, Ref (Some (S754_zero false))) /\
  (v <> 0 -> Div w x x (Ref old) = Some (E_OK, Ref (Some (f32 1 0)))).
Proof.
  intros Hv x. subst x. split.
  - change (Sub w) with (Wrapper w OpSub). rewrite Wrapper_on_raw by assumption.
    cbv zeta. cbv [core_exact]. rewrite Z.sub_diag.
    rewrite clamped_id, clamp_id by apply in_container_zero.
    rewrite FixToFloat_zero. reflexivity.
  - intros Hnz. rewrite Div_on_raw by assumption. cbv zeta.
    rewrite scaled_quotient_self by (assumption || destruct w; discriminate).
    rewrite <- scale_pow.
    rewrite clamped_id, clamp_id by apply in_container_scale.
    rewrite FixToFloat_one. reflexivity.
Qed.

Lemma self_difference_and_quotient_witness :
  in_container W8 (-128) /\
  Div W8 (FixToFloat W8 (-128)) (FixToFloat W8 (-128)) (Ref None) =
    Some (E_OK, Ref (Some (f32 1 0))).
Proof.
  assert (H : in_container W8 (-128)) by (split; discriminate).
  assert (Hnz : -128 <> 0) by discriminate.
  split; [exact H|].
  exact (proj2 (self_difference_and_quotient W8 (-128) None H) Hnz).
Defined.

(** ** The converter is odd *)

Lemma binary_round_aux_opp (s : bool) (m e : Z) (l : location) :
  binary_round_aux 24 128 (negb s) m e l = SFopp (binary_round_aux 24 128 s m e l).
Proof.
  unfold binary_round_aux.
  destruct (shr_fexp 24 128 m e l) as [mrs' e'].
  destruct (shr_fexp 24 128 _ e' loc_Exact) as [mrs'' e''].
  destruct (shr_m mrs'') as [|p|p]; try reflexivity.
  destruct (e'' <=? 128 - 24); reflexivity.
Qed.

Lemma f32_mul_opp (x : float) (s : bool) (m : positive) (e : Z) :
  f32_mul (SFopp x) (S754_finite s m e) = SFopp (f32_mul x (S754_finite s m e)).
Proof.
  destruct x as [sx|sx| |sx mx ex]; try reflexivity.
  - simpl. destruct sx, s; reflexivity.
  - simpl. destruct sx, s; reflexivity.
  - unfold f32_mul, SFmul, SFopp at 1.
    replace (xorb (negb sx) s) with (negb (xorb sx s)) by (destruct sx, s; reflexivity).
    apply binary_round_aux_opp.
Qed.

Lemma SFopp_involutive (x : float) : SFopp (SFopp x) = x.
Proof. destruct x as [s|s| |s m e]; try destruct s; reflexivity. Qed.

Lemma binary_normalize_opp (n e : Z) :
  n <> 0 ->
  binary_normalize 24 128 (- n) e false = SFopp (binary_normalize 24 128 n e false).
Proof.
  intros Hn. destruct n as [|p|p]; [contradiction| |]; simpl Z.opp;
    unfold binary_normalize, binary_round;
    destruct (shl_align p e _) as [mz ez].
  - apply (binary_round_aux_opp false).
  - rewrite (binary_round_aux_opp false), SFopp_involutive. reflexivity.
Qed.

(** Adding one half to a positive number and subtracting it from the
    opposite number give opposite results. *)
Lemma sub_half_opp (m : positive) (e : Z) :
  f32_sub (S754_finite true m e) (f32 1 (-1)) =
  SFopp (f32_add (S754_finite false m e) (f32 1 (-1))).
Proof.
  change (f32 1 (-1)) with (S754_finite false 8388608 (-24)).
  unfold f32_sub, f32_add, SFsub, SFadd. cbv zeta.
  set (ez := Z.min e (-24)).
  set (p := fst (shl_align m e ez)). set (q := fst (shl_align 8388608 (-24) ez)).
  unfold cond_Zopp.
  replace (- Z.pos p - Z.pos q) with (- (Z.pos p + Z.pos q)) by lia.
  apply binary_normalize_opp. lia.
Qed.

Lemma trunc_float_opp (x : float) :
  trunc_float (SFopp x) =
  match trunc_float x with Some t => Some (- t) | None => None end.
Proof.
  destruct x as [sx|sx| |s m e]; try reflexivity.
  unfold SFopp, trunc_float. f_equal. destruct s; simpl; lia.
Qed.

Lemma float_to_sint_opp (bits : Z) (x : float) (z : Z) :
  float_to_sint bits x = Some z -> z <> - 2 ^ (bits - 1) ->
  float_to_sint bits (SFopp x) = Some (- z).
Proof.
  unfold float_to_sint. rewrite trunc_float_opp.
  destruct (trunc_float x) as [t|]; [|discriminate]. cbv [bind].
  destruct (fits_signed bits t) eqn:Hf; [|discriminate].
  intros H Hne. injection H as <-.
  replace (fits_signed bits (- t)) with true; [reflexivity|].
  symmetry. unfold fits_signed in *.
  apply andb_prop in Hf. destruct Hf as [H1 H2].
  apply Z.leb_le in H1. apply Z.ltb_lt in H2.
  apply andb_true_intro. split; [apply Z.leb_le|apply Z.ltb_lt]; lia.
Qed.

Lemma round_step_opp (bits : Z) (y : float) (z : Z) :
  round_step bits y = Some z -> z <> - 2 ^ (bits - 1) ->
  round_step bits (SFopp y) = Some (- z).
Proof.
  unfold round_step. intros H Hne.
  destruct y as [sy|sy| |s m e].
  - (* a zero of either sign: one half is added, and truncated away *)
    assert (Hh : forall s, f32_add (S754_zero s) (f32 1 (-1)) = f32 1 (-1))
      by (intros []; reflexivity).
    assert (Hg : forall s, f32_ge (S754_zero s) (S754_zero false) = true)
      by (intros []; reflexivity).
    simpl SFopp. rewrite Hg, Hh in *.
    assert (Ht : trunc_float (f32 1 (-1)) = Some 0) by reflexivity.
    unfold float_to_sint in *. rewrite Ht in *. cbv [bind] in *.
    destruct (fits_signed bits 0); [|discriminate].
    injection H as <-. reflexivity.
  - destruct sy; discriminate.
  - discriminate.
  - destruct s.
    + change (f32_ge (S754_finite true m e) (S754_zero false)) with false in H.
      change (f32_ge (SFopp (S754_finite true m e)) (S754_zero false)) with true.
      cbv iota in *. rewrite sub_half_opp in H.
      simpl SFopp at 1.
      apply float_to_sint_opp in H; [|exact Hne].
      rewrite SFopp_involutive in H. exact H.
    + change (f32_ge (S754_finite false m e) (S754_zero false)) with true in H.
      change (f32_ge (SFopp (S754_finite false m e)) (S754_zero false)) with false.
      cbv iota in *. simpl SFopp. rewrite sub_half_opp.
      apply float_to_sint_opp; assumption.
Qed.

Lemma rounded_scaled_opp (w : width) (x : float) (z : Z) :
  rounded_scaled w x = Some z -> z <> - 2 ^ (scaled_bits w - 1) ->
  rounded_scaled w (SFopp x) = Some (- z).
Proof.
  intros H Hne.
  change (rounded_scaled w (SFopp x)) with
    (round_step (scaled_bits w) (f32_mul (SFopp x) (float_of_int (scale w)))).
  change (rounded_scaled w x) with
    (round_step (scaled_bits w) (f32_mul x (float_of_int (scale w)))) in H.
  assert (Hs : exists m e, float_of_int (scale w) = S754_finite false m e)
    by (destruct w; eexists; eexists; reflexivity).
  destruct Hs as [m [e Hs]]. rewrite Hs in *.
  rewrite f32_mul_opp. apply round_step_opp; assumption.
Qed.

Lemma FloatToFix_ok_inv (w : width) (x : float) (old : option Z) (z : Z) :
  FloatToFix w x (Ref old) = Some (E_OK, Ref (Some z)) ->
  rounded_scaled w x = Some z /\ in_container w z.
Proof.
  rewrite FloatToFix_rounded.
  destruct (rounded_scaled w x) as [z'|]; [|discriminate].
  cbv [bind]. cbv zeta.
  destruct (Z.eqb_spec (clamp (MIN w) (MAX w) z') z') as [He|He]; [|discriminate].
  intros H. injection H as <-. rewrite He. split; [reflexivity|].
  rewrite <- He. apply in_container_clamp.
Qed.

Lemma in_container_opp (w : width) (z : Z) :
  in_container w z -> z <> MIN w -> in_container w (- z).
Proof.
  unfold in_container. destruct w; cbv [MIN MAX];
    rewrite ?FIX16_MAX_val, ?FIX16_MIN_val, ?FIX8_MAX_val, ?FIX8_MIN_val; lia.
Qed.

(** X14.  The converter is odd: when an input converts with [E_OK] to a
    raw value [z] other than [MIN], the negated input converts with [E_OK]
    to [- z].  The rounding is the same on both sides of zero. *)
Theorem converter_odd_symmetry (w : width) (x : float) (old : option Z) (z : Z) :
  FloatToFix w x (Ref old) = Some (E_OK, Ref (Some z)) -> z <> MIN w ->
  FloatToFix w (SFopp x) (Ref old) = Some (E_OK, Ref (Some (- z))).
Proof.
  intros H Hne. apply FloatToFix_ok_inv in H. destruct H as [Hr Hc].
  apply FloatToFix_in_range; [|apply in_container_opp; assumption].
  apply rounded_scaled_opp; [exact Hr|].
  unfold in_container in Hc. destruct w; cbv [MIN MAX scaled_bits] in *;
    rewrite ?FIX16_MAX_val, ?FIX16_MIN_val, ?FIX8_MAX_val, ?FIX8_MIN_val in *;
    simpl; lia.
Qed.

Lemma converter_odd_symmetry_witness :
  FloatToFix W16 (f32 201 (-1)) (Ref None) = Some (E_OK, Ref (Some 25728)) /\
  FloatToFix W16 (SFopp (f32 201 (-1))) (Ref None) = Some (E_OK, Ref (Some (- 25728))).
Proof.
  assert (H : FloatToFix W16 (f32 201 (-1)) (Ref None) = Some (E_OK, Ref (Some 25728)))
    by (vm_compute; reflexivity).
  assert (Hne : 25728 <> MIN W16) by discriminate.
  split; [exact H|].
  exact (converter_odd_symmetry W16 (f32 201 (-1)) None 25728 H Hne).
Defined.

(** X15.  Subtracting is adding the opposite: when the second operand
    converts with [E_OK] to a raw value other than [MIN], a public Sub
    returns the status and writes the value that the public Add of the
    same width returns and writes for the negated second operand. *)
Theorem sub_is_add_of_opposite (w : width) (x y : float) (old : option float) (b : Z) :
  FloatToFix w y (Ref None) = Some (E_OK, Ref (Some b)) -> b <> MIN w ->
  Sub w x y (Ref old) = Add w x (SFopp y) (Ref old).
Proof.
  intros Hy Hne.
  destruct (FloatToFix_ok_inv w y None b Hy) as [Hr Hb].
  pose proof (in_container_opp w b Hb Hne) as Hb'.
  assert (Hy' : FloatToFix w (SFopp y) (Ref None) = Some (E_OK, Ref (Some (- b)))).
  { apply FloatToFix_in_range; [|exact Hb'].
    apply rounded_scaled_opp; [exact Hr|].
    unfold in_container in Hb. destruct w; cbv [MIN MAX scaled_bits] in *;
      rewrite ?FIX16_MAX_val, ?FIX16_MIN_val, ?FIX8_MAX_val, ?FIX8_MIN_val in *;
      simpl; lia. }
  change (Sub w) with (Wrapper w OpSub). change (Add w) with (Wrapper w OpAdd).
  rewrite !Wrapper_unfold, Hy, Hy'.
  destruct (FloatToFix w x (Ref None)) as [[c1 pa]|] eqn:Hx; [|reflexivity].
  cbv [bind]. destruct (deref pa) as [a|] eqn:Hd; [|reflexivity].
  cbv [deref].
  assert (Ha : in_container w a).
  { apply (converter_core_store_in_container w x 0 0 (Ref None) pa c1 a);
      [left; exact Hx|exact Hd]. }
  rewrite (core_exact_then_clamps w OpSub a b _ Ha Hb).
  rewrite (core_exact_then_clamps w OpAdd a (- b) _ Ha Hb').
  cbv [core_exact]. replace (a + - b) with (a - b) by lia. reflexivity.
Qed.

Lemma sub_is_add_of_opposite_witness :
  FloatToFix W8 (f32 5 (-1)) (Ref None) = Some (E_OK, Ref (Some 40)) /\
  Sub W8 (f32 (-7) 0) (f32 5 (-1)) (Ref None) =
  Add W8 (f32 (-7) 0) (SFopp (f32 5 (-1))) (Ref None).
Proof.
  assert (H : FloatToFix W8 (f32 5 (-1)) (Ref None) = Some (E_OK, Ref (Some 40)))
    by (vm_compute; reflexivity).
  assert (Hne : 40 <> MIN W8) by discriminate.
  split; [exact H|].
  exact (sub_is_add_of_opposite W8 (f32 (-7) 0) (f32 5 (-1)) None 40 H Hne).
Defined.

(** ** The converter is monotone *)

Lemma rounded_scaled_magnitude (w : width) (s : bool) (m : positive) (e r : Z) :
  valid_binary 24 128 (S754_finite s m e) = true ->
  e + fractionalBits w <= -1 ->
  rounded_scaled w (S754_finite s m e) = Some r ->
  r = cond_Zopp s (rounded_magnitude w m e).
Proof.
  intros Hv He Hr. unfold rounded_magnitude.
  destruct (below_half_lsb_dec w s m e) as [[Heq|Heq]|[Hne1 Hne2]].
  - rewrite Heq in Hr. injection Heq as -> -> ->.
    rewrite Z.eqb_refl, Z.eqb_refl. simpl andb. cbv iota.
    destruct w; vm_compute in Hr; injection Hr as <-; reflexivity.
  - rewrite Heq in Hr. unfold below_half_lsb in Heq. simpl SFopp in Heq.
    injection Heq as -> -> ->.
    rewrite Z.eqb_refl, Z.eqb_refl. simpl andb. cbv iota.
    destruct w; vm_compute in Hr; injection Hr as <-; reflexivity.
  - replace ((Z.pos m =? 16777215) && (e =? -25 - fractionalBits w)) with false.
    + rewrite rounded_scaled_nearest_finite in Hr by assumption. cbv zeta in Hr.
      rewrite round_half_away_neg_exp in Hr by lia.
      destruct (fits_signed _ _); [|discriminate]. injection Hr as <-. reflexivity.
    + symmetry. apply andb_false_iff.
      destruct (Z.eqb_spec (Z.pos m) 16777215) as [Hm|]; [|left; reflexivity].
      destruct (Z.eqb_spec e (-25 - fractionalBits w)) as [He'|]; [|right; reflexivity].
      exfalso. assert (m = 16777215%positive) by lia. subst m e.
      destruct s; [apply Hne2|apply Hne1]; reflexivity.
Qed.


Lemma rounded_magnitude_nonneg (w : width) (m : positive) (e : Z) :
  e + fractionalBits w <= -1 -> 0 <= rounded_magnitude w m e.
Proof.
  intros He. unfold rounded_magnitude. destruct (_ && _); [lia|].
  assert (0 < 2 ^ (- (e + fractionalBits w))) by (apply Z.pow_pos_nonneg; lia).
  assert (0 <= 2 ^ (- (e + fractionalBits w) - 1)) by (apply Z.pow_nonneg; lia).
  apply Z.div_pos; lia.
Qed.

(** The order of two valid positive numbers, read on exponents and
    mantissas, is the order of their rounded magnitudes. *)
Lemma rounded_magnitude_monotone (w : width) (s1 s2 : bool) (m1 m2 : positive) (e1 e2 : Z) :
  valid_binary 24 128 (S754_finite s1 m1 e1) = true ->
  valid_binary 24 128 (S754_finite s2 m2 e2) = true ->
  e2 + fractionalBits w <= -1 ->
  e1 < e2 \/ (e1 = e2 /\ Z.pos m1 <= Z.pos m2) ->
  rounded_magnitude w m1 e1 <= rounded_magnitude w m2 e2.
Proof.
  intros Hv1 Hv2 He2 Hle. pose proof (fractionalBits_range w) as Hf.
  pose proof (valid_mantissa_bound s1 m1 e1 Hv1) as Hm1.
  pose proof (valid_mantissa_bound s2 m2 e2 Hv2) as Hm2.
  change (2 ^ 24) with 16777216 in *.
  assert (Hnormal : e1 < e2 -> 8388608 <= Z.pos m2).
  { intros Hlt.
    assert (He1 : -149 <= e1).
    { unfold valid_binary, bounded, canonical_mantissa in Hv1.
      apply andb_prop in Hv1. destruct Hv1 as [Hc _]. apply Z.eqb_eq in Hc.
      rewrite fexp_val in Hc. lia. }
    destruct (valid_normal s2 m2 e2 Hv2 ltac:(lia)) as [Hm _].
    change (2 ^ 23) with 8388608 in Hm. lia. }
  set (k1 := - (e1 + fractionalBits w)). set (k2 := - (e2 + fractionalBits w)).
  assert (Hk2 : 1 <= k2) by (subst k2; lia).
  assert (Hk1 : k2 <= k1) by (subst k1 k2; lia).
  assert (Hmag : (Z.pos m1 + 2 ^ (k1 - 1)) / 2 ^ k1 <= (Z.pos m2 + 2 ^ (k2 - 1)) / 2 ^ k2).
  { assert (Hp2 : 0 < 2 ^ k2) by (apply Z.pow_pos_nonneg; lia).
    destruct Hle as [Hlt|[Heq Hm]].
    - set (d := k1 - k2). assert (Hd : 1 <= d) by (subst d k1 k2; lia).
      assert (Hk : k1 = k2 + d) by (subst d; lia).
      assert (Hpd : 2 <= 2 ^ d).
      { change 2 with (2 ^ 1) at 1. apply Z.pow_le_mono_r; lia. }
      assert (Hh : 2 ^ (k1 - 1) = 2 ^ (k2 - 1) * 2 ^ d).
      { rewrite <- Z.pow_add_r by lia. f_equal. lia. }
      assert (Hh2 : 0 <= 2 ^ (k2 - 1)) by (apply Z.pow_nonneg; lia).
      rewrite Hh. rewrite Hk, Z.pow_add_r by lia.
      rewrite <- (Z.div_mul_cancel_r (Z.pos m2 + 2 ^ (k2 - 1)) (2 ^ k2) (2 ^ d)) by lia.
      apply Z.div_le_mono; [nia|].
      specialize (Hnormal Hlt). nia.
    - assert (Hkk : k1 = k2) by (subst k1 k2; lia). rewrite Hkk.
      apply Z.div_le_mono; lia. }
  unfold rounded_magnitude. fold k1 k2.
  destruct ((Z.pos m1 =? 16777215) && (e1 =? -25 - fractionalBits w)) eqn:Hx1.
  - (* the smaller one is the exceptional input *)
    apply andb_prop in Hx1. destruct Hx1 as [Hx1m Hx1e].
    apply Z.eqb_eq in Hx1m, Hx1e.
    destruct ((Z.pos m2 =? 16777215) && (e2 =? -25 - fractionalBits w)) eqn:Hx2; [lia|].
    destruct Hle as [Hlt|[Heq Hm]].
    + specialize (Hnormal Hlt).
      assert (Hk24 : k2 <= 24) by (subst k2; lia).
      assert (Hp : 2 ^ (k2 - 1) <= 2 ^ 23) by (apply Z.pow_le_mono_r; lia).
      change (2 ^ 23) with 8388608 in Hp.
      assert (Hp2 : 2 ^ k2 = 2 * 2 ^ (k2 - 1)).
      { rewrite <- Z.pow_succ_r by lia. f_equal. lia. }
      assert (Hh2 : 0 < 2 ^ (k2 - 1)) by (apply Z.pow_pos_nonneg; lia).
      apply Z.div_le_lower_bound; lia.
    + exfalso. apply andb_false_iff in Hx2.
      destruct Hx2 as [Hx2|Hx2]; apply Z.eqb_neq in Hx2; lia.
  - destruct ((Z.pos m2 =? 16777215) && (e2 =? -25 - fractionalBits w)) eqn:Hx2; [|exact Hmag].
    apply andb_prop in Hx2. destruct Hx2 as [Hx2m Hx2e].
    apply Z.eqb_eq in Hx2m, Hx2e.
    assert (Hz : (Z.pos m2 + 2 ^ (k2 - 1)) / 2 ^ k2 = 0).
    { assert (Hk25 : k2 = 25) by (subst k2; lia). rewrite Hk25, Hx2m. reflexivity. }
    lia.
Qed.

Lemma FloatToFix_inv (w : width) (x : float) (old : option Z) (st : Std_ReturnType) (z : Z) :
  FloatToFix w x (Ref old) = Some (st, Ref (Some z)) ->
  exists r, rounded_scaled w x = Some r /\ z = clamp (MIN w) (MAX w) r.
Proof.
  rewrite FloatToFix_rounded.
  destruct (rounded_scaled w x) as [r|]; [|discriminate].
  cbv [bind]. cbv zeta. intros H. injection H as _ <-. exists r. split; reflexivity.
Qed.

(** In the domain, a scaled magnitude of [2^23] or more rounds beyond the
    container. *)
Lemma rounded_scaled_beyond (w : width) (s : bool) (m : positive) (e r : Z) :
  in_domain w (S754_finite s m e) -> 0 <= e + fractionalBits w ->
  rounded_scaled w (S754_finite s m e) = Some r ->
  if s then r < MIN w else MAX w < r.
Proof.
  intros [Hv [Hlo Hhi]] He Hr. destruct w.
  - exfalso. change (fractionalBits W8) with 4 in *. destruct s.
    + change (defined_above W8) with (S754_finite true 8388736 (-12)) in Hlo.
      apply SFltb_neg_finite in Hlo. lia.
    + change (defined_below W8) with (S754_finite false 16776960 (-13)) in Hhi.
      apply SFltb_finite_pos in Hhi. lia.
  - change (fractionalBits W16) with 8 in *. destruct s.
    + assert (Hle : SFleb (S754_finite true m e) (saturates_down_from W16) = true).
      { change (saturates_down_from W16) with (S754_finite true 8388736 (-16)).
        unfold SFleb, SFcompare.
        destruct (Z.compare_spec e (-16)); (reflexivity || lia). }
      destruct (rounds_below_MIN_16 _ Hv Hle Hlo) as [z [Hz Hlt]].
      rewrite Hz in Hr. injection Hr as <-. exact Hlt.
    + assert (Hle : SFleb (saturates_from W16) (S754_finite false m e) = true).
      { change (saturates_from W16) with (S754_finite false 16776960 (-17)).
        unfold SFleb, SFcompare.
        destruct (Z.compare_spec (-17) e); (reflexivity || lia). }
      destruct (rounds_above_MAX_16 _ Hv Hle Hhi) as [z [Hz Hlt]].
      rewrite Hz in Hr. injection Hr as <-. exact Hlt.
Qed.

Lemma clamp_monotone (lo hi a b : Z) : a <= b -> clamp lo hi a <= clamp lo hi b.
Proof. unfold clamp. lia. Qed.

Lemma MIN_neg_MAX_pos (w : width) : MIN w < 0 < MAX w.
Proof. destruct w; split; reflexivity. Qed.

(** What is stored for a finite input of the domain: the sign of the input
    and a magnitude that grows with the input's magnitude. *)
Lemma stored_sign_magnitude (w : width) (s : bool) (m : positive) (e : Z)
    (old : option Z) (st : Std_ReturnType) (z : Z) :
  in_domain w (S754_finite s m e) ->
  FloatToFix w (S754_finite s m e) (Ref old) = Some (st, Ref (Some z)) ->
  (0 <= e + fractionalBits w /\ z = if s then MIN w else MAX w) \/
  (e + fractionalBits w <= -1 /\
   z = clamp (MIN w) (MAX w) (cond_Zopp s (rounded_magnitude w m e))).
Proof.
  intros Hd H. apply FloatToFix_inv in H. destruct H as [r [Hr ->]].
  pose proof (MIN_le_MAX w) as Hmm.
  destruct (Z.le_gt_cases 0 (e + fractionalBits w)) as [Hbig|Hsmall].
  - left. split; [exact Hbig|].
    pose proof (rounded_scaled_beyond w s m e r Hd Hbig Hr) as Hb.
    unfold clamp. destruct s; lia.
  - right. split; [lia|].
    destruct Hd as [Hv _].
    rewrite (rounded_scaled_magnitude w s m e r Hv ltac:(lia) Hr). reflexivity.
Qed.

(** X16.  The converter is monotone: for two binary32 inputs of its domain
    with [x <= y], the raw value stored for [x] is at most the raw value
    stored for [y]; quantisation, saturation included, never reverses the
    order of two inputs. *)
Theorem converter_monotone (w : width) (x y : float) (old : option Z)
    (stx sty : Std_ReturnType) (zx zy : Z) :
  in_domain w x -> in_domain w y -> SFleb x y = true ->
  FloatToFix w x (Ref old) = Some (stx, Ref (Some zx)) ->
  FloatToFix w y (Ref old) = Some (sty, Ref (Some zy)) ->
  zx <= zy.
Proof.
  intros Hdx Hdy Hle Hx Hy.
  pose proof (MIN_neg_MAX_pos w) as Hmm.
  assert (Hcx : in_container w zx).
  { apply (converter_core_store_in_container w x 0 0 (Ref old) (Ref (Some zx)) stx zx);
      [left; exact Hx|reflexivity]. }
  assert (Hcy : in_container w zy).
  { apply (converter_core_store_in_container w y 0 0 (Ref old) (Ref (Some zy)) sty zy);
      [left; exact Hy|reflexivity]. }
  unfold in_container in Hcx, Hcy.
  assert (Hzero : forall s st z, FloatToFix w (S754_zero s) (Ref old) = Some (st, Ref (Some z)) ->
                                 z = 0).
  { intros s st z H. destruct w, s; vm_compute in H; injection H as _ <-; reflexivity. }
  assert (Hsign : forall s m e st z,
             in_domain w (S754_finite s m e) ->
             FloatToFix w (S754_finite s m e) (Ref old) = Some (st, Ref (Some z)) ->
             if s then z <= 0 else 0 <= z).
  { intros s m e st z Hd H.
    destruct (stored_sign_magnitude w s m e old st z Hd H) as [[_ ->]|[He ->]].
    - destruct s; lia.
    - pose proof (rounded_magnitude_nonneg w m e He). unfold clamp, cond_Zopp.
      destruct s; lia. }
  destruct x as [sx|sx| |s1 m1 e1], y as [sy|sy| |s2 m2 e2];
    try (destruct Hdx as [_ [H1 H2]]; destruct w; try destruct sx; discriminate);
    try (destruct Hdy as [_ [H1 H2]]; destruct w; try destruct sy; discriminate).
  - rewrite (Hzero _ _ _ Hx), (Hzero _ _ _ Hy). lia.
  - rewrite (Hzero _ _ _ Hx). pose proof (Hsign _ _ _ _ _ Hdy Hy) as Hs.
    destruct s2; [discriminate|exact Hs].
  - rewrite (Hzero _ _ _ Hy). pose proof (Hsign _ _ _ _ _ Hdx Hx) as Hs.
    destruct s1; [exact Hs|discriminate].
  - pose proof (Hsign _ _ _ _ _ Hdx Hx) as Hs1.
    pose proof (Hsign _ _ _ _ _ Hdy Hy) as Hs2.
    destruct s1, s2; [|lia|discriminate|].
    + (* both negative: the magnitudes are in the opposite order *)
      apply SFleb_neg_finite in Hle.
      destruct (stored_sign_magnitude w true m1 e1 old stx zx Hdx Hx) as [[Hb1 Hz1]|[Hn1 Hz1]];
        [lia|].
      destruct (stored_sign_magnitude w true m2 e2 old sty zy Hdy Hy) as [[Hb2 Hz2]|[Hn2 Hz2]];
        [lia|].
      rewrite Hz1, Hz2. apply clamp_monotone. unfold cond_Zopp.
      pose proof (rounded_magnitude_monotone w true true m2 m1 e2 e1
                    (proj1 Hdy) (proj1 Hdx) Hn1 Hle). lia.
    + apply SFleb_finite_pos in Hle.
      destruct (stored_sign_magnitude w false m2 e2 old sty zy Hdy Hy) as [[Hb2 Hz2]|[Hn2 Hz2]];
        [lia|].
      destruct (stored_sign_magnitude w false m1 e1 old stx zx Hdx Hx) as [[Hb1 Hz1]|[Hn1 Hz1]];
        [lia|].
      rewrite Hz1, Hz2. apply clamp_monotone. unfold cond_Zopp.
      exact (rounded_magnitude_monotone w false false m1 m2 e1 e2
               (proj1 Hdx) (proj1 Hdy) Hn2 Hle).
Qed.

Lemma converter_monotone_witness :
  in_domain W16 (f32 1 0) /\ in_domain W16 (f32 3 (-1)) /\
  SFleb (f32 1 0) (f32 3 (-1)) = true /\
  FloatToFix W16 (f32 1 0) (Ref None) = Some (E_OK, Ref (Some 256)) /\
  FloatToFix W16 (f32 3 (-1)) (Ref None) = Some (E_OK, Ref (Some 384)) /\
  256 <= 384.
Proof.
  assert (Hx : in_domain W16 (f32 1 0)) by (repeat split; reflexivity).
  assert (Hy : in_domain W16 (f32 3 (-1))) by (repeat split; reflexivity).
  assert (Hle : SFleb (f32 1 0) (f32 3 (-1)) = true) by reflexivity.
  assert (H1 : FloatToFix W16 (f32 1 0) (Ref None) = Some (E_OK, Ref (Some 256)))
    by (vm_compute; reflexivity).
  assert (H2 : FloatToFix W16 (f32 3 (-1)) (Ref None) = Some (E_OK, Ref (Some 384)))
    by (vm_compute; reflexivity).
  split; [exact Hx|split; [exact Hy|split; [exact Hle|split; [exact H1|split; [exact H2|]]]]].
  exact (converter_monotone W16 (f32 1 0) (f32 3 (-1)) None E_OK E_OK 256 384
           Hx Hy Hle H1 H2).
Defined.

(** ** Main.c: the counters and the verdict of the test harness *)

Lemma increment_counts (n : Z) :
  0 <= n < 2 ^ 32 - 1 -> Harness.increment (Ref (Some n)) = Some (Ref (Some (n + 1))).
Proof.
  intros Hn. unfold Harness.increment, bind. rewrite to_uint32_id; [reflexivity|].
  change (2 ^ 32) with 4294967296 in Hn. lia.
Qed.

Lemma RunSingleTest_counts (t : Harness.TestVector_t) (id p f : Z) (pc' fc' : ptr Z) :
  0 <= p -> 0 <= f -> p + f < 2 ^ 32 - 1 ->
  Harness.RunSingleTest (Ref (Some t)) id (Ref (Some p)) (Ref (Some f)) = Some (pc', fc') ->
  (pc' = Ref (Some (p + 1)) /\ fc' = Ref (Some f)) \/
  (pc' = Ref (Some p) /\ fc' = Ref (Some (f + 1))).
Proof.
  intros Hp Hf Hsum. unfold Harness.RunSingleTest. cbv [deref].
  match goal with |- bind ?x _ = _ -> _ => change x with (Some t) end.
  cbv [bind].
  match goal with
  | |- match ?c with _ => _ end = _ -> _ => destruct c as [[status result]|]
  end; [|discriminate].
  match goal with
  | |- match ?c with _ => _ end = _ -> _ => destruct c as [valueOk|]
  end; [|discriminate].
  rewrite !increment_counts by lia.
  destruct (_ && _); intros H; injection H as <- <-; [left|right]; split; reflexivity.
Qed.

(** X17.  The loop of [RunAllTests] counts every test vector exactly
    once, as passed or as failed: whatever the table, a run that starts
    with [p] passed and [f] failed ends with counters that have not
    decreased and whose sum is [p + f] plus the number of vectors (the
    counters being 32-bit, below their wrap-around). *)
Theorem every_test_counted_once (ts : list Harness.TestVector_t) (i p f : Z)
    (pc' fc' : ptr Z) :
  0 <= p -> 0 <= f -> p + f + Z.of_nat (length ts) < 2 ^ 32 ->
  Harness.run_from ts i (Ref (Some p)) (Ref (Some f)) = Some (pc', fc') ->
  exists p' f', pc' = Ref (Some p') /\ fc' = Ref (Some f') /\
                p <= p' /\ f <= f' /\ p' + f' = p + f + Z.of_nat (length ts).
Proof.
  revert i p f. induction ts as [|t rest IH]; intros i p f Hp Hf Hsum Hrun.
  - simpl in Hrun. injection Hrun as <- <-. exists p, f. simpl. repeat split; lia.
  - change (Harness.run_from (t :: rest) i (Ref (Some p)) (Ref (Some f))) with
      ('(passCount, failCount) <-
         Harness.RunSingleTest (Ref (Some t)) (to_uint32 (i + 1)) (Ref (Some p)) (Ref (Some f)) ;;
       Harness.run_from rest (to_uint32 (i + 1)) passCount failCount) in Hrun.
    change (length (t :: rest)) with (S (length rest)) in *.
    rewrite Nat2Z.inj_succ in *.
    destruct (Harness.RunSingleTest (Ref (Some t)) (to_uint32 (i + 1))
                (Ref (Some p)) (Ref (Some f)))
      as [[pc1 fc1]|] eqn:Hone; cbv [bind] in Hrun; [|discriminate].
    apply RunSingleTest_counts in Hone; [|lia|lia|lia].
    destruct Hone as [[-> ->]|[-> ->]];
      apply IH in Hrun; try lia;
      destruct Hrun as [p' [f' [H1 [H2 [H3 [H4 H5]]]]]];
      exists p', f'; repeat split; try assumption; lia.
Qed.

Lemma every_test_counted_once_witness :
  Harness.run_from Harness.tests 0 (Ref (Some 0)) (Ref (Some 0)) =
    Some (Ref (Some 40), Ref (Some 0)) /\
  exists p' f', Ref (Some 40) = Ref (Some p') /\ Ref (Some 0) = Ref (Some f') /\
                0 <= p' /\ 0 <= f' /\ p' + f' = 0 + 0 + Z.of_nat (length Harness.tests).
Proof.
  assert (Hrun : Harness.run_from Harness.tests 0 (Ref (Some 0)) (Ref (Some 0)) =
                 Some (Ref (Some 40), Ref (Some 0))) by (vm_compute; reflexivity).
  assert (Hp : 0 <= 0) by lia.
  assert (Hn : 0 + 0 + Z.of_nat (length Harness.tests) < 2 ^ 32) by reflexivity.
  split; [exact Hrun|].
  exact (every_test_counted_once Harness.tests 0 0 0 _ _ Hp Hp Hn Hrun).
Defined.

(** X18.  A test vector that expects a status other than [E_OK] never has
    its value checked: whatever expected value and tolerance it carries,
    [RunSingleTest] counts it the same way.  The saturation and
    division-by-zero vectors of the table are judged on the status alone. *)
Theorem error_tests_ignore_the_expected_value (t : Harness.TestVector_t)
    (expected' epsilon' : float) (id : Z) (passCount failCount : ptr Z) :
  Harness.expectedStatus t <> E_OK ->
  Harness.RunSingleTest (Ref (Some (Harness.with_expectation t expected' epsilon')))
    id passCount failCount =
  Harness.RunSingleTest (Ref (Some t)) id passCount failCount.
Proof.
  intros Hst. unfold Harness.RunSingleTest. cbv [deref bind].
  cbv [Harness.with_expectation Harness.a Harness.b Harness.op Harness.width
       Harness.expectedStatus Harness.expected Harness.epsilon].
  destruct t as [a b expected epsilon description op width expectedStatus].
  cbv [Harness.expectedStatus] in Hst.
  match goal with
  | |- match ?c with _ => _ end = _ => destruct c as [[status result]|]
  end; [|reflexivity].
  destruct (Z.eqb_spec status E_OK) as [->|Hne]; [|reflexivity].
  replace (E_OK =? expectedStatus) with false by (symmetry; apply Z.eqb_neq; congruence).
  destruct result as [|[r|]]; reflexivity.
Qed.

Lemma error_tests_ignore_the_expected_value_witness :
  let t := Harness.Build_TestVector_t (f32 20000 0) (f32 20000 0) Harness.FIX16_REAL_MAX
             Harness.TEST_EPSILON_16 "16-bit add: positive saturation"%string
             Harness.TEST_OP_ADD Harness.TEST_WIDTH_16 E_NOT_OK in
  Harness.expectedStatus t <> E_OK /\
  Harness.RunSingleTest (Ref (Some (Harness.with_expectation t (f32 0 0) (f32 0 0))))
    9 (Ref (Some 0)) (Ref (Some 0)) =
  Harness.RunSingleTest (Ref (Some t)) 9 (Ref (Some 0)) (Ref (Some 0)).
Proof.
  cbv zeta.
  set (t := Harness.Build_TestVector_t (f32 20000 0) (f32 20000 0) Harness.FIX16_REAL_MAX
              Harness.TEST_EPSILON_16 "16-bit add: positive saturation"%string
              Harness.TEST_OP_ADD Harness.TEST_WIDTH_16 E_NOT_OK).
  assert (H : Harness.expectedStatus t <> E_OK) by discriminate.
  split; [exact H|].
  exact (error_tests_ignore_the_expected_value t (f32 0 0) (f32 0 0) 9
           (Ref (Some 0)) (Ref (Some 0)) H).
Defined.

(** X19.  The table of test vectors passes: [RunAllTests] runs its 40
    vectors on the engine and reports 40 passed and none failed. *)
Theorem test_table_passes : Harness.RunAllTests = Some (40, 40, 0).
Proof. vm_compute. reflexivity. Qed.
